(** * Character animation layer: locomotion state machine, procedural
      offsets, spring-damper secondary motion and the character motion
      integrator.

    Shallow embedding of [secondaryMotion.js], [animationController.js] and
    [characterController.js].  JavaScript numbers are read as real numbers
    (IEEE rounding, NaN and infinities are outside that reading), except in
    [Binary64], where the spring-damper unit and the coordinator's
    kinematics are given once more on binary64 numbers, for the properties
    that rounding and overflow decide.  Objects of the rendering engine
    that several components write (bone rotations, the model transform,
    the mixer and its actions) live in one explicit [Scene] that is
    threaded through every method. *)

From Stdlib Require Import Reals Lra Lia List Bool ZArith.
Import ListNotations.
Open Scope R_scope.

(** ** JavaScript comparisons on numbers, as booleans *)

Definition leb_R (a b : R) : bool := if Rle_dec a b then true else false.
Definition ltb_R (a b : R) : bool := if Rlt_dec a b then true else false.
Definition gtb_R (a b : R) : bool := ltb_R b a.

(** [v || d] on a number that may be missing: 0 and [undefined] are falsy. *)
Definition orDefault (v : option R) (d : R) : R :=
  match v with
  | Some r => if Req_dec_T r 0 then d else r
  | None => d
  end.

(** [a || b] on object references. *)
Definition orElse {A : Type} (a b : option A) : option A :=
  match a with
  | Some _ => a
  | None => b
  end.

(** ** three.js value types used by the controllers *)

Module Vector3.

Record t : Type := mk { x : R; y : R; z : R }.

Definition zero : t := mk 0 0 0.

Definition add (a b : t) : t := mk (x a + x b) (y a + y b) (z a + z b).

Definition subVectors (a b : t) : t :=
  mk (x a - x b) (y a - y b) (z a - z b).

Definition multiplyScalar (v : t) (s : R) : t :=
  mk (x v * s) (y v * s) (z v * s).

Definition divideScalar (v : t) (s : R) : t := multiplyScalar v (1 / s).

Definition addScaledVector (v w : t) (s : R) : t :=
  mk (x v + x w * s) (y v + y w * s) (z v + z w * s).

Definition crossVectors (a b : t) : t :=
  mk (y a * z b - z a * y b) (z a * x b - x a * z b) (x a * y b - y a * x b).

Definition length (v : t) : R := sqrt (x v * x v + y v * y v + z v * z v).

(** [divideScalar(this.length() || 1)] *)
Definition normalize (v : t) : t :=
  divideScalar v (if Req_dec_T (length v) 0 then 1 else length v).

End Vector3.

Module Quaternion.

Record t : Type := mk { x : R; y : R; z : R; w : R }.

Definition identity : t := mk 0 0 0 1.

(** [a.multiply(b)]: the Hamilton product [a * b]. *)
Definition multiply (a b : t) : t :=
  mk (x a * w b + w a * x b + y a * z b - z a * y b)
     (y a * w b + w a * y b + z a * x b - x a * z b)
     (z a * w b + w a * z b + x a * y b - y a * x b)
     (w a * w b - x a * x b - y a * y b - z a * z b).

Definition setFromAxisAngle (axis : Vector3.t) (angle : R) : t :=
  let halfAngle := angle / 2 in
  let s := sin halfAngle in
  mk (Vector3.x axis * s) (Vector3.y axis * s) (Vector3.z axis * s)
     (cos halfAngle).

(** [setFromEuler] of an Euler triple in the default order XYZ. *)
Definition setFromEuler (ex ey ez : R) : t :=
  let c1 := cos (ex / 2) in
  let c2 := cos (ey / 2) in
  let c3 := cos (ez / 2) in
  let s1 := sin (ex / 2) in
  let s2 := sin (ey / 2) in
  let s3 := sin (ez / 2) in
  mk (s1 * c2 * c3 + c1 * s2 * s3)
     (c1 * s2 * c3 - s1 * c2 * s3)
     (c1 * c2 * s3 + s1 * s2 * c3)
     (c1 * c2 * c3 - s1 * s2 * s3).

End Quaternion.

Module MathUtils.

Definition lerp (x y t : R) : R := (1 - t) * x + t * y.

(** [Math.max(min, Math.min(max, value))] *)
Definition clamp (value lo hi : R) : R := Rmax lo (Rmin hi value).

(** [Math.trunc]: rounding toward zero. *)
Definition trunc (r : R) : Z :=
  if Rle_dec 0 r then Int_part r else (- Int_part (- r))%Z.

(** The [%] operator: the remainder takes the sign of the dividend. *)
Definition rem (a b : R) : R := a - b * IZR (trunc (a / b)).

(** [Math.atan2(y, x)] (signed zeros are not distinguished). *)
Definition atan2 (y x : R) : R :=
  if Rlt_dec 0 x then atan (y / x)
  else if Rlt_dec x 0 then
    (if Rle_dec 0 y then atan (y / x) + PI else atan (y / x) - PI)
  else if Rlt_dec 0 y then PI / 2
  else if Rlt_dec y 0 then - (PI / 2)
  else 0.

End MathUtils.

(** ** Shared scene state *)

Definition BoneId : Type := nat.

(** [bone.quaternion] of every bone of the model. *)
Definition Pose : Type := BoneId -> Quaternion.t.

Definition setQuaternion (p : Pose) (b : BoneId) (q : Quaternion.t) : Pose :=
  fun b' => if Nat.eqb b' b then q else p b'.

(** ** secondaryMotion.js *)

Definition SPRING_STIFFNESS : R := 15.0.
Definition SPRING_DAMPING : R := 0.8.
Definition MAX_DISPLACEMENT : R := 0.3.
Definition MAX_DELTA_TIME : R := 0.1.
Definition VELOCITY_SCALE : R := 0.5.
Definition ACCELERATION_SCALE : R := 0.3.

Inductive SecondaryMotionType : Type := HAIR | CLOTH | UPPER_BODY.

(** The guard that opens [BoneSpring.update] and [updateCharacterMotion]:
    a time step that is not in (0, MAX_DELTA_TIME] is replaced by 0.016. *)
Definition clampDeltaTime (deltaTime : R) : R :=
  if leb_R deltaTime 0 || gtb_R deltaTime MAX_DELTA_TIME
  then 0.016 else deltaTime.

(** Every bone is a three.js [Bone] and carries a quaternion, so the
    guards on [this.bone.quaternion] always pass and are not repeated. *)
Module BoneSpring.

Record Config : Type := mkConfig {
  cfg_stiffness : option R;
  cfg_damping : option R;
  cfg_maxDisplacement : option R
}.

Record t : Type := mk {
  bone : BoneId;
  type : SecondaryMotionType;
  stiffness : R;
  damping : R;
  maxDisplacement : R;
  velocity : Vector3.t;
  displacement : Vector3.t;
  originalRotation : Quaternion.t
}.

Definition new (b : BoneId) (ty : SecondaryMotionType) (config : Config)
    (p : Pose) : t :=
  mk b ty
     (orDefault (cfg_stiffness config) SPRING_STIFFNESS)
     (orDefault (cfg_damping config) SPRING_DAMPING)
     (orDefault (cfg_maxDisplacement config) MAX_DISPLACEMENT)
     Vector3.zero Vector3.zero (p b).

Definition applyDisplacement (s : t) (p : Pose) : Pose :=
  let angle := Vector3.length (displacement s) in
  if gtb_R angle 0.001 then
    let axis := Vector3.normalize (displacement s) in
    let tempQuat := Quaternion.setFromAxisAngle axis angle in
    setQuaternion p (bone s)
      (Quaternion.multiply (originalRotation s) tempQuat)
  else
    setQuaternion p (bone s) (originalRotation s).

(** [update], numbers read as reals; what its clamp does on the code's
    binary64 numbers is in [Binary64.BoneSpring.update]. *)
Definition update (deltaTime : R)
    (characterVelocity characterAcceleration : option Vector3.t)
    (s : t) (p : Pose) : t * Pose :=
  let deltaTime := clampDeltaTime deltaTime in
  let force := Vector3.zero in
  let force :=
    match characterVelocity with
    | Some v => Vector3.addScaledVector force v (- VELOCITY_SCALE)
    | None => force
    end in
  let force :=
    match characterAcceleration with
    | Some a => Vector3.addScaledVector force a (- ACCELERATION_SCALE)
    | None => force
    end in
  let springForce :=
    Vector3.multiplyScalar (displacement s) (- stiffness s) in
  let dampingForce :=
    Vector3.multiplyScalar (velocity s) (- damping s) in
  let force := Vector3.add (Vector3.add force springForce) dampingForce in
  let velocity1 := Vector3.addScaledVector (velocity s) force deltaTime in
  let displacement1 :=
    Vector3.addScaledVector (displacement s) velocity1 deltaTime in
  let displacementMagnitude := Vector3.length displacement1 in
  let s' :=
    if gtb_R displacementMagnitude (maxDisplacement s) then
      mk (bone s) (type s) (stiffness s) (damping s) (maxDisplacement s)
         (Vector3.multiplyScalar velocity1 0.5)
         (Vector3.multiplyScalar (Vector3.normalize displacement1)
            (maxDisplacement s))
         (originalRotation s)
    else
      mk (bone s) (type s) (stiffness s) (damping s) (maxDisplacement s)
         velocity1 displacement1 (originalRotation s) in
  (s', applyDisplacement s' p).

Definition reset (s : t) (p : Pose) : t * Pose :=
  (mk (bone s) (type s) (stiffness s) (damping s) (maxDisplacement s)
      Vector3.zero Vector3.zero (originalRotation s),
   setQuaternion p (bone s) (originalRotation s)).

Definition updateOriginalRotation (s : t) (p : Pose) : t :=
  mk (bone s) (type s) (stiffness s) (damping s) (maxDisplacement s)
     (velocity s) (displacement s) (p (bone s)).

End BoneSpring.

Module SecondaryMotionController.

Record t : Type := mk {
  springs : list BoneSpring.t;
  previousPosition : Vector3.t;
  currentVelocity : Vector3.t;
  currentAcceleration : Vector3.t;
  previousVelocity : Vector3.t
}.

(** The per-type profiles passed by [discoverAndSetupBones]. *)
Definition hairConfig : BoneSpring.Config :=
  BoneSpring.mkConfig (Some 12.0) (Some 0.7) (Some 0.4).
Definition clothConfig : BoneSpring.Config :=
  BoneSpring.mkConfig (Some 10.0) (Some 0.6) (Some 0.5).
Definition upperBodyConfig : BoneSpring.Config :=
  BoneSpring.mkConfig (Some 20.0) (Some 0.9) (Some 0.15).
(** [config = {}], the constructor's default argument. *)
Definition emptyConfig : BoneSpring.Config :=
  BoneSpring.mkConfig None None None.

(** The spring creation of [discoverAndSetupBones], from the three lists
    of bones the traversal collected. *)
Definition createSprings (hairBones clothBones upperBodyBones : list BoneId)
    (p : Pose) : list BoneSpring.t :=
  map (fun b => BoneSpring.new b HAIR hairConfig p) hairBones
  ++ map (fun b => BoneSpring.new b CLOTH clothConfig p) clothBones
  ++ map (fun b => BoneSpring.new b UPPER_BODY upperBodyConfig p)
       upperBodyBones.

Definition new (hairBones clothBones upperBodyBones : list BoneId)
    (p : Pose) : t :=
  mk (createSprings hairBones clothBones upperBodyBones p)
     Vector3.zero Vector3.zero Vector3.zero Vector3.zero.

Definition hasSecondaryMotion (c : t) : bool :=
  match springs c with
  | [] => false
  | _ :: _ => true
  end.

Definition updateCharacterMotion (deltaTime : R) (modelPosition : Vector3.t)
    (c : t) : t :=
  let deltaTime := clampDeltaTime deltaTime in
  let tempVector1 := modelPosition in
  let currentVelocity1 :=
    Vector3.divideScalar
      (Vector3.subVectors tempVector1 (previousPosition c)) deltaTime in
  let currentAcceleration1 :=
    Vector3.divideScalar
      (Vector3.subVectors currentVelocity1 (previousVelocity c))
      deltaTime in
  mk (springs c) tempVector1 currentVelocity1 currentAcceleration1
     currentVelocity1.

(** The loop [for (const spring of this.springs) spring.update(...)]. *)
Fixpoint updateSprings (deltaTime : R) (v a : Vector3.t)
    (ss : list BoneSpring.t) (p : Pose) : list BoneSpring.t * Pose :=
  match ss with
  | [] => ([], p)
  | s :: ss' =>
      let '(s1, p1) := BoneSpring.update deltaTime (Some v) (Some a) s p in
      let '(ss1, p2) := updateSprings deltaTime v a ss' p1 in
      (s1 :: ss1, p2)
  end.

Definition update (deltaTime : R) (modelPosition : Vector3.t)
    (c : t) (p : Pose) : t * Pose :=
  match springs c with
  | [] => (c, p)
  | _ :: _ =>
      let c1 := updateCharacterMotion deltaTime modelPosition c in
      let '(ss, p1) :=
        updateSprings deltaTime (currentVelocity c1)
          (currentAcceleration c1) (springs c1) p in
      (mk ss (previousPosition c1) (currentVelocity c1)
          (currentAcceleration c1) (previousVelocity c1), p1)
  end.

Definition onAnimationUpdate (c : t) (p : Pose) : t :=
  mk (map (fun s => BoneSpring.updateOriginalRotation s p) (springs c))
     (previousPosition c) (currentVelocity c) (currentAcceleration c)
     (previousVelocity c).

Fixpoint resetSprings (ss : list BoneSpring.t) (p : Pose)
    : list BoneSpring.t * Pose :=
  match ss with
  | [] => ([], p)
  | s :: ss' =>
      let '(s1, p1) := BoneSpring.reset s p in
      let '(ss1, p2) := resetSprings ss' p1 in
      (s1 :: ss1, p2)
  end.

Definition reset (modelPosition : Vector3.t) (c : t) (p : Pose)
    : t * Pose :=
  let '(ss, p1) := resetSprings (springs c) p in
  (mk ss modelPosition Vector3.zero Vector3.zero Vector3.zero, p1).

End SecondaryMotionController.

(** ** animationController.js *)

Inductive AnimationState : Type := IDLE | WALK | RUN.

Definition AnimationState_eqb (a b : AnimationState) : bool :=
  match a, b with
  | IDLE, IDLE | WALK, WALK | RUN, RUN => true
  | _, _ => false
  end.

Definition CROSSFADE_DURATION : R := 0.25.
Definition WALK_SPEED_THRESHOLD : R := 0.1.
Definition RUN_SPEED_THRESHOLD : R := 4.0.
Definition MIN_WALK_SPEED_SCALE : R := 0.8.
Definition MAX_WALK_SPEED_SCALE : R := 1.3.
Definition WALK_SPEED_DIVISOR : R := 2.0.
Definition MAX_RUN_SPEED_SCALE : R := 1.5.
Definition UPPER_BODY_INERTIA_FACTOR : R := 0.1.
Definition HEAD_LAG_FACTOR : R := 0.15.
Definition SHOULDER_LAG_FACTOR : R := 0.08.

(** Animation clips are opaque; only their identity matters. *)
Definition Clip : Type := nat.

(** [mixer.clipAction(clip)]: the mixer keeps one action per clip and hands
    the same object back on every request for that clip. *)
Inductive Action : Type := clipAction (c : Clip).

Definition Action_eqb (a b : Action) : bool :=
  match a, b with
  | clipAction c, clipAction d => Nat.eqb c d
  end.

(** What the controller asks of the mixer, of its actions and of the
    console, in the order of the calls. *)
Inductive Effect : Type :=
| SetLoopRepeat (a : Action)
| SetClampWhenFinished (a : Action) (b : bool)
| SetEffectiveTimeScale (a : Action) (timeScale : R)
| FadeOut (a : Action) (duration : R)
| ResetAction (a : Action)
| FadeIn (a : Action) (duration : R)
| Play (a : Action)
| MixerUpdate (deltaTime : R)
| Warn (state : AnimationState).

(** The objects shared by the controllers: the bone rotations, the model's
    position and heading ([model.rotation.y]) and the calls received so far
    by the mixer, oldest first. *)
Record Scene : Type := mkScene {
  pose : Pose;
  position : Vector3.t;
  rotationY : R;
  calls : list Effect
}.

Definition emit (e : Effect) (sc : Scene) : Scene :=
  mkScene (pose sc) (position sc) (rotationY sc) (calls sc ++ [e]).

Definition setPose (p : Pose) (sc : Scene) : Scene :=
  mkScene p (position sc) (rotationY sc) (calls sc).

(** The calls added to the log between two scenes. *)
Definition emitted (before after : Scene) : list Effect :=
  skipn (List.length (calls before)) (calls after).

(** The calls that start or change a weight fade of an action. *)
Definition startsFade (e : Effect) : bool :=
  match e with
  | FadeOut _ _ | ResetAction _ | FadeIn _ _ | Play _ => true
  | _ => false
  end.

Module AnimationController.

Record AnimationClips : Type := mkClips {
  idle : option Clip;
  walk : option Clip;
  run : option Clip
}.

Record KeyBones : Type := mkBones {
  spine : option BoneId;
  chest : option BoneId;
  neck : option BoneId;
  head : option BoneId;
  leftShoulder : option BoneId;
  rightShoulder : option BoneId;
  hips : option BoneId
}.

(** [mixer] and [skeleton] record whether the reference is non-null. *)
Record t : Type := mk {
  mixer : bool;
  animationClips : AnimationClips;
  currentState : AnimationState;
  currentAction : option Action;
  skeleton : bool;
  bones : KeyBones;
  previousRotation : R;
  rotationVelocity : R;
  secondaryMotion : SecondaryMotionController.t
}.

Definition setAnimation (ac : t) (a : option Action) (st : AnimationState)
    : t :=
  mk (mixer ac) (animationClips ac) st a (skeleton ac) (bones ac)
     (previousRotation ac) (rotationVelocity ac) (secondaryMotion ac).

Definition setRotationTracking (ac : t) (previous velocity : R) : t :=
  mk (mixer ac) (animationClips ac) (currentState ac) (currentAction ac)
     (skeleton ac) (bones ac) previous velocity (secondaryMotion ac).

Definition setSecondaryMotion (ac : t) (sm : SecondaryMotionController.t)
    : t :=
  mk (mixer ac) (animationClips ac) (currentState ac) (currentAction ac)
     (skeleton ac) (bones ac) (previousRotation ac) (rotationVelocity ac) sm.

(** The bones [applyProceduralOffsets] may write: the spine, the head and
    the two shoulders, where [findKeyBones] found them. *)
Definition proceduralTargets (kb : KeyBones) : list BoneId :=
  flat_map (fun o : option BoneId =>
              match o with Some b => [b] | None => [] end)
    [spine kb; head kb; leftShoulder kb; rightShoulder kb].

(** The state and playback rate [updateFromSpeed] derives from the speed:
    its locals [targetState] and [animationSpeed]. *)
Definition locomotionTarget (speed : R) : AnimationState * R :=
  if gtb_R speed WALK_SPEED_THRESHOLD then
    if gtb_R speed RUN_SPEED_THRESHOLD then
      (RUN, Rmin MAX_RUN_SPEED_SCALE (speed / RUN_SPEED_THRESHOLD))
    else
      (WALK,
       Rmax MIN_WALK_SPEED_SCALE
         (Rmin MAX_WALK_SPEED_SCALE (speed / WALK_SPEED_DIVISOR)))
  else (IDLE, 1.0).

Definition targetState (speed : R) : AnimationState :=
  fst (locomotionTarget speed).

Definition animationSpeed (speed : R) : R := snd (locomotionTarget speed).

Definition configureAction (action : Action) (speed : R) (sc : Scene)
    : Scene :=
  emit (SetEffectiveTimeScale action speed)
    (emit (SetClampWhenFinished action false)
       (emit (SetLoopRepeat action) sc)).

Definition playAnimation (clip : option Clip) (state : AnimationState)
    (speed : R) (ac : t) (sc : Scene) : t * Scene :=
  match mixer ac, clip with
  | true, Some c =>
      let newAction := clipAction c in
      let sc1 := configureAction newAction speed sc in
      let sc2 :=
        match currentAction ac with
        | Some cur =>
            if negb (Action_eqb cur newAction) then
              emit (Play newAction)
                (emit (FadeIn newAction CROSSFADE_DURATION)
                   (emit (ResetAction newAction)
                      (emit (FadeOut cur CROSSFADE_DURATION) sc1)))
            else sc1
        | None => emit (Play newAction) (emit (ResetAction newAction) sc1)
        end in
      (setAnimation ac (Some newAction) state, sc2)
  | _, _ => (ac, sc)
  end.

(** The clip [transitionToState] selects for a state, with its fallbacks. *)
Definition targetClip (clips : AnimationClips) (newState : AnimationState)
    : option Clip :=
  match newState with
  | IDLE => idle clips
  | WALK => orElse (walk clips) (idle clips)
  | RUN => orElse (orElse (run clips) (walk clips)) (idle clips)
  end.

Definition transitionToState (newState : AnimationState) (speed : R)
    (ac : t) (sc : Scene) : t * Scene :=
  match targetClip (animationClips ac) newState with
  | Some c => playAnimation (Some c) newState speed ac sc
  | None => (ac, emit (Warn newState) sc)
  end.

Definition applyProceduralOffsets (speed deltaTime : R) (ac : t) (sc : Scene)
    : t * Scene :=
  if negb (skeleton ac) || leb_R deltaTime 0 || gtb_R deltaTime 0.1
  then (ac, sc)
  else
    let currentRotation := rotationY sc in
    let rotationDelta := currentRotation - previousRotation ac in
    let rotationVelocity := rotationDelta / deltaTime in
    let p := pose sc in
    let p :=
      match spine (bones ac) with
      | Some b =>
          if gtb_R (Rabs rotationVelocity) 0.1 then
            let inertiaAmount :=
              - rotationVelocity * UPPER_BODY_INERTIA_FACTOR * deltaTime in
            setQuaternion p b
              (Quaternion.multiply (p b)
                 (Quaternion.setFromEuler 0 inertiaAmount 0))
          else p
      | None => p
      end in
    let p :=
      match head (bones ac) with
      | Some b =>
          if gtb_R (Rabs rotationVelocity) 0.1 then
            let headLag :=
              - rotationVelocity * HEAD_LAG_FACTOR * deltaTime in
            setQuaternion p b
              (Quaternion.multiply (p b)
                 (Quaternion.setFromEuler 0 headLag 0))
          else p
      | None => p
      end in
    let p :=
      match leftShoulder (bones ac), rightShoulder (bones ac) with
      | Some l, Some r =>
          if gtb_R (Rabs rotationVelocity) 0.1 then
            let shoulderLag :=
              rotationVelocity * SHOULDER_LAG_FACTOR * deltaTime in
            let p1 :=
              setQuaternion p l
                (Quaternion.multiply (p l)
                   (Quaternion.setFromEuler 0 0 shoulderLag)) in
            setQuaternion p1 r
              (Quaternion.multiply (p1 r)
                 (Quaternion.setFromEuler 0 0 (- shoulderLag)))
          else p
      | _, _ => p
      end in
    (setRotationTracking ac currentRotation rotationVelocity, setPose p sc).

(** [this.secondaryMotion.update(deltaTime)] when there are springs. *)
Definition updateSecondaryMotion (deltaTime : R) (ac : t) (sc : Scene)
    : t * Scene :=
  if SecondaryMotionController.hasSecondaryMotion (secondaryMotion ac) then
    let '(sm, p) :=
      SecondaryMotionController.update deltaTime (position sc)
        (secondaryMotion ac) (pose sc) in
    (setSecondaryMotion ac sm, setPose p sc)
  else (ac, sc).

(** The first part of [updateFromSpeed]: the transition when the target
    state differs from the current one, the playback rate otherwise. *)
Definition selectAnimation (speed : R) (ac : t) (sc : Scene) : t * Scene :=
  let '(targetState, animationSpeed) := locomotionTarget speed in
  if negb (AnimationState_eqb (currentState ac) targetState) then
    transitionToState targetState animationSpeed ac sc
  else
    match currentAction ac with
    | Some a => (ac, emit (SetEffectiveTimeScale a animationSpeed) sc)
    | None => (ac, sc)
    end.

Section Engine.

(** The animation mixer belongs to the rendering engine: the pose it writes
    on [mixer.update] is some function of the calls it has received and of
    the pose it finds. *)
Variable mixerPose : list Effect -> Pose -> Pose.

Definition mixerUpdate (deltaTime : R) (sc : Scene) : Scene :=
  let log := calls sc ++ [MixerUpdate deltaTime] in
  mkScene (mixerPose log (pose sc)) (position sc) (rotationY sc) log.

Definition updateFromSpeed (speed deltaTime : R) (ac : t) (sc : Scene)
    : t * Scene :=
  if negb (mixer ac) then updateSecondaryMotion deltaTime ac sc
  else
    let '(ac1, sc1) := selectAnimation speed ac sc in
    let sc2 := mixerUpdate deltaTime sc1 in
    let ac3 :=
      if SecondaryMotionController.hasSecondaryMotion (secondaryMotion ac1)
      then
        setSecondaryMotion ac1
          (SecondaryMotionController.onAnimationUpdate (secondaryMotion ac1)
             (pose sc2))
      else ac1 in
    let '(ac4, sc4) := applyProceduralOffsets speed deltaTime ac3 sc2 in
    updateSecondaryMotion deltaTime ac4 sc4.

(** One [updateFromSpeed] per frame, each frame with its speed and its
    delta time, first frame first. *)
Fixpoint frames (fs : list (R * R)) (ac : t) (sc : Scene) : t * Scene :=
  match fs with
  | [] => (ac, sc)
  | (speed, deltaTime) :: fs' =>
      let '(ac1, sc1) := updateFromSpeed speed deltaTime ac sc in
      frames fs' ac1 sc1
  end.

End Engine.

End AnimationController.

(** ** characterController.js *)

Definition WALK_SPEED : R := 2.0.
Definition RUN_SPEED : R := 5.0.
Definition ROTATION_SPEED : R := 10.0.
Definition ROTATION_SMOOTHING : R := 0.15.
Definition MOVEMENT_ACCELERATION : R := 8.0.
Definition MOVEMENT_DECELERATION : R := 12.0.

Module CharacterController.

Record t : Type := mk {
  velocity : Vector3.t;
  currentSpeed : R;
  targetSpeed : R;
  currentRotation : R;
  targetRotation : R;
  animationController : AnimationController.t
}.

Definition new (ac : AnimationController.t) (sc : Scene) : t :=
  mk Vector3.zero 0 0 (rotationY sc) (rotationY sc) ac.

Definition shortestAngle (current target : R) : R :=
  let delta := target - current in
  MathUtils.rem (delta + PI) (PI * 2) - PI.

(** What [inputManager.getMovementInput()] and [isSprinting()] returned and
    the direction [camera.getWorldDirection] reported, for one frame. *)
Record Input : Type := mkInput {
  input_x : R;
  input_z : R;
  isSprinting : bool;
  cameraWorldDirection : Vector3.t
}.

(** The heading change of a moving frame: the smoothed, rate-capped turn. *)
Definition clampedRotation (deltaTime current target : R) : R :=
  let rotationDelta := shortestAngle current target in
  let rotationSpeed := ROTATION_SPEED * deltaTime in
  let smoothedRotation := rotationDelta * ROTATION_SMOOTHING in
  MathUtils.clamp smoothedRotation (- rotationSpeed) rotationSpeed.

(** [n] frames of 1/60 s with the input direction (1, 0) held and sprint
    off; [camera i] is the direction the camera reports in frame [i]. *)
Definition walkingFrames (camera : nat -> Vector3.t) (n : nat)
    : list (R * Input) :=
  map (fun i => (1 / 60, mkInput 1 0 false (camera i))) (seq 0 n).

Section Engine.

Variable mixerPose : list Effect -> Pose -> Pose.

Definition update (deltaTime : R) (input : Input) (cc : t) (sc : Scene)
    : t * Scene :=
  let isMoving :=
    gtb_R (Rabs (input_x input)) 0.01 || gtb_R (Rabs (input_z input)) 0.01 in
  let '(cc1, sc1) :=
    if isMoving then
      let cameraDirection :=
        Vector3.normalize
          (Vector3.mk (Vector3.x (cameraWorldDirection input)) 0
             (Vector3.z (cameraWorldDirection input))) in
      let cameraRight :=
        Vector3.crossVectors cameraDirection (Vector3.mk 0 1 0) in
      let moveDirection :=
        Vector3.normalize
          (Vector3.addScaledVector
             (Vector3.addScaledVector Vector3.zero cameraRight
                (input_x input))
             cameraDirection (- input_z input)) in
      let targetSpeed1 := if isSprinting input then RUN_SPEED else WALK_SPEED in
      let acceleration := MOVEMENT_ACCELERATION * deltaTime in
      let currentSpeed1 :=
        MathUtils.lerp (currentSpeed cc) targetSpeed1 acceleration in
      let velocity1 :=
        Vector3.multiplyScalar moveDirection (currentSpeed1 * deltaTime) in
      let targetRotation1 :=
        MathUtils.atan2 (Vector3.x moveDirection) (Vector3.z moveDirection) in
      let currentRotation1 :=
        currentRotation cc
        + clampedRotation deltaTime (currentRotation cc) targetRotation1 in
      (mk velocity1 currentSpeed1 targetSpeed1 currentRotation1
          targetRotation1 (animationController cc),
       mkScene (pose sc) (Vector3.add (position sc) velocity1)
         currentRotation1 (calls sc))
    else
      let deceleration := MOVEMENT_DECELERATION * deltaTime in
      let currentSpeed1 := MathUtils.lerp (currentSpeed cc) 0 deceleration in
      let currentSpeed2 :=
        if ltb_R currentSpeed1 0.01 then 0 else currentSpeed1 in
      (mk (velocity cc) currentSpeed2 0 (currentRotation cc)
          (targetRotation cc) (animationController cc), sc) in
  let '(ac, sc2) :=
    AnimationController.updateFromSpeed mixerPose (currentSpeed cc1) deltaTime
      (animationController cc1) sc1 in
  (mk (velocity cc1) (currentSpeed cc1) (targetSpeed cc1)
      (currentRotation cc1) (targetRotation cc1) ac, sc2).

(** The controller and scene after the frames of a list, first frame
    first, each with its own delta time and input. *)
Fixpoint frames (fs : list (R * Input)) (cc : t) (sc : Scene) : t * Scene :=
  match fs with
  | [] => (cc, sc)
  | (dt, input) :: fs' =>
      let '(cc1, sc1) := update dt input cc sc in
      frames fs' cc1 sc1
  end.

(** The speed of a freshly built controller after [n] walking frames. *)
Definition walkingSpeed (camera : nat -> Vector3.t)
    (ac : AnimationController.t) (sc : Scene) (n : nat) : R :=
  currentSpeed (fst (frames (walkingFrames camera n) (new ac sc) sc)).

End Engine.

End CharacterController.

(** ** Sample models, used by the examples *)

Definition restPose : Pose := fun _ => Quaternion.identity.

(** A mixer whose clips animate none of the bones. *)
Definition stillMixer : list Effect -> Pose -> Pose := fun _ p => p.

Definition sampleScene : Scene := mkScene restPose Vector3.zero 0 [].

(** The same scene once the model has turned by one radian. *)
Definition turnedScene : Scene := mkScene restPose Vector3.zero 1 [].

(** A rigged model with idle, walk and run clips (clips 0, 1, 2), the idle
    clip playing; bone 0 is the spine, 1 the head, 2 and 3 the shoulders,
    4 a hair bone and 5 a cloth bone. *)
Definition riggedController : AnimationController.t :=
  AnimationController.mk true
    (AnimationController.mkClips (Some 0%nat) (Some 1%nat) (Some 2%nat))
    IDLE (Some (clipAction 0%nat)) true
    (AnimationController.mkBones (Some 0%nat) None None (Some 1%nat)
       (Some 2%nat) (Some 3%nat) None)
    0 0
    (SecondaryMotionController.new [4%nat] [5%nat] [0%nat] restPose).

(** A model whose only clip (clip 7) matches none of the idle, walk and
    run names: [setupAnimations] plays it as the idle fallback and leaves
    the three clip slots empty. *)
Definition cliplessController : AnimationController.t :=
  AnimationController.mk true
    (AnimationController.mkClips None None None)
    IDLE (Some (clipAction 7%nat)) false
    (AnimationController.mkBones None None None None None None None)
    0 0
    (SecondaryMotionController.new [] [] [] restPose).

(** ** Names: the string operations of the discovery code *)

From Stdlib Require Import Strings.String Strings.Ascii.

(** [toLowerCase] on the ASCII letters; bone and clip names are taken to be
    ASCII. *)
Definition toLowerAscii (c : ascii) : ascii :=
  let n := nat_of_ascii c in
  if ((65 <=? n) && (n <=? 90))%nat then ascii_of_nat (n + 32) else c.

Fixpoint toLowerCase (s : string) : string :=
  match s with
  | EmptyString => EmptyString
  | String c s' => String (toLowerAscii c) (toLowerCase s')
  end.

(** [s.includes(sub)] *)
Fixpoint includes (s sub : string) : bool :=
  if String.prefix sub s then true
  else
    match s with
    | EmptyString => false
    | String _ s' => includes s' sub
    end.

(** [keywords.some(keyword => name.includes(keyword))] *)
Definition someKeyword (keywords : list string) (name : string) : bool :=
  existsb (fun keyword => includes name keyword) keywords.

(** A bone of the model: its identity and its name. *)
Record Bone : Type := mkBone { boneId : BoneId; boneName : string }.

(** What the constructors read from a loaded model: whether
    [userData.mixer] is there, the entries of [userData.clips] in the
    order of [Object.entries], the skeletons of the skinned meshes and the
    bones, both in the order [model.traverse] visits them. *)
Record Model : Type := mkModel {
  model_mixer : bool;
  model_clips : list (string * Clip);
  model_skeletons : list (list Bone);
  model_bones : list Bone
}.

Definition HAIR_KEYWORDS : list string :=
  ["hair"; "ponytail"; "braid"; "strand"]%string.
Definition CLOTH_KEYWORDS : list string :=
  ["cloth"; "cape"; "skirt"; "scarf"; "ribbon"; "tie"]%string.
Definition UPPER_BODY_KEYWORDS : list string :=
  ["spine"; "chest"; "upperchest"; "neck"]%string.

Module Construction.

(** The type [discoverAndSetupBones] gives a bone, by the first keyword
    group its lower-cased name matches. *)
Definition classify (bone : Bone) : option SecondaryMotionType :=
  let name := toLowerCase (boneName bone) in
  if someKeyword HAIR_KEYWORDS name then Some HAIR
  else if someKeyword CLOTH_KEYWORDS name then Some CLOTH
  else if someKeyword UPPER_BODY_KEYWORDS name then Some UPPER_BODY
  else None.

(** The traversal of [discoverAndSetupBones]: each bone is pushed on the
    list of its type. *)
Fixpoint collectBones (bones : list Bone)
    (hairBones clothBones upperBodyBones : list BoneId)
    : list BoneId * list BoneId * list BoneId :=
  match bones with
  | [] => (hairBones, clothBones, upperBodyBones)
  | bone :: rest =>
      match classify bone with
      | Some HAIR =>
          collectBones rest (hairBones ++ [boneId bone]) clothBones
            upperBodyBones
      | Some CLOTH =>
          collectBones rest hairBones (clothBones ++ [boneId bone])
            upperBodyBones
      | Some UPPER_BODY =>
          collectBones rest hairBones clothBones
            (upperBodyBones ++ [boneId bone])
      | None => collectBones rest hairBones clothBones upperBodyBones
      end
  end.

(** [new SecondaryMotionController(model)] *)
Definition newSecondaryMotionController (m : Model) (p : Pose)
    : SecondaryMotionController.t :=
  let '(hairBones, clothBones, upperBodyBones) :=
    collectBones (model_bones m) [] [] [] in
  SecondaryMotionController.new hairBones clothBones upperBodyBones p.

Definition isNull {A : Type} (o : option A) : bool :=
  match o with
  | Some _ => false
  | None => true
  end.

(** The body of the loop of [findKeyBones]. *)
Definition findKeyBone (kb : AnimationController.KeyBones) (bone : Bone)
    : AnimationController.KeyBones :=
  let name := toLowerCase (boneName bone) in
  let b := Some (boneId bone) in
  let spine := AnimationController.spine kb in
  let chest := AnimationController.chest kb in
  let neck := AnimationController.neck kb in
  let head := AnimationController.head kb in
  let leftShoulder := AnimationController.leftShoulder kb in
  let rightShoulder := AnimationController.rightShoulder kb in
  let hips := AnimationController.hips kb in
  if includes name "spine" && isNull spine then
    AnimationController.mkBones b chest neck head leftShoulder rightShoulder
      hips
  else if (includes name "chest" || includes name "upperchest")
          && isNull chest then
    AnimationController.mkBones spine b neck head leftShoulder rightShoulder
      hips
  else if includes name "neck" && isNull neck then
    AnimationController.mkBones spine chest b head leftShoulder rightShoulder
      hips
  else if includes name "head" && isNull head then
    AnimationController.mkBones spine chest neck b leftShoulder rightShoulder
      hips
  else if (includes name "shoulder" || includes name "clavicle")
          && includes name "left" && isNull leftShoulder then
    AnimationController.mkBones spine chest neck head b rightShoulder hips
  else if (includes name "shoulder" || includes name "clavicle")
          && includes name "right" && isNull rightShoulder then
    AnimationController.mkBones spine chest neck head leftShoulder b hips
  else if (includes name "hips" || includes name "pelvis")
          && isNull hips then
    AnimationController.mkBones spine chest neck head leftShoulder
      rightShoulder b
  else kb.

Definition findKeyBones (bones : list Bone)
    (kb : AnimationController.KeyBones) : AnimationController.KeyBones :=
  fold_left findKeyBone bones kb.

Definition noKeyBones : AnimationController.KeyBones :=
  AnimationController.mkBones None None None None None None None.

(** [validateSkeleton]: the skeleton is that of the last skinned mesh the
    traversal meets; without one the key bones stay unset. *)
Definition validateSkeleton (m : Model)
    : bool * AnimationController.KeyBones :=
  match rev (model_skeletons m) with
  | [] => (false, noKeyBones)
  | bones :: _ => (true, findKeyBones bones noKeyBones)
  end.

(** [this.clips[name]] *)
Fixpoint lookupClip (clips : list (string * Clip)) (name : string)
    : option Clip :=
  match clips with
  | [] => None
  | (clipName, clip) :: rest =>
      if String.eqb clipName name then Some clip else lookupClip rest name
  end.

(** The inner loop of [findAnimation]: the first clip whose lower-cased
    name includes the lower-cased candidate. *)
Fixpoint partialMatch (clips : list (string * Clip)) (name : string)
    : option Clip :=
  match clips with
  | [] => None
  | (clipName, clip) :: rest =>
      if includes (toLowerCase clipName) (toLowerCase name) then Some clip
      else partialMatch rest name
  end.

Fixpoint findAnimation (clips : list (string * Clip))
    (possibleNames : list string) : option Clip :=
  match possibleNames with
  | [] => None
  | name :: rest =>
      match lookupClip clips name with
      | Some clip => Some clip
      | None =>
          match partialMatch clips name with
          | Some clip => Some clip
          | None => findAnimation clips rest
          end
      end
  end.

Definition IDLE_NAMES : list string :=
  ["idle"; "Idle"; "IDLE"; "standing"; "Standing"; "TPose"; "T-Pose"]%string.
Definition WALK_NAMES : list string :=
  ["walk"; "Walk"; "WALK"; "walking"; "Walking"]%string.
Definition RUN_NAMES : list string :=
  ["run"; "Run"; "RUN"; "running"; "Running"; "sprint"; "Sprint"]%string.

Definition setClips (ac : AnimationController.t)
    (clips : AnimationController.AnimationClips) : AnimationController.t :=
  AnimationController.mk (AnimationController.mixer ac) clips
    (AnimationController.currentState ac)
    (AnimationController.currentAction ac)
    (AnimationController.skeleton ac) (AnimationController.bones ac)
    (AnimationController.previousRotation ac)
    (AnimationController.rotationVelocity ac)
    (AnimationController.secondaryMotion ac).

(** [setupAnimations] (its console output apart). *)
Definition setupAnimations (clips : list (string * Clip))
    (ac : AnimationController.t) (sc : Scene)
    : AnimationController.t * Scene :=
  if negb (AnimationController.mixer ac) then (ac, sc)
  else
    let found :=
      AnimationController.mkClips (findAnimation clips IDLE_NAMES)
        (findAnimation clips WALK_NAMES) (findAnimation clips RUN_NAMES) in
    let ac1 := setClips ac found in
    match AnimationController.idle found with
    | Some clip =>
        AnimationController.playAnimation (Some clip) IDLE 1.0 ac1 sc
    | None =>
        match clips with
        | (_, fallbackClip) :: _ =>
            AnimationController.playAnimation (Some fallbackClip) IDLE 1.0
              ac1 sc
        | [] => (ac1, sc)
        end
    end.

(** [new AnimationController(model)] *)
Definition newAnimationController (m : Model) (sc : Scene)
    : AnimationController.t * Scene :=
  let secondaryMotion := newSecondaryMotionController m (pose sc) in
  let '(skeleton, bones) := validateSkeleton m in
  setupAnimations (model_clips m)
    (AnimationController.mk (model_mixer m)
       (AnimationController.mkClips None None None) IDLE None skeleton bones
       0 0 secondaryMotion)
    sc.

End Construction.

(** ** input.js *)

Module InputManager.

Record Keys : Type := mkKeys {
  forward : bool;
  backward : bool;
  left : bool;
  right : bool;
  sprint : bool
}.

(** The mouse state that is written after construction. *)
Record Mouse : Type := mkMouse {
  deltaX : R;
  deltaY : R;
  isLocked : bool
}.

Record t : Type := mk { keys : Keys; mouse : Mouse }.

Definition new : t :=
  mk (mkKeys false false false false false) (mkMouse 0 0 false).

(** The [switch (event.code)] shared by [onKeyDown] (which stores [true])
    and [onKeyUp] (which stores [false]). *)
Definition setKey (code : string) (value : bool) (k : Keys) : Keys :=
  if (code =? "KeyW")%string || (code =? "ArrowUp")%string then
    mkKeys value (backward k) (left k) (right k) (sprint k)
  else if (code =? "KeyS")%string || (code =? "ArrowDown")%string then
    mkKeys (forward k) value (left k) (right k) (sprint k)
  else if (code =? "KeyA")%string || (code =? "ArrowLeft")%string then
    mkKeys (forward k) (backward k) value (right k) (sprint k)
  else if (code =? "KeyD")%string || (code =? "ArrowRight")%string then
    mkKeys (forward k) (backward k) (left k) value (sprint k)
  else if (code =? "ShiftLeft")%string || (code =? "ShiftRight")%string then
    mkKeys (forward k) (backward k) (left k) (right k) value
  else k.

Definition onKeyDown (code : string) (m : t) : t :=
  mk (setKey code true (keys m)) (mouse m).

Definition onKeyUp (code : string) (m : t) : t :=
  mk (setKey code false (keys m)) (mouse m).

(** [locked] tells whether [document.pointerLockElement] is the canvas. *)
Definition onPointerLockChange (locked : bool) (m : t) : t :=
  mk (keys m) (mkMouse (deltaX (mouse m)) (deltaY (mouse m)) locked).

Definition onMouseMove (movementX movementY : R) (m : t) : t :=
  if isLocked (mouse m) then
    mk (keys m) (mkMouse movementX movementY (isLocked (mouse m)))
  else mk (keys m) (mkMouse 0 0 (isLocked (mouse m))).

Definition getMovementInput (m : t) : R * R :=
  let x := 0 in
  let z := 0 in
  let z := if forward (keys m) then z - 1 else z in
  let z := if backward (keys m) then z + 1 else z in
  let x := if left (keys m) then x - 1 else x in
  let x := if right (keys m) then x + 1 else x in
  let length := sqrt (x * x + z * z) in
  if gtb_R length 0 then (x / length, z / length) else (x, z).

Definition isSprinting (m : t) : bool := sprint (keys m).

Definition getMouseDelta (m : t) : (R * R) * t :=
  ((deltaX (mouse m), deltaY (mouse m)),
   mk (keys m) (mkMouse 0 0 (isLocked (mouse m)))).

Definition isMoving (m : t) : bool :=
  forward (keys m) || backward (keys m) || left (keys m) || right (keys m).

(** What [CharacterController.update] reads from the input manager. *)
Definition readInput (m : t) (cameraWorldDirection : Vector3.t)
    : CharacterController.Input :=
  CharacterController.mkInput (fst (getMovementInput m))
    (snd (getMovementInput m)) (isSprinting m) cameraWorldDirection.

End InputManager.

(** ** gameCamera.js *)

Module GameCamera.

Definition CAMERA_OFFSET_DISTANCE : R := 5.0.
Definition CAMERA_HEIGHT : R := 2.5.
Definition CAMERA_LOOK_AT_HEIGHT : R := 1.5.
Definition CAMERA_LERP_FACTOR : R := 5.0.
Definition MOUSE_SENSITIVITY : R := 0.002.
Definition MIN_POLAR_ANGLE : R := 0.1.
Definition MAX_POLAR_ANGLE : R := PI / 2 - 0.1.
Definition MIN_CAMERA_HEIGHT : R := 0.5.

(** [lookAtPoint] is the point handed to [camera.lookAt]; the camera's own
    position is [currentPosition] after the constructor and every update. *)
Record t : Type := mk {
  azimuthAngle : R;
  polarAngle : R;
  currentPosition : Vector3.t;
  desiredPosition : Vector3.t;
  lookAtPoint : Vector3.t
}.

(** [Vector3.lerp(v, alpha)] *)
Definition lerpVector (a v : Vector3.t) (alpha : R) : Vector3.t :=
  Vector3.mk (Vector3.x a + (Vector3.x v - Vector3.x a) * alpha)
    (Vector3.y a + (Vector3.y v - Vector3.y a) * alpha)
    (Vector3.z a + (Vector3.z v - Vector3.z a) * alpha).

Definition updateCameraPosition (targetPosition : Vector3.t) (gc : t) : t :=
  let sinPolar := sin (polarAngle gc) in
  let cosPolar := cos (polarAngle gc) in
  let sinAzimuth := sin (azimuthAngle gc) in
  let cosAzimuth := cos (azimuthAngle gc) in
  let offsetX := CAMERA_OFFSET_DISTANCE * sinPolar * sinAzimuth in
  let offsetY := CAMERA_OFFSET_DISTANCE * cosPolar + CAMERA_HEIGHT in
  let offsetZ := CAMERA_OFFSET_DISTANCE * sinPolar * cosAzimuth in
  mk (azimuthAngle gc) (polarAngle gc) (currentPosition gc)
     (Vector3.mk (Vector3.x targetPosition + offsetX)
        (Rmax (Vector3.y targetPosition + offsetY) MIN_CAMERA_HEIGHT)
        (Vector3.z targetPosition + offsetZ))
     (lookAtPoint gc).

Definition new (targetPosition : Vector3.t) : t :=
  let gc :=
    updateCameraPosition targetPosition
      (mk 0 (PI / 4) Vector3.zero Vector3.zero Vector3.zero) in
  mk (azimuthAngle gc) (polarAngle gc) (desiredPosition gc)
     (desiredPosition gc) (lookAtPoint gc).

Definition update (deltaTime : R) (inputManager : InputManager.t)
    (targetPosition : Vector3.t) (gc : t) : t * InputManager.t :=
  let '(mouseDelta, inputManager1) :=
    InputManager.getMouseDelta inputManager in
  let azimuthAngle1 := azimuthAngle gc - fst mouseDelta * MOUSE_SENSITIVITY in
  let polarAngle1 := polarAngle gc + snd mouseDelta * MOUSE_SENSITIVITY in
  let polarAngle2 :=
    Rmax MIN_POLAR_ANGLE (Rmin MAX_POLAR_ANGLE polarAngle1) in
  let gc1 :=
    updateCameraPosition targetPosition
      (mk azimuthAngle1 polarAngle2 (currentPosition gc)
         (desiredPosition gc) (lookAtPoint gc)) in
  let lerpFactor := Rmin 1.0 (CAMERA_LERP_FACTOR * deltaTime) in
  let currentPosition1 :=
    lerpVector (currentPosition gc1) (desiredPosition gc1) lerpFactor in
  (mk (azimuthAngle gc1) (polarAngle gc1) currentPosition1
      (desiredPosition gc1)
      (Vector3.mk (Vector3.x targetPosition)
         (Vector3.y targetPosition + CAMERA_LOOK_AT_HEIGHT)
         (Vector3.z targetPosition)),
   inputManager1).

Definition setTarget (targetPosition : Vector3.t) (gc : t) : t :=
  let gc1 := updateCameraPosition targetPosition gc in
  mk (azimuthAngle gc1) (polarAngle gc1) (desiredPosition gc1)
     (desiredPosition gc1) (lookAtPoint gc1).

(** The camera after the updates of a list, each with its delta time, the
    mouse movement reported before it and the target's position. *)
Fixpoint updates (fs : list (R * (R * R) * Vector3.t))
    (inputManager : InputManager.t) (gc : t) : t * InputManager.t :=
  match fs with
  | [] => (gc, inputManager)
  | (deltaTime, movement, targetPosition) :: fs' =>
      let '(gc1, inputManager1) :=
        update deltaTime
          (InputManager.onMouseMove (fst movement) (snd movement)
             inputManager)
          targetPosition gc in
      updates fs' inputManager1 gc1
  end.

End GameCamera.

(** ** Sequences of calls on the secondary motion coordinator *)

Module SecondaryMotionCalls.

(** The calls the coordinator receives, with the model position it reads
    at the time of the call; [Animate] stands for the engine or the
    procedural layer rewriting the pose between two calls. *)
Inductive Call : Type :=
| CallUpdate (deltaTime : R) (modelPosition : Vector3.t)
| CallOnAnimationUpdate
| CallReset (modelPosition : Vector3.t)
| Animate (p : Pose).

Definition call (c : Call) (cp : SecondaryMotionController.t * Pose)
    : SecondaryMotionController.t * Pose :=
  match c with
  | CallUpdate dt position =>
      SecondaryMotionController.update dt position (fst cp) (snd cp)
  | CallOnAnimationUpdate =>
      (SecondaryMotionController.onAnimationUpdate (fst cp) (snd cp), snd cp)
  | CallReset position =>
      SecondaryMotionController.reset position (fst cp) (snd cp)
  | Animate p => (fst cp, p)
  end.

Definition run (cs : list Call) (cp : SecondaryMotionController.t * Pose)
    : SecondaryMotionController.t * Pose :=
  fold_left (fun cp c => call c cp) cs cp.

End SecondaryMotionCalls.

(** [Quaternion.lengthSq] *)
Definition quaternionLengthSq (q : Quaternion.t) : R :=
  Quaternion.x q * Quaternion.x q + Quaternion.y q * Quaternion.y q
  + Quaternion.z q * Quaternion.z q + Quaternion.w q * Quaternion.w q.

(** The configuration and the bound [discoverAndSetupBones] gives a spring
    of each type. *)
Definition typeConfig (ty : SecondaryMotionType) : BoneSpring.Config :=
  match ty with
  | HAIR => SecondaryMotionController.hairConfig
  | CLOTH => SecondaryMotionController.clothConfig
  | UPPER_BODY => SecondaryMotionController.upperBodyConfig
  end.

Definition typeBound (ty : SecondaryMotionType) : R :=
  match ty with
  | HAIR => 0.4
  | CLOTH => 0.5
  | UPPER_BODY => 0.15
  end.

(** A spring at rest: no displacement and no velocity. *)
Definition atRest (s : BoneSpring.t) : Prop :=
  BoneSpring.displacement s = Vector3.zero
  /\ BoneSpring.velocity s = Vector3.zero.

(** The rotation a spring gives its bone: [applyDisplacement] read at the
    spring's own bone. *)
Definition springRotation (s : BoneSpring.t) : Quaternion.t :=
  BoneSpring.applyDisplacement s (fun _ => Quaternion.identity)
    (BoneSpring.bone s).

(** A rotation is a unit quaternion. *)
Definition unitRotation (q : Quaternion.t) : Prop := quaternionLengthSq q = 1.

Definition SecondaryMotionType_eqb (a b : SecondaryMotionType) : bool :=
  match a, b with
  | HAIR, HAIR | CLOTH, CLOTH | UPPER_BODY, UPPER_BODY => true
  | _, _ => false
  end.

(** The bones of a list that [discoverAndSetupBones] gives a type, in the
    order of the list. *)
Definition bonesOfType (ty : SecondaryMotionType) (bones : list Bone)
    : list BoneId :=
  map boneId
    (filter (fun bone =>
               match Construction.classify bone with
               | Some t => SecondaryMotionType_eqb t ty
               | None => false
               end) bones).

(** The seven roles of [findKeyBones], numbered in the order of its tests:
    the bone that holds a role, and the test a lower-cased name passes for
    it. *)
Definition keyBone (i : nat) (kb : AnimationController.KeyBones)
    : option BoneId :=
  match i with
  | 0%nat => AnimationController.spine kb
  | 1%nat => AnimationController.chest kb
  | 2%nat => AnimationController.neck kb
  | 3%nat => AnimationController.head kb
  | 4%nat => AnimationController.leftShoulder kb
  | 5%nat => AnimationController.rightShoulder kb
  | 6%nat => AnimationController.hips kb
  | _ => None
  end.

Definition roleMatches (i : nat) (name : string) : bool :=
  match i with
  | 0%nat => includes name "spine"
  | 1%nat => includes name "chest" || includes name "upperchest"
  | 2%nat => includes name "neck"
  | 3%nat => includes name "head"
  | 4%nat =>
      (includes name "shoulder" || includes name "clavicle")
      && includes name "left"
  | 5%nat =>
      (includes name "shoulder" || includes name "clavicle")
      && includes name "right"
  | 6%nat => includes name "hips" || includes name "pelvis"
  | _ => false
  end.

(** A sample model as a loader would hand it over: a mixer, an idle and a
    walking clip, one skinned mesh whose skeleton holds all the bones. *)
Definition sampleBones : list Bone :=
  [ mkBone 0%nat "Spine"; mkBone 1%nat "Head"; mkBone 2%nat "LeftShoulder";
    mkBone 3%nat "RightShoulder"; mkBone 4%nat "Hair_01";
    mkBone 5%nat "Cape"; mkBone 6%nat "Hips";
    mkBone 7%nat "LeftFoot" ]%string.

Definition sampleModel : Model :=
  mkModel true [("Idle", 0%nat); ("Walking01", 1%nat)]%string
    [sampleBones] sampleBones.

(** The delta times of the mixer advances among some calls, in order. *)
Definition mixerAdvances (l : list Effect) : list R :=
  flat_map (fun e => match e with MixerUpdate dt => [dt] | _ => [] end) l.

(** ** The numbers of the code: binary64

    The spring-damper unit and the kinematics of the coordinator once
    more, on IEEE binary64 numbers with the operations of three.js in the
    order the code applies them ([divideScalar] multiplies by the inverse,
    [length] adds the squares from left to right, [normalize] divides by
    [length() || 1]).  The rotation written to the bone is left out: it
    reads the displacement and changes neither it nor the velocity. *)

From Stdlib Require Floats.
Set Warnings "-inexact-float".

Module Binary64.

Import PrimFloat.
Local Open Scope float_scope.

Definition SPRING_STIFFNESS : float := 15.0.
Definition SPRING_DAMPING : float := 0.8.
Definition MAX_DISPLACEMENT : float := 0.3.
Definition MAX_DELTA_TIME : float := 0.1.
Definition VELOCITY_SCALE : float := 0.5.
Definition ACCELERATION_SCALE : float := 0.3.

(** [v || d] on a number: 0, -0 and NaN are falsy. *)
Definition orNumber (v d : float) : float :=
  if (v =? 0) || is_nan v then d else v.

(** [v || d] on a number that may be missing. *)
Definition orDefault (v : option float) (d : float) : float :=
  match v with
  | Some f => orNumber f d
  | None => d
  end.

Definition clampDeltaTime (deltaTime : float) : float :=
  if (deltaTime <=? 0) || (MAX_DELTA_TIME <? deltaTime) then 0.016
  else deltaTime.

Module Vector3.

Record t : Type := mk { x : float; y : float; z : float }.

Definition zero : t := mk 0 0 0.

Definition add (a b : t) : t := mk (x a + x b) (y a + y b) (z a + z b).

Definition subVectors (a b : t) : t :=
  mk (x a - x b) (y a - y b) (z a - z b).

Definition multiplyScalar (v : t) (s : float) : t :=
  mk (x v * s) (y v * s) (z v * s).

Definition divideScalar (v : t) (s : float) : t := multiplyScalar v (1 / s).

Definition addScaledVector (v w : t) (s : float) : t :=
  mk (x v + x w * s) (y v + y w * s) (z v + z w * s).

Definition length (v : t) : float :=
  sqrt (x v * x v + y v * y v + z v * z v).

Definition normalize (v : t) : t := divideScalar v (orNumber (length v) 1).


End Vector3.

Module BoneSpring.

Record t : Type := mk {
  stiffness : float;
  damping : float;
  maxDisplacement : float;
  velocity : Vector3.t;
  displacement : Vector3.t
}.

Definition new (stiffness damping maxDisplacement : option float) : t :=
  mk (orDefault stiffness SPRING_STIFFNESS)
     (orDefault damping SPRING_DAMPING)
     (orDefault maxDisplacement MAX_DISPLACEMENT)
     Vector3.zero Vector3.zero.

Definition update (deltaTime : float)
    (characterVelocity characterAcceleration : option Vector3.t) (s : t)
    : t :=
  let deltaTime := clampDeltaTime deltaTime in
  let force := Vector3.zero in
  let force :=
    match characterVelocity with
    | Some v => Vector3.addScaledVector force v (- VELOCITY_SCALE)
    | None => force
    end in
  let force :=
    match characterAcceleration with
    | Some a => Vector3.addScaledVector force a (- ACCELERATION_SCALE)
    | None => force
    end in
  let springForce :=
    Vector3.multiplyScalar (displacement s) (- stiffness s) in
  let dampingForce :=
    Vector3.multiplyScalar (velocity s) (- damping s) in
  let force := Vector3.add (Vector3.add force springForce) dampingForce in
  let velocity1 := Vector3.addScaledVector (velocity s) force deltaTime in
  let displacement1 :=
    Vector3.addScaledVector (displacement s) velocity1 deltaTime in
  let displacementMagnitude := Vector3.length displacement1 in
  if maxDisplacement s <? displacementMagnitude then
    mk (stiffness s) (damping s) (maxDisplacement s)
       (Vector3.multiplyScalar velocity1 0.5)
       (Vector3.multiplyScalar (Vector3.normalize displacement1)
          (maxDisplacement s))
  else
    mk (stiffness s) (damping s) (maxDisplacement s) velocity1 displacement1.

(** What the clamp is for: the displacement is no longer than the bound. *)
Definition withinMax (s : t) : bool :=
  Vector3.length (displacement s) <=? maxDisplacement s.

End BoneSpring.

Module SecondaryMotionController.

Record t : Type := mk {
  springs : list BoneSpring.t;
  previousPosition : Vector3.t;
  currentVelocity : Vector3.t;
  currentAcceleration : Vector3.t;
  previousVelocity : Vector3.t
}.

Definition updateCharacterMotion (deltaTime : float)
    (modelPosition : Vector3.t) (c : t) : t :=
  let deltaTime := clampDeltaTime deltaTime in
  let tempVector1 := modelPosition in
  let currentVelocity1 :=
    Vector3.divideScalar
      (Vector3.subVectors tempVector1 (previousPosition c)) deltaTime in
  let currentAcceleration1 :=
    Vector3.divideScalar
      (Vector3.subVectors currentVelocity1 (previousVelocity c))
      deltaTime in
  mk (springs c) tempVector1 currentVelocity1 currentAcceleration1
     currentVelocity1.

Definition update (deltaTime : float) (modelPosition : Vector3.t) (c : t)
    : t :=
  match springs c with
  | [] => c
  | _ :: _ =>
      let c1 := updateCharacterMotion deltaTime modelPosition c in
      mk (map (BoneSpring.update deltaTime (Some (currentVelocity c1))
                 (Some (currentAcceleration c1))) (springs c1))
         (previousPosition c1) (currentVelocity c1)
         (currentAcceleration c1) (previousVelocity c1)
  end.

End SecondaryMotionController.

(** A hair spring as [discoverAndSetupBones] builds it, at rest. *)
Definition hairSpring : BoneSpring.t :=
  BoneSpring.new (Some 12.0) (Some 0.7) (Some 0.4).

(** A frame of 0.016 s, and the delta time 0 of a frame that took no
    time. *)
Definition frameStep : float := 0.016.

(** The character velocity of a frame in which the model was moved by 160
    units along y and z (a respawn or teleport). *)
Definition spikeVelocity : Vector3.t := Vector3.mk 0 10000 10000.

(** A coordinator with that one spring, the model at the origin. *)
Definition hairCoordinator : SecondaryMotionController.t :=
  SecondaryMotionController.mk [hairSpring] Vector3.zero Vector3.zero
    Vector3.zero Vector3.zero.

(** The position of a model that is placed three units up and three units
    forward before the first update: the coordinator starts with the
    origin as previous position. *)
Definition spawnPosition : Vector3.t := Vector3.mk 0 3 3.

(** A model position far from the origin. *)
Definition farPosition : Vector3.t := Vector3.mk 1e306 0 0.

(** The spring of [hairCoordinator] after the coordinator's [update]. *)
Definition springAfter (c : SecondaryMotionController.t) : BoneSpring.t :=
  match SecondaryMotionController.springs c with
  | s :: _ => s
  | [] => hairSpring
  end.

End Binary64.

(** * Properties *)

(** ** Comparisons *)

Lemma leb_R_true (a b : R) : leb_R a b = true <-> a <= b.
Proof.
  unfold leb_R. destruct (Rle_dec a b); split; intros; auto; discriminate.
Qed.

Lemma leb_R_false (a b : R) : leb_R a b = false <-> b < a.
Proof.
  unfold leb_R. destruct (Rle_dec a b); split; intros; auto;
    try discriminate; lra.
Qed.

Lemma ltb_R_true (a b : R) : ltb_R a b = true <-> a < b.
Proof.
  unfold ltb_R. destruct (Rlt_dec a b); split; intros; auto; discriminate.
Qed.

Lemma ltb_R_false (a b : R) : ltb_R a b = false <-> b <= a.
Proof.
  unfold ltb_R. destruct (Rlt_dec a b); split; intros; auto;
    try discriminate; lra.
Qed.

Lemma gtb_R_true (a b : R) : gtb_R a b = true <-> b < a.
Proof. unfold gtb_R. apply ltb_R_true. Qed.

Lemma gtb_R_false (a b : R) : gtb_R a b = false <-> a <= b.
Proof. unfold gtb_R. apply ltb_R_false. Qed.

(** Decide every comparison of a goal whose outcome [lra] can settle. *)
Ltac decide_R :=
  repeat match goal with
  | |- context [leb_R ?a ?b] =>
      first [ replace (leb_R a b) with true
                by (symmetry; apply leb_R_true; lra)
            | replace (leb_R a b) with false
                by (symmetry; apply leb_R_false; lra) ]
  | |- context [ltb_R ?a ?b] =>
      first [ replace (ltb_R a b) with true
                by (symmetry; apply ltb_R_true; lra)
            | replace (ltb_R a b) with false
                by (symmetry; apply ltb_R_false; lra) ]
  | |- context [gtb_R ?a ?b] =>
      first [ replace (gtb_R a b) with true
                by (symmetry; apply gtb_R_true; lra)
            | replace (gtb_R a b) with false
                by (symmetry; apply gtb_R_false; lra) ]
  end.



Lemma clampDeltaTime_range (dt : R) : 0 < clampDeltaTime dt <= 0.1.
Proof.
  unfold clampDeltaTime, MAX_DELTA_TIME.
  destruct (leb_R dt 0) eqn:E1; cbn [orb]; [ lra | ].
  destruct (gtb_R dt 0.1) eqn:E2; [ lra | ].
  apply leb_R_false in E1. apply gtb_R_false in E2. lra.
Qed.

(** ** The spring-damper unit *)

Lemma update_maxDisplacement dt v a s p :
  BoneSpring.maxDisplacement (fst (BoneSpring.update dt v a s p))
  = BoneSpring.maxDisplacement s.
Proof.
  unfold BoneSpring.update. cbv zeta. cbn [fst].
  match goal with |- context [if ?c then _ else _] => destruct c end;
    try match goal with |- context [if ?c then _ else _] => destruct c end;
    reflexivity.
Qed.

Lemma length_zero : Vector3.length Vector3.zero = 0.
Proof.
  unfold Vector3.length, Vector3.zero. cbn.
  replace (0 * 0 + 0 * 0 + 0 * 0) with 0 by ring. apply sqrt_0.
Qed.

(** ** The clamp on the code's numbers *)

(** C1.  The clamp of [BoneSpring.update] does not keep the displacement
    within the bound on the numbers the code computes with.  A hair spring
    at rest (bound 0.4) that receives, in a frame of 0.016 s, the character
    velocity (0, 10000, 10000) is clamped to a displacement whose length is
    above 0.4, and so is the hair spring of a coordinator whose model
    stands at (0, 3, 3) in the first frame; and after a model jump to
    x = 1e306 the coordinator hands the spring an infinite acceleration,
    the clamp multiplies an infinity by zero, and the displacement is NaN,
    which the next update of the spring does not remove: no comparison
    with the bound holds any more. *)
Theorem C1_displacement_exceeds_max :
  PrimFloat.ltb (Binary64.BoneSpring.maxDisplacement Binary64.hairSpring)
    (Binary64.Vector3.length
       (Binary64.BoneSpring.displacement
          (Binary64.BoneSpring.update Binary64.frameStep
             (Some Binary64.spikeVelocity) None Binary64.hairSpring)))
  = true
  /\ Binary64.BoneSpring.withinMax
       (Binary64.BoneSpring.update Binary64.frameStep
          (Some Binary64.spikeVelocity) None Binary64.hairSpring) = false
  /\ Binary64.BoneSpring.withinMax
       (Binary64.springAfter
          (Binary64.SecondaryMotionController.update Binary64.frameStep
             Binary64.spawnPosition Binary64.hairCoordinator)) = false
  /\ PrimFloat.is_infinity
       (Binary64.Vector3.x
          (Binary64.SecondaryMotionController.currentAcceleration
             (Binary64.SecondaryMotionController.update Binary64.frameStep
                Binary64.farPosition Binary64.hairCoordinator))) = true
  /\ PrimFloat.is_nan
       (Binary64.Vector3.x
          (Binary64.BoneSpring.displacement
             (Binary64.springAfter
                (Binary64.SecondaryMotionController.update
                   Binary64.frameStep Binary64.farPosition
                   Binary64.hairCoordinator)))) = true
  /\ Binary64.BoneSpring.withinMax
       (Binary64.springAfter
          (Binary64.SecondaryMotionController.update Binary64.frameStep
             Binary64.farPosition Binary64.hairCoordinator)) = false
  /\ Binary64.BoneSpring.withinMax
       (Binary64.BoneSpring.update Binary64.frameStep
          (Some Binary64.Vector3.zero) (Some Binary64.Vector3.zero)
          (Binary64.springAfter
             (Binary64.SecondaryMotionController.update Binary64.frameStep
                Binary64.farPosition Binary64.hairCoordinator))) = false.
Proof.
  split; [ | split; [ | split; [ | split; [ | split; [ | split ] ] ] ] ].
  - vm_compute. reflexivity.
  - vm_compute. reflexivity.
  - vm_compute. reflexivity.
  - vm_compute. reflexivity.
  - vm_compute. reflexivity.
  - vm_compute. reflexivity.
  - vm_compute. reflexivity.
Qed.

(** ** What a frame leaves untouched *)

Section FramePreservation.

Import AnimationController.

Lemma emitted_app (sc sc' : Scene) (l : list Effect) :
  calls sc' = calls sc ++ l -> emitted sc sc' = l.
Proof.
  intros H. unfold emitted. rewrite H.
  rewrite skipn_app, skipn_all, Nat.sub_diag. reflexivity.
Qed.

Lemma applyProceduralOffsets_keeps speed dt ac sc :
  let r := applyProceduralOffsets speed dt ac sc in
  mixer (fst r) = mixer ac
  /\ animationClips (fst r) = animationClips ac
  /\ currentState (fst r) = currentState ac
  /\ currentAction (fst r) = currentAction ac
  /\ secondaryMotion (fst r) = secondaryMotion ac
  /\ calls (snd r) = calls sc
  /\ position (snd r) = position sc.
Proof.
  unfold applyProceduralOffsets.
  destruct (negb (skeleton ac) || leb_R dt 0 || gtb_R dt 0.1);
    cbn; repeat split; reflexivity.
Qed.

Lemma updateSecondaryMotion_keeps dt ac sc :
  let r := updateSecondaryMotion dt ac sc in
  mixer (fst r) = mixer ac
  /\ animationClips (fst r) = animationClips ac
  /\ currentState (fst r) = currentState ac
  /\ currentAction (fst r) = currentAction ac
  /\ calls (snd r) = calls sc.
Proof.
  unfold updateSecondaryMotion.
  destruct (SecondaryMotionController.hasSecondaryMotion (secondaryMotion ac)).
  - destruct (SecondaryMotionController.update dt (position sc)
                (secondaryMotion ac) (pose sc)) as [sm p].
    cbn. repeat split; reflexivity.
  - cbn. repeat split; reflexivity.
Qed.

(** With a mixer, a frame continues from the animation selection: it adds
    the mixer advance to the calls and nothing else, and keeps the state
    and action the selection chose. *)
Lemma updateFromSpeed_after_selection mixerPose speed dt ac sc ac1 sc1 :
  mixer ac = true ->
  selectAnimation speed ac sc = (ac1, sc1) ->
  let r := updateFromSpeed mixerPose speed dt ac sc in
  currentState (fst r) = currentState ac1
  /\ currentAction (fst r) = currentAction ac1
  /\ calls (snd r) = calls sc1 ++ [MixerUpdate dt].
Proof.
  intros Hm Hsel. unfold updateFromSpeed. rewrite Hm. cbn [negb].
  rewrite Hsel.
  set (sc2 := mixerUpdate mixerPose dt sc1).
  set (ac3 := if SecondaryMotionController.hasSecondaryMotion
                   (secondaryMotion ac1)
              then _ else ac1).
  assert (H3 : currentState ac3 = currentState ac1
               /\ currentAction ac3 = currentAction ac1).
  { unfold ac3.
    destruct (SecondaryMotionController.hasSecondaryMotion
                (secondaryMotion ac1)); cbn; split; reflexivity. }
  destruct H3 as [H3s H3a].
  pose proof (applyProceduralOffsets_keeps speed dt ac3 sc2) as Hp.
  destruct (applyProceduralOffsets speed dt ac3 sc2) as [ac4 sc4].
  cbn [fst snd] in Hp.
  destruct Hp as (_ & _ & Hps & Hpa & _ & Hpc & _).
  pose proof (updateSecondaryMotion_keeps dt ac4 sc4) as Hu.
  cbv zeta in Hu. destruct Hu as (_ & _ & Hus & Hua & Huc).
  cbv zeta. rewrite Hus, Hua, Huc, Hps, Hpa, Hpc, H3s, H3a.
  repeat split; reflexivity.
Qed.

Lemma updateFromSpeed_without_mixer mixerPose speed dt ac sc :
  mixer ac = false ->
  let r := updateFromSpeed mixerPose speed dt ac sc in
  currentState (fst r) = currentState ac
  /\ currentAction (fst r) = currentAction ac
  /\ calls (snd r) = calls sc.
Proof.
  intros Hm. unfold updateFromSpeed. rewrite Hm. cbn [negb].
  pose proof (updateSecondaryMotion_keeps dt ac sc) as Hu.
  cbv zeta in Hu. cbv zeta. tauto.
Qed.

End FramePreservation.

(** ** The locomotion state machine *)

Section Locomotion.

Import AnimationController.

Lemma calls_emit e sc : calls (emit e sc) = calls sc ++ [e].
Proof. reflexivity. Qed.

Lemma AnimationState_eqb_eq a b : AnimationState_eqb a b = true <-> a = b.
Proof. destruct a, b; cbn; split; intros; congruence. Qed.

Lemma Action_eqb_eq a b : Action_eqb a b = true <-> a = b.
Proof.
  destruct a as [c], b as [d]. cbn. rewrite Nat.eqb_eq.
  split; intros; congruence.
Qed.

Lemma targetState_cases speed :
  (speed <= 0.1 -> locomotionTarget speed = (IDLE, 1.0))
  /\ (0.1 < speed <= 4.0 ->
      locomotionTarget speed
      = (WALK, Rmax 0.8 (Rmin 1.3 (speed / 2.0))))
  /\ (4.0 < speed ->
      locomotionTarget speed = (RUN, Rmin 1.5 (speed / 4.0))).
Proof.
  unfold locomotionTarget, WALK_SPEED_THRESHOLD, RUN_SPEED_THRESHOLD,
    MAX_RUN_SPEED_SCALE, MIN_WALK_SPEED_SCALE, MAX_WALK_SPEED_SCALE,
    WALK_SPEED_DIVISOR.
  repeat split; intros H; decide_R; reflexivity.
Qed.

(** The calls [playAnimation] makes, and the state it leaves. *)
Lemma playAnimation_spec c st speed ac sc :
  mixer ac = true ->
  let r := playAnimation (Some c) st speed ac sc in
  let n := clipAction c in
  currentState (fst r) = st
  /\ currentAction (fst r) = Some n
  /\ pose (snd r) = pose sc
  /\ calls (snd r)
     = calls sc
       ++ [SetLoopRepeat n; SetClampWhenFinished n false;
           SetEffectiveTimeScale n speed]
       ++ match currentAction ac with
          | Some cur =>
              if Action_eqb cur n then []
              else [FadeOut cur CROSSFADE_DURATION; ResetAction n;
                    FadeIn n CROSSFADE_DURATION; Play n]
          | None => [ResetAction n; Play n]
          end.
Proof.
  intros Hm. unfold playAnimation. rewrite Hm. cbv zeta.
  cbn [fst snd currentState currentAction setAnimation].
  repeat split.
  - destruct (currentAction ac) as [cur | ];
      [ destruct (Action_eqb cur (clipAction c)) | ]; reflexivity.
  - destruct (currentAction ac) as [cur | ];
      [ destruct (Action_eqb cur (clipAction c)) | ];
      cbn; rewrite <- ?app_assoc; reflexivity.
Qed.

Lemma selectAnimation_state speed ac sc :
  mixer ac = true ->
  targetClip (animationClips ac) (targetState speed) <> None ->
  currentState (fst (selectAnimation speed ac sc)) = targetState speed.
Proof.
  intros Hm Hclip. unfold selectAnimation, targetState in *.
  destruct (locomotionTarget speed) as [st rate]. cbn [fst] in *.
  destruct (AnimationState_eqb (currentState ac) st) eqn:E; cbn [negb].
  - apply AnimationState_eqb_eq in E.
    destruct (currentAction ac); exact E.
  - unfold transitionToState.
    destruct (targetClip (animationClips ac) st) as [c | ]; [ | congruence ].
    apply (playAnimation_spec c st rate ac sc Hm).
Qed.

(** Every playback rate a selection sets is the rate derived from the
    speed, and it is set on the action that is current afterwards. *)
Lemma selectAnimation_rates speed ac sc :
  mixer ac = true ->
  exists l,
    calls (snd (selectAnimation speed ac sc)) = calls sc ++ l
    /\ forall a r, In (SetEffectiveTimeScale a r) l ->
         r = animationSpeed speed
         /\ currentAction (fst (selectAnimation speed ac sc)) = Some a.
Proof.
  intros Hm. unfold selectAnimation, animationSpeed.
  destruct (locomotionTarget speed) as [st rate]. cbn [snd].
  destruct (AnimationState_eqb (currentState ac) st); cbn [negb].
  - destruct (currentAction ac) as [cur | ] eqn:Ecur.
    + exists [SetEffectiveTimeScale cur rate]. split; [ reflexivity | ].
      intros a r [H | []]. inversion H; subst. cbn. auto.
    + exists []. split; [ cbn; now rewrite app_nil_r | ]. intros a r [].
  - unfold transitionToState.
    destruct (targetClip (animationClips ac) st) as [c | ].
    + destruct (playAnimation_spec c st rate ac sc Hm) as (_ & Ha & _ & Hc).
      eexists. split; [ exact Hc | ].
      intros a r Hin. rewrite Ha.
      apply in_app_or in Hin. destruct Hin as [Hin | Hin].
      * cbn in Hin. destruct Hin as [H | [H | [H | []]]];
          inversion H; subst; auto.
      * destruct (currentAction ac) as [cur | ];
          [ destruct (Action_eqb cur (clipAction c)) | ];
          cbn in Hin; intuition discriminate.
    + exists [Warn st]. split; [ reflexivity | ].
      intros a r [H | []]. discriminate.
Qed.

End Locomotion.

(** C2.  The state [updateFromSpeed] aims at depends on the speed alone:
    Idle up to and including 0.1, Walk above 0.1 up to and including 4.0,
    Run above 4.0; and whenever the controller has a mixer and a clip
    resolves for that state, it is the current state after the call. *)
Theorem C2_state_is_function_of_speed :
  forall speed : R,
    (speed <= 0.1 -> AnimationController.targetState speed = IDLE)
    /\ (0.1 < speed <= 4.0 -> AnimationController.targetState speed = WALK)
    /\ (4.0 < speed -> AnimationController.targetState speed = RUN)
    /\ (forall mixerPose dt ac sc,
          AnimationController.mixer ac = true ->
          AnimationController.targetClip
            (AnimationController.animationClips ac)
            (AnimationController.targetState speed) <> None ->
          AnimationController.currentState
            (fst (AnimationController.updateFromSpeed mixerPose speed dt
                    ac sc))
          = AnimationController.targetState speed).
Proof.
  intros speed.
  destruct (targetState_cases speed) as (Hi & Hw & Hr).
  unfold AnimationController.targetState.
  repeat split.
  - intros H. now rewrite (Hi H).
  - intros H. now rewrite (Hw H).
  - intros H. now rewrite (Hr H).
  - intros mixerPose dt ac sc Hm Hclip.
    destruct (AnimationController.selectAnimation speed ac sc)
      as [ac1 sc1] eqn:Hsel.
    destruct (updateFromSpeed_after_selection mixerPose speed dt ac sc
                ac1 sc1 Hm Hsel) as (Hs & _ & _).
    rewrite Hs.
    pose proof (selectAnimation_state speed ac sc Hm Hclip) as H.
    rewrite Hsel in H. exact H.
Qed.

Lemma C2_state_is_function_of_speed_witness :
  AnimationController.targetState 0.1 = IDLE
  /\ AnimationController.targetState 4.0 = WALK
  /\ AnimationController.targetState 4.5 = RUN
  /\ AnimationController.currentState
       (fst (AnimationController.updateFromSpeed stillMixer 4.5 (1 / 60)
               riggedController sampleScene)) = RUN.
Proof.
  assert (Hrun : AnimationController.targetState 4.5 = RUN)
    by (apply (C2_state_is_function_of_speed 4.5); lra).
  split; [ apply (C2_state_is_function_of_speed 0.1); lra | ].
  split; [ apply (C2_state_is_function_of_speed 4.0); lra | ].
  split; [ exact Hrun | ].
  rewrite <- Hrun.
  apply (C2_state_is_function_of_speed 4.5).
  - reflexivity.
  - rewrite Hrun. cbn. discriminate.
Defined.

Lemma clamp_walk_range (x : R) : 0.8 <= Rmax 0.8 (Rmin 1.3 x) <= 1.3.
Proof.
  unfold Rmax, Rmin.
  destruct (Rle_dec 1.3 x); destruct (Rle_dec 0.8 _); lra.
Qed.

Lemma min_run_range (speed : R) :
  4.0 < speed -> 0 < Rmin 1.5 (speed / 4.0) <= 1.5.
Proof.
  intros H. unfold Rmin. destruct (Rle_dec 1.5 (speed / 4.0)); lra.
Qed.

(** The rate is set in every frame that ends in the state of the speed:
    by the transition when the state changes, on the current action when
    it does not. *)
Lemma updateFromSpeed_sets_rate mixerPose speed dt ac sc a :
  AnimationController.mixer ac = true ->
  AnimationController.currentState
    (fst (AnimationController.updateFromSpeed mixerPose speed dt ac sc))
  = AnimationController.targetState speed ->
  AnimationController.currentAction
    (fst (AnimationController.updateFromSpeed mixerPose speed dt ac sc))
  = Some a ->
  In (SetEffectiveTimeScale a (AnimationController.animationSpeed speed))
     (emitted sc
        (snd (AnimationController.updateFromSpeed mixerPose speed dt ac
                sc))).
Proof.
  intros Hm.
  destruct (AnimationController.selectAnimation speed ac sc)
    as [ac1 sc1] eqn:Hsel.
  destruct (updateFromSpeed_after_selection mixerPose speed dt ac sc ac1 sc1
              Hm Hsel) as (Hs & Ha & Hc).
  rewrite Hs, Ha. clear Hs Ha. intros Hst Hact.
  assert (Hl : exists l,
             calls sc1 = calls sc ++ l
             /\ In (SetEffectiveTimeScale a
                      (AnimationController.animationSpeed speed)) l).
  { revert Hsel Hst Hact.
    unfold AnimationController.selectAnimation,
      AnimationController.targetState, AnimationController.animationSpeed.
    destruct (AnimationController.locomotionTarget speed) as [st rate].
    cbn [fst snd].
    destruct (AnimationState_eqb (AnimationController.currentState ac) st)
      eqn:E; cbn [negb].
    - destruct (AnimationController.currentAction ac) as [cur | ] eqn:Ecur;
        intros Hsel Hst Hact; inversion Hsel; subst ac1 sc1; clear Hsel.
      + rewrite Ecur in Hact. inversion Hact; subst.
        exists [SetEffectiveTimeScale a rate]. split; [ reflexivity | ].
        now left.
      + rewrite Ecur in Hact. discriminate.
    - unfold AnimationController.transitionToState.
      destruct (AnimationController.targetClip
                  (AnimationController.animationClips ac) st) as [c | ].
      + intros Hsel Hst Hact.
        destruct (playAnimation_spec c st rate ac sc Hm)
          as (_ & Ha & _ & Hcalls).
        rewrite Hsel in Ha, Hcalls. cbn [fst snd] in Ha, Hcalls.
        rewrite Ha in Hact. inversion Hact; subst a.
        eexists. split; [ exact Hcalls | ].
        apply in_or_app. left. right. right. now left.
      + intros Hsel Hst Hact. inversion Hsel; subst ac1 sc1.
        apply (proj2 (AnimationState_eqb_eq _ _)) in Hst. congruence. }
  destruct Hl as (l & Hl & Hin).
  rewrite Hl, <- app_assoc in Hc.
  rewrite (emitted_app _ _ _ Hc). apply in_or_app. now left.
Qed.

(** C5.  The playback rate derived from the speed is
    clamp(speed / 2.0, 0.8, 1.3), within [0.8, 1.3], when the target state
    is Walk; min(1.5, speed / 4.0), within (0, 1.5], when it is Run; 1.0
    when it is Idle; every time scale [updateFromSpeed] sets in a frame
    is that rate, set on the action that is current after the frame; and
    the rate is set in every frame: whenever a controller with a mixer
    ends a frame in the state of the speed with an action current,
    [updateFromSpeed] has set that action's time scale to that rate in
    that frame. *)
Theorem C5_playback_rate :
  forall speed : R,
    (AnimationController.targetState speed = WALK ->
       AnimationController.animationSpeed speed
       = MathUtils.clamp (speed / 2.0) 0.8 1.3
       /\ 0.8 <= AnimationController.animationSpeed speed <= 1.3)
    /\ (AnimationController.targetState speed = RUN ->
          AnimationController.animationSpeed speed
          = Rmin 1.5 (speed / 4.0)
          /\ 0 < AnimationController.animationSpeed speed <= 1.5)
    /\ (AnimationController.targetState speed = IDLE ->
          AnimationController.animationSpeed speed = 1.0)
    /\ (forall mixerPose dt ac sc a r,
          In (SetEffectiveTimeScale a r)
             (emitted sc
                (snd (AnimationController.updateFromSpeed mixerPose speed dt
                        ac sc))) ->
          r = AnimationController.animationSpeed speed
          /\ AnimationController.currentAction
               (fst (AnimationController.updateFromSpeed mixerPose speed dt
                       ac sc)) = Some a)
    /\ (forall mixerPose dt ac sc a,
          AnimationController.mixer ac = true ->
          AnimationController.currentState
            (fst (AnimationController.updateFromSpeed mixerPose speed dt
                    ac sc))
          = AnimationController.targetState speed ->
          AnimationController.currentAction
            (fst (AnimationController.updateFromSpeed mixerPose speed dt
                    ac sc)) = Some a ->
          In (SetEffectiveTimeScale a
                (AnimationController.animationSpeed speed))
             (emitted sc
                (snd (AnimationController.updateFromSpeed mixerPose speed dt
                        ac sc)))).
Proof.
  intros speed.
  split; [ | split; [ | split; [ | split ] ] ];
    [ | | | | intros mixerPose dt ac sc a Hm Hst Hact;
              exact (updateFromSpeed_sets_rate mixerPose speed dt ac sc a
                       Hm Hst Hact) ].
  all: destruct (targetState_cases speed) as (Hi & Hw & Hr).
  all: unfold AnimationController.targetState,
         AnimationController.animationSpeed, MathUtils.clamp.
  - destruct (Rle_dec speed 0.1) as [L | L];
      [ rewrite (Hi L); cbn; discriminate | ].
    destruct (Rle_dec speed 4.0) as [M | M].
    + rewrite Hw by lra. cbn [fst snd]. intros _.
      split; [ reflexivity | apply clamp_walk_range ].
    + rewrite Hr by lra. cbn; discriminate.
  - destruct (Rle_dec speed 0.1) as [L | L];
      [ rewrite (Hi L); cbn; discriminate | ].
    destruct (Rle_dec speed 4.0) as [M | M].
    + rewrite Hw by lra. cbn; discriminate.
    + rewrite Hr by lra. cbn [fst snd]. intros _.
      split; [ reflexivity | apply min_run_range; lra ].
  - destruct (Rle_dec speed 0.1) as [L | L];
      [ rewrite (Hi L); reflexivity | ].
    destruct (Rle_dec speed 4.0) as [M | M].
    + rewrite Hw by lra. cbn; discriminate.
    + rewrite Hr by lra. cbn; discriminate.
  - intros mixerPose dt ac sc a r Hin.
    fold (AnimationController.animationSpeed speed).
    destruct (AnimationController.mixer ac) eqn:Hm.
    + destruct (AnimationController.selectAnimation speed ac sc)
        as [ac1 sc1] eqn:Hsel.
      destruct (updateFromSpeed_after_selection mixerPose speed dt ac sc
                  ac1 sc1 Hm Hsel) as (_ & Ha & Hc).
      destruct (selectAnimation_rates speed ac sc Hm) as (l & Hl & Hrate).
      rewrite Hsel in Hl, Hrate. cbn [fst snd] in Hl, Hrate.
      rewrite Hl, <- app_assoc in Hc.
      rewrite (emitted_app _ _ _ Hc) in Hin.
      apply in_app_or in Hin. destruct Hin as [Hin | [Hin | []]];
        [ | discriminate ].
      rewrite Ha. apply Hrate. exact Hin.
    + destruct (updateFromSpeed_without_mixer mixerPose speed dt ac sc Hm)
        as (_ & _ & Hc).
      rewrite <- (app_nil_r (calls sc)) in Hc.
      rewrite (emitted_app _ _ _ Hc) in Hin. destruct Hin.
Qed.

Lemma targetState_walk (speed : R) :
  0.1 < speed <= 4.0 ->
  AnimationController.locomotionTarget speed
  = (WALK, Rmax 0.8 (Rmin 1.3 (speed / 2.0))).
Proof. apply targetState_cases. Qed.

Lemma targetState_run (speed : R) :
  4.0 < speed ->
  AnimationController.locomotionTarget speed
  = (RUN, Rmin 1.5 (speed / 4.0)).
Proof. apply targetState_cases. Qed.

Lemma targetState_idle (speed : R) :
  speed <= 0.1 -> AnimationController.locomotionTarget speed = (IDLE, 1.0).
Proof. apply targetState_cases. Qed.

(** A frame of the rigged sample model at walking speed: the calls it
    makes. *)
Lemma rigged_walk_frame_calls :
  calls (snd (AnimationController.updateFromSpeed stillMixer 2 (1 / 60)
                riggedController sampleScene))
  = [ SetLoopRepeat (clipAction 1%nat);
      SetClampWhenFinished (clipAction 1%nat) false;
      SetEffectiveTimeScale (clipAction 1%nat)
        (AnimationController.animationSpeed 2);
      FadeOut (clipAction 0%nat) CROSSFADE_DURATION;
      ResetAction (clipAction 1%nat);
      FadeIn (clipAction 1%nat) CROSSFADE_DURATION;
      Play (clipAction 1%nat);
      MixerUpdate (1 / 60) ].
Proof.
  destruct (AnimationController.selectAnimation 2 riggedController
              sampleScene) as [ac1 sc1] eqn:Hsel.
  destruct (updateFromSpeed_after_selection stillMixer 2 (1 / 60)
              riggedController sampleScene ac1 sc1 eq_refl Hsel)
    as (_ & _ & Hc).
  rewrite Hc.
  unfold AnimationController.selectAnimation,
    AnimationController.animationSpeed in *.
  rewrite (targetState_walk 2) in * by lra.
  cbn in Hsel. inversion Hsel; subst. reflexivity.
Qed.

(** The sample model standing still in its idle state: a steady-state
    frame keeps the state and the action. *)
Lemma rigged_idle_frame_state :
  AnimationController.currentState
    (fst (AnimationController.updateFromSpeed stillMixer 0 (1 / 60)
            riggedController sampleScene))
  = AnimationController.targetState 0.
Proof.
  destruct (AnimationController.selectAnimation 0 riggedController
              sampleScene) as [ac1 sc1] eqn:Hsel.
  destruct (updateFromSpeed_after_selection stillMixer 0 (1 / 60)
              riggedController sampleScene ac1 sc1 eq_refl Hsel)
    as (Hs & _ & _).
  rewrite Hs.
  unfold AnimationController.selectAnimation,
    AnimationController.targetState in *.
  rewrite (targetState_idle 0) in * by lra.
  cbn in Hsel. inversion Hsel; subst. reflexivity.
Qed.

Lemma rigged_idle_frame_action :
  AnimationController.currentAction
    (fst (AnimationController.updateFromSpeed stillMixer 0 (1 / 60)
            riggedController sampleScene))
  = Some (clipAction 0%nat).
Proof.
  destruct (AnimationController.selectAnimation 0 riggedController
              sampleScene) as [ac1 sc1] eqn:Hsel.
  destruct (updateFromSpeed_after_selection stillMixer 0 (1 / 60)
              riggedController sampleScene ac1 sc1 eq_refl Hsel)
    as (_ & Ha & _).
  rewrite Ha.
  unfold AnimationController.selectAnimation in *.
  rewrite (targetState_idle 0) in * by lra.
  cbn in Hsel. inversion Hsel; subst. reflexivity.
Qed.

Lemma C5_playback_rate_witness :
  (AnimationController.animationSpeed 2 = MathUtils.clamp (2 / 2.0) 0.8 1.3
   /\ 0.8 <= AnimationController.animationSpeed 2 <= 1.3)
  /\ (AnimationController.animationSpeed 5 = Rmin 1.5 (5 / 4.0)
      /\ 0 < AnimationController.animationSpeed 5 <= 1.5)
  /\ AnimationController.animationSpeed 0 = 1.0
  /\ (AnimationController.animationSpeed 2
      = AnimationController.animationSpeed 2
      /\ AnimationController.currentAction
           (fst (AnimationController.updateFromSpeed stillMixer 2 (1 / 60)
                   riggedController sampleScene))
         = Some (clipAction 1%nat))
  /\ In (SetEffectiveTimeScale (clipAction 0%nat)
           (AnimationController.animationSpeed 0))
       (emitted sampleScene
          (snd (AnimationController.updateFromSpeed stillMixer 0 (1 / 60)
                  riggedController sampleScene))).
Proof.
  split; [ | split; [ | split; [ | split ] ] ].
  - apply (C5_playback_rate 2).
    unfold AnimationController.targetState.
    rewrite targetState_walk by lra. reflexivity.
  - apply (C5_playback_rate 5).
    unfold AnimationController.targetState.
    rewrite targetState_run by lra. reflexivity.
  - apply (C5_playback_rate 0).
    unfold AnimationController.targetState.
    rewrite targetState_idle by lra. reflexivity.
  - apply (C5_playback_rate 2).
    unfold emitted. rewrite rigged_walk_frame_calls.
    cbn. right. right. left. reflexivity.
  - apply (C5_playback_rate 0).
    + reflexivity.
    + exact rigged_idle_frame_state.
    + exact rigged_idle_frame_action.
Defined.

(** C8.  A transition requested to the state that is already current, and
    that resolves to the action already playing, fades nothing: the calls
    it makes are the three configuration calls on that action (loop mode,
    clamp flag, time scale), none of them a fadeOut, reset, fadeIn or play,
    and the current action, the current state and the pose stay as they
    were. *)
Theorem C8_transition_to_current_is_noop :
  forall (ac : AnimationController.t) (sc : Scene) (speed : R) (c : Clip),
    AnimationController.mixer ac = true ->
    AnimationController.targetClip (AnimationController.animationClips ac)
      (AnimationController.currentState ac) = Some c ->
    AnimationController.currentAction ac = Some (clipAction c) ->
    let r :=
      AnimationController.transitionToState
        (AnimationController.currentState ac) speed ac sc in
    emitted sc (snd r)
    = [ SetLoopRepeat (clipAction c);
        SetClampWhenFinished (clipAction c) false;
        SetEffectiveTimeScale (clipAction c) speed ]
    /\ Forall (fun e => startsFade e = false) (emitted sc (snd r))
    /\ AnimationController.currentAction (fst r)
       = AnimationController.currentAction ac
    /\ AnimationController.currentState (fst r)
       = AnimationController.currentState ac
    /\ pose (snd r) = pose sc.
Proof.
  intros ac sc speed c Hm Hclip Hcur r.
  unfold r, AnimationController.transitionToState. rewrite Hclip.
  destruct (playAnimation_spec c (AnimationController.currentState ac) speed
              ac sc Hm) as (Hs & Ha & Hp & Hc).
  rewrite Hcur in Hc.
  replace (Action_eqb (clipAction c) (clipAction c)) with true in Hc
    by (symmetry; now apply Action_eqb_eq).
  rewrite app_nil_r in Hc.
  rewrite (emitted_app _ _ _ Hc).
  repeat split.
  - repeat constructor.
  - rewrite Ha, Hcur. reflexivity.
  - exact Hs.
  - exact Hp.
Qed.

Lemma C8_transition_to_current_is_noop_witness :
  emitted sampleScene
    (snd (AnimationController.transitionToState IDLE 1 riggedController
            sampleScene))
  = [ SetLoopRepeat (clipAction 0%nat);
      SetClampWhenFinished (clipAction 0%nat) false;
      SetEffectiveTimeScale (clipAction 0%nat) 1 ]
  /\ Forall (fun e => startsFade e = false)
       (emitted sampleScene
          (snd (AnimationController.transitionToState IDLE 1
                  riggedController sampleScene)))
  /\ AnimationController.currentAction
       (fst (AnimationController.transitionToState IDLE 1 riggedController
               sampleScene)) = Some (clipAction 0%nat)
  /\ AnimationController.currentState
       (fst (AnimationController.transitionToState IDLE 1 riggedController
               sampleScene)) = IDLE
  /\ pose (snd (AnimationController.transitionToState IDLE 1
                  riggedController sampleScene)) = restPose.
Proof.
  apply (C8_transition_to_current_is_noop riggedController sampleScene 1
           0%nat); reflexivity.
Defined.

(** ** Transitions for which no clip resolves *)

Section MissingClips.

Import AnimationController.

Lemma selectAnimation_keeps_setup speed ac sc :
  mixer (fst (selectAnimation speed ac sc)) = mixer ac
  /\ animationClips (fst (selectAnimation speed ac sc)) = animationClips ac.
Proof.
  unfold selectAnimation.
  destruct (locomotionTarget speed) as [st rate].
  destruct (negb (AnimationState_eqb (currentState ac) st)).
  - unfold transitionToState.
    destruct (targetClip (animationClips ac) st) as [c | ];
      [ | split; reflexivity ].
    unfold playAnimation. destruct (mixer ac) eqn:Hm; cbn; auto.
  - destruct (currentAction ac); split; reflexivity.
Qed.

Lemma updateFromSpeed_keeps_setup mixerPose speed dt ac sc :
  let r := updateFromSpeed mixerPose speed dt ac sc in
  mixer (fst r) = mixer ac /\ animationClips (fst r) = animationClips ac.
Proof.
  unfold updateFromSpeed.
  destruct (mixer ac) eqn:Hm; cbn [negb].
  - pose proof (selectAnimation_keeps_setup speed ac sc) as Hsel.
    destruct (selectAnimation speed ac sc) as [ac1 sc1]. cbn [fst] in Hsel.
    set (sc2 := mixerUpdate mixerPose dt sc1).
    set (ac3 := if SecondaryMotionController.hasSecondaryMotion
                     (secondaryMotion ac1)
                then _ else ac1).
    assert (H3 : mixer ac3 = mixer ac1
                 /\ animationClips ac3 = animationClips ac1).
    { unfold ac3.
      destruct (SecondaryMotionController.hasSecondaryMotion
                  (secondaryMotion ac1)); split; reflexivity. }
    pose proof (applyProceduralOffsets_keeps speed dt ac3 sc2) as Hp.
    destruct (applyProceduralOffsets speed dt ac3 sc2) as [ac4 sc4].
    cbn [fst snd] in Hp. destruct Hp as (Hpm & Hpc & _).
    pose proof (updateSecondaryMotion_keeps dt ac4 sc4) as Hu.
    cbv zeta in Hu. destruct Hu as (Hum & Huc & _).
    cbv zeta. rewrite Hum, Huc, Hpm, Hpc.
    destruct H3 as [-> ->]. destruct Hsel as [-> ->].
    split; [ exact Hm | reflexivity ].
  - pose proof (updateSecondaryMotion_keeps dt ac sc) as Hu.
    cbv zeta in Hu. destruct Hu as (Hum & Huc & _).
    cbv zeta. rewrite Hum, Huc. split; [ exact Hm | reflexivity ].
Qed.

(** One frame whose target state has no clip: the state machine stays
    where it was, and the frame's calls are the diagnostic of the failed
    attempt and the mixer advance. *)
Lemma updateFromSpeed_unresolved mixerPose speed dt ac sc :
  mixer ac = true ->
  currentState ac <> targetState speed ->
  targetClip (animationClips ac) (targetState speed) = None ->
  let r := updateFromSpeed mixerPose speed dt ac sc in
  currentState (fst r) = currentState ac
  /\ currentAction (fst r) = currentAction ac
  /\ calls (snd r) = calls sc ++ [Warn (targetState speed); MixerUpdate dt].
Proof.
  intros Hm Hne Hclip.
  assert (Hsel : selectAnimation speed ac sc
                 = (ac, emit (Warn (targetState speed)) sc)).
  { unfold selectAnimation, targetState in *.
    destruct (locomotionTarget speed) as [st rate]. cbn [fst] in *.
    destruct (AnimationState_eqb (currentState ac) st) eqn:E.
    - apply AnimationState_eqb_eq in E. contradiction.
    - cbn [negb]. unfold transitionToState. rewrite Hclip. reflexivity. }
  destruct (updateFromSpeed_after_selection mixerPose speed dt ac sc _ _
              Hm Hsel) as (Hs & Ha & Hc).
  cbv zeta. rewrite Hs, Ha, Hc, calls_emit, <- app_assoc.
  repeat split; reflexivity.
Qed.

Lemma frames_unresolved mixerPose st fs : forall ac sc,
  mixer ac = true ->
  currentState ac <> st ->
  targetClip (animationClips ac) st = None ->
  Forall (fun f => targetState (fst f) = st) fs ->
  let r := frames mixerPose fs ac sc in
  currentState (fst r) = currentState ac
  /\ currentAction (fst r) = currentAction ac
  /\ calls (snd r)
     = calls sc ++ flat_map (fun f => [Warn st; MixerUpdate (snd f)]) fs.
Proof.
  induction fs as [ | [speed dt] fs IH]; intros ac sc Hm Hne Hclip Hfs.
  - cbn. rewrite app_nil_r. repeat split; reflexivity.
  - apply Forall_cons_iff in Hfs. destruct Hfs as [Hf Hfs'].
    cbn [fst] in Hf.
    cbn [frames].
    pose proof (updateFromSpeed_keeps_setup mixerPose speed dt ac sc) as Hk.
    pose proof (updateFromSpeed_unresolved mixerPose speed dt ac sc) as Hu.
    rewrite Hf in Hu. specialize (Hu Hm Hne Hclip).
    destruct (updateFromSpeed mixerPose speed dt ac sc) as [ac1 sc1].
    cbn [fst snd] in Hk, Hu.
    destruct Hk as [Hkm Hkc]. destruct Hu as (Hus & Hua & Huc).
    assert (Hm1 : mixer ac1 = true) by congruence.
    assert (Hne1 : currentState ac1 <> st) by congruence.
    assert (Hclip1 : targetClip (animationClips ac1) st = None)
      by congruence.
    destruct (IH ac1 sc1 Hm1 Hne1 Hclip1 Hfs') as (Hs & Ha & Hc).
    cbv zeta. rewrite Hs, Ha, Hc, Hus, Hua, Huc.
    cbn [flat_map snd]. rewrite <- app_assoc.
    repeat split; reflexivity.
Qed.

End MissingClips.

(** C10.  When neither the clip of a target state nor any clip of its
    fallback chain is there, the transition changes nothing in the
    controller and only reports the missing animation; so over any run of
    frames whose speed asks for that state, the current state and action
    stay what they were (Idle, say, while the speed stays above the run
    threshold), and every frame makes the attempt again. *)
Theorem C10_unresolved_transition_keeps_state :
  forall (st : AnimationState) (ac : AnimationController.t),
    AnimationController.targetClip (AnimationController.animationClips ac) st
    = None ->
    (forall speed sc,
        AnimationController.transitionToState st speed ac sc
        = (ac, emit (Warn st) sc))
    /\ (forall mixerPose (fs : list (R * R)) sc,
          AnimationController.mixer ac = true ->
          AnimationController.currentState ac <> st ->
          Forall (fun f => AnimationController.targetState (fst f) = st) fs ->
          let r := AnimationController.frames mixerPose fs ac sc in
          AnimationController.currentState (fst r)
          = AnimationController.currentState ac
          /\ AnimationController.currentAction (fst r)
             = AnimationController.currentAction ac
          /\ calls (snd r)
             = calls sc
               ++ flat_map (fun f => [Warn st; MixerUpdate (snd f)]) fs).
Proof.
  intros st ac Hclip. split.
  - intros speed sc. unfold AnimationController.transitionToState.
    rewrite Hclip. reflexivity.
  - intros mixerPose fs sc Hm Hne Hfs.
    now apply frames_unresolved.
Qed.

Lemma C10_unresolved_transition_keeps_state_witness :
  AnimationController.transitionToState RUN 1.25 cliplessController
    sampleScene
  = (cliplessController, emit (Warn RUN) sampleScene)
  /\ AnimationController.currentState
       (fst (AnimationController.frames stillMixer
               [(4.5, 1 / 60); (5, 1 / 60); (5, 0.02)]
               cliplessController sampleScene)) = IDLE
  /\ AnimationController.currentAction
       (fst (AnimationController.frames stillMixer
               [(4.5, 1 / 60); (5, 1 / 60); (5, 0.02)]
               cliplessController sampleScene)) = Some (clipAction 7%nat)
  /\ calls
       (snd (AnimationController.frames stillMixer
               [(4.5, 1 / 60); (5, 1 / 60); (5, 0.02)]
               cliplessController sampleScene))
     = [ Warn RUN; MixerUpdate (1 / 60); Warn RUN; MixerUpdate (1 / 60);
         Warn RUN; MixerUpdate 0.02 ].
Proof.
  destruct (C10_unresolved_transition_keeps_state RUN cliplessController
              eq_refl) as [Htrans Hframes].
  split; [ apply Htrans | ].
  apply (Hframes stillMixer [(4.5, 1 / 60); (5, 1 / 60); (5, 0.02)]
           sampleScene).
  - reflexivity.
  - discriminate.
  - unfold AnimationController.targetState.
    repeat constructor; cbn [fst]; rewrite targetState_run by lra;
      reflexivity.
Defined.

(** ** The character motion integrator *)

Section WalkingSpeed.

Import CharacterController.

Variable mixerPose : list Effect -> Pose -> Pose.

Lemma Rabs_1_moving : gtb_R (Rabs 1) 0.01 = true.
Proof. rewrite Rabs_R1. apply gtb_R_true. lra. Qed.

(** A frame with the input (1, 0) and sprint off moves the speed toward the
    walk speed by the factor [MOVEMENT_ACCELERATION * deltaTime]. *)
Lemma update_walking_speed dt cam cc sc :
  currentSpeed (fst (update mixerPose dt (mkInput 1 0 false cam) cc sc))
  = MathUtils.lerp (currentSpeed cc) WALK_SPEED (MOVEMENT_ACCELERATION * dt).
Proof.
  unfold update. cbn [input_x input_z isSprinting cameraWorldDirection].
  rewrite Rabs_1_moving. cbn [orb].
  cbv zeta. cbn [currentSpeed animationController].
  match goal with
  | |- context [AnimationController.updateFromSpeed ?m ?s ?d ?a ?c] =>
      destruct (AnimationController.updateFromSpeed m s d a c) as [ac sc2]
  end.
  reflexivity.
Qed.

Lemma lerp_walking_step (s : R) :
  MathUtils.lerp s WALK_SPEED (MOVEMENT_ACCELERATION * (1 / 60))
  = 13 / 15 * s + 4 / 15.
Proof. unfold MathUtils.lerp, WALK_SPEED, MOVEMENT_ACCELERATION. lra. Qed.

(** The speed after [n] walking frames, in closed form. *)
Lemma frames_walking_speed cam n : forall k cc sc,
  currentSpeed
    (fst (frames mixerPose
            (map (fun i => (1 / 60, mkInput 1 0 false (cam i))) (seq k n))
            cc sc))
  = 2 - (2 - currentSpeed cc) * (13 / 15) ^ n.
Proof.
  induction n as [ | n IH]; intros k cc sc.
  - cbn [seq map frames fst pow]. ring.
  - cbn [seq map frames].
    pose proof (update_walking_speed (1 / 60) (cam k) cc sc) as Hu.
    destruct (update mixerPose (1 / 60) (mkInput 1 0 false (cam k)) cc sc)
      as [cc1 sc1].
    cbn [fst] in Hu. rewrite IH, Hu, lerp_walking_step.
    cbn [pow]. field.
Qed.

Lemma walkingSpeed_closed_form cam ac sc n :
  walkingSpeed mixerPose cam ac sc n = 2 - 2 * (13 / 15) ^ n.
Proof.
  unfold walkingSpeed, walkingFrames. rewrite frames_walking_speed.
  cbn [new currentSpeed]. field.
Qed.

End WalkingSpeed.

(** C9.  With the input direction (1, 0) held, sprint off, a controller
    that starts at speed 0 and frames of 1/60 s, the speed after [n] frames
    is [2 - 2 * (13/15)^n]: the sequence never decreases, converges to the
    walk speed 2.0 and stays at or below it at every frame. *)
Theorem C9_walking_speed_converges :
  forall (mixerPose : list Effect -> Pose -> Pose)
         (camera : nat -> Vector3.t) (ac : AnimationController.t)
         (sc : Scene),
    (forall n,
        CharacterController.walkingSpeed mixerPose camera ac sc n
        <= CharacterController.walkingSpeed mixerPose camera ac sc (S n))
    /\ Un_cv (CharacterController.walkingSpeed mixerPose camera ac sc)
         WALK_SPEED
    /\ (forall n,
          CharacterController.walkingSpeed mixerPose camera ac sc n
          <= WALK_SPEED)
    /\ CharacterController.walkingSpeed mixerPose camera ac sc 0 = 0.
Proof.
  intros mixerPose camera ac sc.
  assert (Hpos : forall n, 0 < (13 / 15) ^ n) by (intros n; apply pow_lt; lra).
  split; [ | split; [ | split ] ].
  - intros n. rewrite !walkingSpeed_closed_form. cbn [pow].
    specialize (Hpos n). lra.
  - unfold Un_cv, R_dist, WALK_SPEED. intros eps Heps.
    destruct (pow_lt_1_zero (13 / 15)) with (y := eps / 2) as [N HN].
    + rewrite Rabs_right; lra.
    + lra.
    + exists N. intros n Hn. rewrite walkingSpeed_closed_form.
      specialize (HN n Hn). specialize (Hpos n).
      rewrite Rabs_right in HN by lra.
      rewrite Rabs_left; lra.
  - intros n. rewrite walkingSpeed_closed_form. unfold WALK_SPEED.
    specialize (Hpos n). lra.
  - rewrite walkingSpeed_closed_form. cbn [pow]. field.
Qed.

(** ** Heading *)

Lemma trunc_small (q : R) : -1 < q < 1 -> MathUtils.trunc q = 0%Z.
Proof.
  intros Hq. unfold MathUtils.trunc.
  destruct (Rle_dec 0 q) as [H | H].
  - symmetry. apply Int_part_spec. cbn. lra.
  - replace (Int_part (- q)) with 0%Z; [ reflexivity | ].
    apply Int_part_spec. cbn. lra.
Qed.

Lemma PI_bounds : 3 < PI <= 4.
Proof. pose proof PI2_3_2. pose proof PI_4. lra. Qed.

(** A remainder whose dividend is already below the divisor in magnitude is
    the dividend itself, negative ones included. *)
Lemma rem_small (a b : R) : 0 < b -> - b < a < b -> MathUtils.rem a b = a.
Proof.
  intros Hb Ha. unfold MathUtils.rem.
  rewrite trunc_small; [ cbn; ring | ].
  split.
  - apply Rmult_lt_reg_r with b; [ exact Hb | ].
    unfold Rdiv. rewrite Rmult_assoc, Rinv_l by lra. lra.
  - apply Rmult_lt_reg_r with b; [ exact Hb | ].
    unfold Rdiv. rewrite Rmult_assoc, Rinv_l by lra. lra.
Qed.

(** A heading error below -PI comes back from [shortestAngle] as it went
    in. *)
Lemma shortestAngle_below (current target : R) :
  - 3 * PI < target - current < - PI ->
  CharacterController.shortestAngle current target = target - current.
Proof.
  intros H. pose proof PI_bounds as HPI.
  unfold CharacterController.shortestAngle. cbv zeta.
  rewrite rem_small.
  - ring.
  - lra.
  - split; lra.
Qed.


(** C6.  The heading error is not always reduced before the turn: from the
    heading 3 rad toward the target heading -2 rad, [shortestAngle] returns
    -5, which lies below -PI (the error reduced to (-PI, PI] would be
    2 PI - 5). *)
Theorem C6_heading_error_not_reduced :
  CharacterController.shortestAngle 3 (-2) = -5
  /\ ~ (- PI < CharacterController.shortestAngle 3 (-2) <= PI).
Proof.
  pose proof PI_bounds as HPI.
  assert (H : CharacterController.shortestAngle 3 (-2) = -5).
  { rewrite shortestAngle_below; lra. }
  split; [ exact H | ].
  rewrite H. lra.
Qed.

(** ** Time steps outside (0, 0.1] *)







(** ** The procedural offset layer *)

Lemma setFromEuler_Y (angle : R) :
  Quaternion.setFromEuler 0 angle 0
  = Quaternion.setFromAxisAngle (Vector3.mk 0 1 0) angle.
Proof.
  unfold Quaternion.setFromEuler, Quaternion.setFromAxisAngle.
  cbv zeta. cbn [Vector3.x Vector3.y Vector3.z].
  replace (0 / 2) with 0 by lra. rewrite sin_0, cos_0.
  f_equal; ring.
Qed.

Lemma setFromEuler_Z (angle : R) :
  Quaternion.setFromEuler 0 0 angle
  = Quaternion.setFromAxisAngle (Vector3.mk 0 0 1) angle.
Proof.
  unfold Quaternion.setFromEuler, Quaternion.setFromAxisAngle.
  cbv zeta. cbn [Vector3.x Vector3.y Vector3.z].
  replace (0 / 2) with 0 by lra. rewrite sin_0, cos_0.
  f_equal; ring.
Qed.

Lemma setQuaternion_same p b q : setQuaternion p b q b = q.
Proof. unfold setQuaternion. now rewrite Nat.eqb_refl. Qed.

Lemma setQuaternion_other p b q b' :
  b' <> b -> setQuaternion p b q b' = p b'.
Proof.
  intros H. unfold setQuaternion.
  apply Nat.eqb_neq in H. now rewrite H.
Qed.

Section ProceduralLayer.

Import AnimationController.

(** The pose the layer leaves when it runs and the model turns fast
    enough: the three writes, in the order of the code. *)
Lemma applyProceduralOffsets_turning speed dt ac sc :
  skeleton ac = true ->
  0 < dt <= 0.1 ->
  0.1 < Rabs ((rotationY sc - previousRotation ac) / dt) ->
  let w := (rotationY sc - previousRotation ac) / dt in
  let p0 := pose sc in
  let p1 :=
    match spine (bones ac) with
    | Some b =>
        setQuaternion p0 b
          (Quaternion.multiply (p0 b)
             (Quaternion.setFromEuler 0
                (- w * UPPER_BODY_INERTIA_FACTOR * dt) 0))
    | None => p0
    end in
  let p2 :=
    match head (bones ac) with
    | Some b =>
        setQuaternion p1 b
          (Quaternion.multiply (p1 b)
             (Quaternion.setFromEuler 0 (- w * HEAD_LAG_FACTOR * dt) 0))
    | None => p1
    end in
  let p3 :=
    match leftShoulder (bones ac), rightShoulder (bones ac) with
    | Some l, Some r =>
        let q :=
          setQuaternion p2 l
            (Quaternion.multiply (p2 l)
               (Quaternion.setFromEuler 0 0
                  (w * SHOULDER_LAG_FACTOR * dt))) in
        setQuaternion q r
          (Quaternion.multiply (q r)
             (Quaternion.setFromEuler 0 0
                (- (w * SHOULDER_LAG_FACTOR * dt))))
    | _, _ => p2
    end in
  applyProceduralOffsets speed dt ac sc
  = (setRotationTracking ac (rotationY sc) w, setPose p3 sc).
Proof.
  intros Hsk Hdt Hw. unfold applyProceduralOffsets.
  rewrite Hsk. cbn [negb orb]. decide_R. cbn [orb]. cbv zeta.
  apply gtb_R_true in Hw.
  destruct (spine (bones ac)), (head (bones ac)),
    (leftShoulder (bones ac)), (rightShoulder (bones ac));
    rewrite ?Hw; reflexivity.
Qed.

(** When the layer runs and the model barely turns, the pose is left as
    it is. *)
Lemma applyProceduralOffsets_resting speed dt ac sc :
  skeleton ac = true ->
  0 < dt <= 0.1 ->
  Rabs ((rotationY sc - previousRotation ac) / dt) <= 0.1 ->
  applyProceduralOffsets speed dt ac sc
  = (setRotationTracking ac (rotationY sc)
       ((rotationY sc - previousRotation ac) / dt),
     setPose (pose sc) sc).
Proof.
  intros Hsk Hdt Hw. unfold applyProceduralOffsets.
  rewrite Hsk. cbn [negb orb]. decide_R. cbn [orb]. cbv zeta.
  apply gtb_R_false in Hw.
  destruct (spine (bones ac)), (head (bones ac)),
    (leftShoulder (bones ac)), (rightShoulder (bones ac));
    rewrite ?Hw; reflexivity.
Qed.

End ProceduralLayer.

(** Read the value of a pose built by successive writes at a bone, given
    the distinctness facts in the context. *)
Ltac read_pose :=
  repeat first
    [ rewrite setQuaternion_same
    | rewrite setQuaternion_other by (intros ->; intuition auto) ].

Ltac split_NoDup :=
  repeat match goal with
         | H : NoDup (_ :: _) |- _ =>
             let H1 := fresh "Hnotin" in
             let H2 := fresh "Hnodup" in
             apply NoDup_cons_iff in H; destruct H as [H1 H2];
             cbn [In] in H1
         end.

(** C7, as the code has it.  In a frame in which the layer runs (skeleton
    present, delta time in (0, 0.1]) and the angular velocity [w] of the
    heading exceeds 0.1 rad/s in magnitude, the spine's rotation is
    multiplied on the right by a rotation about the Y axis of angle
    [-w * 0.1 * dt], the head's by one about the Y axis of angle
    [-w * 0.15 * dt], and, when both shoulders were found, the left and
    right shoulder's by rotations about the Z axis of angles
    [w * 0.08 * dt] and [-(w * 0.08 * dt)]; a lone shoulder is left alone;
    at 0.1 rad/s or below no bone is changed. *)
Theorem C7_procedural_offsets_amended :
  forall (speed dt : R) (ac : AnimationController.t) (sc : Scene),
    AnimationController.skeleton ac = true ->
    0 < dt <= 0.1 ->
    NoDup (AnimationController.proceduralTargets
             (AnimationController.bones ac)) ->
    let w := (rotationY sc - AnimationController.previousRotation ac) / dt in
    let p := pose sc in
    let p' :=
      pose (snd (AnimationController.applyProceduralOffsets speed dt ac sc)) in
    (0.1 < Rabs w ->
       (forall b,
           AnimationController.spine (AnimationController.bones ac) = Some b ->
           p' b = Quaternion.multiply (p b)
                    (Quaternion.setFromAxisAngle (Vector3.mk 0 1 0)
                       (- w * 0.1 * dt)))
       /\ (forall b,
             AnimationController.head (AnimationController.bones ac)
             = Some b ->
             p' b = Quaternion.multiply (p b)
                      (Quaternion.setFromAxisAngle (Vector3.mk 0 1 0)
                         (- w * 0.15 * dt)))
       /\ (forall l r,
             AnimationController.leftShoulder (AnimationController.bones ac)
             = Some l ->
             AnimationController.rightShoulder (AnimationController.bones ac)
             = Some r ->
             p' l = Quaternion.multiply (p l)
                      (Quaternion.setFromAxisAngle (Vector3.mk 0 0 1)
                         (w * 0.08 * dt))
             /\ p' r = Quaternion.multiply (p r)
                         (Quaternion.setFromAxisAngle (Vector3.mk 0 0 1)
                            (- (w * 0.08 * dt))))
       /\ (forall b,
             AnimationController.leftShoulder (AnimationController.bones ac)
             = None
             \/ AnimationController.rightShoulder
                  (AnimationController.bones ac) = None ->
             AnimationController.leftShoulder (AnimationController.bones ac)
             = Some b
             \/ AnimationController.rightShoulder
                  (AnimationController.bones ac) = Some b ->
             p' b = p b))
    /\ (Rabs w <= 0.1 -> forall b, p' b = p b).
Proof.
  intros speed dt ac sc Hsk Hdt Hnd w p p'. split.
  - intros Hw. unfold p'.
    rewrite (applyProceduralOffsets_turning speed dt ac sc Hsk Hdt Hw).
    cbn [snd pose setPose]. cbv zeta. fold w. fold p.
    unfold AnimationController.proceduralTargets in Hnd.
    unfold UPPER_BODY_INERTIA_FACTOR, HEAD_LAG_FACTOR, SHOULDER_LAG_FACTOR.
    rewrite !setFromEuler_Y, !setFromEuler_Z.
    destruct (AnimationController.spine (AnimationController.bones ac))
      as [sp | ];
      destruct (AnimationController.head (AnimationController.bones ac))
        as [hd | ];
      destruct (AnimationController.leftShoulder
                  (AnimationController.bones ac)) as [ls | ];
      destruct (AnimationController.rightShoulder
                  (AnimationController.bones ac)) as [rs | ];
      cbn [flat_map app] in Hnd; split_NoDup;
      (split; [ intros b Hb; inversion Hb; subst; read_pose; reflexivity | ]);
      (split; [ intros b Hb; inversion Hb; subst; read_pose; reflexivity | ]);
      (split;
       [ intros l r Hl Hr; inversion Hl; inversion Hr; subst;
         split; read_pose; reflexivity
       | intros b [Hn | Hn] [Hb | Hb];
         try discriminate; inversion Hb; subst; read_pose; reflexivity ]).
  - intros Hw b. unfold p'.
    rewrite (applyProceduralOffsets_resting speed dt ac sc Hsk Hdt Hw).
    reflexivity.
Qed.

(** The sample model turned by one radian since the last frame, seen over
    a frame of 0.1 s: an angular velocity of 10 rad/s. *)
Lemma sample_turn_rate :
  (rotationY turnedScene
   - AnimationController.previousRotation riggedController) / 0.1 = 10.
Proof. cbn. lra. Qed.

Lemma sample_turn_fast :
  0.1 < Rabs ((rotationY turnedScene
               - AnimationController.previousRotation riggedController)
              / 0.1).
Proof. rewrite sample_turn_rate, Rabs_right; lra. Qed.

Lemma tenth_in_range : 0 < 0.1 <= 0.1.
Proof. lra. Qed.

Lemma sample_targets_distinct :
  NoDup (AnimationController.proceduralTargets
           (AnimationController.bones riggedController)).
Proof.
  cbn. repeat constructor; cbn; intuition discriminate.
Qed.

Lemma C7_procedural_offsets_amended_witness :
  AnimationController.skeleton riggedController = true
  /\ 0 < 0.1 <= 0.1
  /\ NoDup (AnimationController.proceduralTargets
              (AnimationController.bones riggedController))
  /\ pose (snd (AnimationController.applyProceduralOffsets 0 0.1
                  riggedController turnedScene)) 0%nat
     = Quaternion.multiply (pose turnedScene 0%nat)
         (Quaternion.setFromAxisAngle (Vector3.mk 0 1 0)
            (- ((rotationY turnedScene
                 - AnimationController.previousRotation riggedController)
                / 0.1) * 0.1 * 0.1)).
Proof.
  split; [ reflexivity | ].
  split; [ lra | ].
  split; [ exact sample_targets_distinct | ].
  apply (C7_procedural_offsets_amended 0 0.1 riggedController turnedScene
           eq_refl tenth_in_range sample_targets_distinct).
  - exact sample_turn_fast.
  - reflexivity.
Defined.

(** The claim as it was stated fails for the shoulders: with both shoulders
    present and the model turning at 10 rad/s, the rotation the layer
    leaves on the left shoulder is not its previous rotation followed by a
    rotation about the Y axis, whatever the angle. *)
Lemma C7_procedural_offsets_counterexample :
  0.1 < Rabs (AnimationController.rotationVelocity
                (fst (AnimationController.applyProceduralOffsets 0 0.1
                        riggedController turnedScene)))
  /\ AnimationController.leftShoulder
       (AnimationController.bones riggedController) = Some 2%nat
  /\ ~ (exists angle : R,
          pose (snd (AnimationController.applyProceduralOffsets 0 0.1
                       riggedController turnedScene)) 2%nat
          = Quaternion.multiply (pose turnedScene 2%nat)
              (Quaternion.setFromAxisAngle (Vector3.mk 0 1 0) angle)).
Proof.
  rewrite (applyProceduralOffsets_turning 0 0.1 riggedController turnedScene
             eq_refl tenth_in_range sample_turn_fast).
  cbv zeta. rewrite sample_turn_rate.
  cbn [fst snd AnimationController.rotationVelocity
         AnimationController.setRotationTracking pose setPose].
  split; [ rewrite Rabs_right; lra | ].
  split; [ reflexivity | ].
  intros [angle H].
  cbn [AnimationController.spine AnimationController.head
         AnimationController.leftShoulder AnimationController.rightShoulder
         AnimationController.bones riggedController] in H.
  rewrite (setQuaternion_other _ 3%nat _ 2%nat) in H by discriminate.
  rewrite setQuaternion_same in H.
  rewrite (setQuaternion_other _ 1%nat _ 2%nat) in H by discriminate.
  rewrite (setQuaternion_other _ 0%nat _ 2%nat) in H by discriminate.
  rewrite setFromEuler_Z in H.
  apply (f_equal Quaternion.z) in H.
  unfold Quaternion.multiply, Quaternion.setFromAxisAngle in H.
  cbn [Quaternion.x Quaternion.y Quaternion.z Quaternion.w
         Vector3.x Vector3.y Vector3.z
         pose turnedScene restPose Quaternion.identity] in H.
  unfold SHOULDER_LAG_FACTOR in H.
  assert (Hsin : 0 < sin (10 * 0.08 * 0.1 / 2)).
  { pose proof PI_bounds. apply sin_gt_0; lra. }
  lra.
Qed.

(** ** The rest reference of the springs within a frame *)

Section RestReference.

Import AnimationController.

Lemma update_keeps_rest dt v a s q :
  BoneSpring.bone (fst (BoneSpring.update dt v a s q)) = BoneSpring.bone s
  /\ BoneSpring.originalRotation (fst (BoneSpring.update dt v a s q))
     = BoneSpring.originalRotation s.
Proof.
  unfold BoneSpring.update. cbv zeta. cbn [fst].
  match goal with |- context [if ?c then _ else _] => destruct c end;
    split; reflexivity.
Qed.

Lemma updateSprings_each dt v a : forall ss p,
  Forall2 (fun s s' =>
             exists q, s' = fst (BoneSpring.update dt (Some v) (Some a) s q))
    ss (fst (SecondaryMotionController.updateSprings dt v a ss p)).
Proof.
  induction ss as [ | s ss IH]; intros p;
    cbn [SecondaryMotionController.updateSprings].
  - constructor.
  - destruct (BoneSpring.update dt (Some v) (Some a) s p) as [s1 p1] eqn:E1.
    specialize (IH p1).
    destruct (SecondaryMotionController.updateSprings dt v a ss p1)
      as [ss1 p2].
    cbn [fst] in *. constructor; [ | exact IH ].
    exists p. now rewrite E1.
Qed.

(** After the secondary motion update every spring is the integration
    step of the spring that was there, driven by the velocity and the
    acceleration the coordinator has just derived. *)
Lemma updateSecondaryMotion_springs dt ac sc :
  let sm' := secondaryMotion (fst (updateSecondaryMotion dt ac sc)) in
  Forall2 (fun s s' =>
             exists q,
               s' = fst (BoneSpring.update dt
                           (Some (SecondaryMotionController.currentVelocity
                                    sm'))
                           (Some
                              (SecondaryMotionController.currentAcceleration
                                 sm'))
                           s q))
    (SecondaryMotionController.springs (secondaryMotion ac))
    (SecondaryMotionController.springs sm').
Proof.
  unfold updateSecondaryMotion,
    SecondaryMotionController.hasSecondaryMotion,
    SecondaryMotionController.update.
  destruct (SecondaryMotionController.springs (secondaryMotion ac))
    as [ | s ss] eqn:Ess.
  - cbn. rewrite Ess. constructor.
  - set (c1 := SecondaryMotionController.updateCharacterMotion dt
                 (position sc) (secondaryMotion ac)).
    assert (Hc1 : SecondaryMotionController.springs c1 = s :: ss)
      by (unfold c1; cbn; exact Ess).
    pose proof (updateSprings_each dt
                  (SecondaryMotionController.currentVelocity c1)
                  (SecondaryMotionController.currentAcceleration c1)
                  (SecondaryMotionController.springs c1) (pose sc)) as H.
    destruct (SecondaryMotionController.updateSprings dt
                (SecondaryMotionController.currentVelocity c1)
                (SecondaryMotionController.currentAcceleration c1)
                (SecondaryMotionController.springs c1) (pose sc))
      as [ss1 p1].
    cbn [fst snd secondaryMotion setSecondaryMotion
           SecondaryMotionController.springs
           SecondaryMotionController.currentVelocity
           SecondaryMotionController.currentAcceleration] in *.
    rewrite Hc1 in H. exact H.
Qed.

Lemma Forall2_map_left {A B C : Type} (f : A -> B) (P : B -> C -> Prop) :
  forall (l : list A) (l' : list C),
    Forall2 P (map f l) l' -> Forall2 (fun a c => P (f a) c) l l'.
Proof.
  induction l as [ | a l IH]; intros l' H; inversion H; subst;
    constructor; auto.
Qed.

Lemma selectAnimation_keeps_springs speed ac sc :
  secondaryMotion (fst (selectAnimation speed ac sc)) = secondaryMotion ac.
Proof.
  unfold selectAnimation.
  destruct (locomotionTarget speed) as [st rate].
  destruct (negb (AnimationState_eqb (currentState ac) st)).
  - unfold transitionToState.
    destruct (targetClip (animationClips ac) st) as [c | ];
      [ | reflexivity ].
    unfold playAnimation. destruct (mixer ac); reflexivity.
  - destruct (currentAction ac); reflexivity.
Qed.

(** With a mixer, the springs at the end of a frame are the integration
    step of the springs re-snapshotted at the pose the mixer advance has
    just written, a pose the procedural layer has not yet touched. *)
Lemma frame_rest_reference mixerPose speed dt ac sc :
  mixer ac = true ->
  let r := updateFromSpeed mixerPose speed dt ac sc in
  let written :=
    pose (mixerUpdate mixerPose dt (snd (selectAnimation speed ac sc))) in
  let sm' := secondaryMotion (fst r) in
  Forall2 (fun s s' =>
             exists q,
               s' = fst (BoneSpring.update dt
                           (Some (SecondaryMotionController.currentVelocity
                                    sm'))
                           (Some
                              (SecondaryMotionController.currentAcceleration
                                 sm'))
                           (BoneSpring.updateOriginalRotation s written) q))
    (SecondaryMotionController.springs (secondaryMotion ac))
    (SecondaryMotionController.springs sm').
Proof.
  intros Hm. unfold updateFromSpeed. rewrite Hm. cbn [negb].
  pose proof (selectAnimation_keeps_springs speed ac sc) as Hsm.
  destruct (selectAnimation speed ac sc) as [ac1 sc1].
  cbn [fst snd] in *.
  set (sc2 := mixerUpdate mixerPose dt sc1).
  set (ac3 := if SecondaryMotionController.hasSecondaryMotion
                   (secondaryMotion ac1)
              then _ else ac1).
  assert (H3 : SecondaryMotionController.springs (secondaryMotion ac3)
               = map (fun s => BoneSpring.updateOriginalRotation s (pose sc2))
                   (SecondaryMotionController.springs (secondaryMotion ac))).
  { unfold ac3, SecondaryMotionController.hasSecondaryMotion.
    rewrite <- Hsm.
    destruct (SecondaryMotionController.springs (secondaryMotion ac1))
      eqn:E; cbn; rewrite ?E; reflexivity. }
  pose proof (applyProceduralOffsets_keeps speed dt ac3 sc2) as Hp.
  destruct (applyProceduralOffsets speed dt ac3 sc2) as [ac4 sc4].
  cbn [fst snd] in Hp. destruct Hp as (_ & _ & _ & _ & Hp & _).
  pose proof (updateSecondaryMotion_springs dt ac4 sc4) as Hu.
  cbv zeta in Hu. rewrite Hp, H3 in Hu.
  cbv zeta.
  exact (Forall2_map_left
           (fun s => BoneSpring.updateOriginalRotation s (pose sc2)) _ _ _ Hu).
Qed.

End RestReference.

(** The order of a frame as the code has it.  In every frame of a
    controller that has a mixer, each spring-damper unit takes its bone's
    rotation as the new rest reference after the mixer advance has written
    the pose and before the procedural offset layer writes: the rest
    reference at the end of the frame is the rotation the mixer wrote, and
    the spring at the end of the frame is the integration step applied to
    the spring so re-snapshotted. *)
Lemma rest_snapshot_follows_mixer :
  forall (mixerPose : list Effect -> Pose -> Pose) (speed dt : R)
         (ac : AnimationController.t) (sc : Scene),
    AnimationController.mixer ac = true ->
    let r := AnimationController.updateFromSpeed mixerPose speed dt ac sc in
    let written :=
      pose (AnimationController.mixerUpdate mixerPose dt
              (snd (AnimationController.selectAnimation speed ac sc))) in
    let sm' := AnimationController.secondaryMotion (fst r) in
    Forall2 (fun s s' =>
               BoneSpring.bone s' = BoneSpring.bone s
               /\ BoneSpring.originalRotation s' = written (BoneSpring.bone s)
               /\ exists q,
                    s' = fst (BoneSpring.update dt
                                (Some
                                   (SecondaryMotionController.currentVelocity
                                      sm'))
                                (Some
                                   (SecondaryMotionController.currentAcceleration
                                      sm'))
                                (BoneSpring.updateOriginalRotation s written)
                                q))
      (SecondaryMotionController.springs
         (AnimationController.secondaryMotion ac))
      (SecondaryMotionController.springs sm').
Proof.
  intros mixerPose speed dt ac sc Hm r written sm'.
  pose proof (frame_rest_reference mixerPose speed dt ac sc Hm) as H.
  cbv zeta in H. fold r in H. fold written in H. fold sm' in H.
  eapply Forall2_impl; [ | exact H ].
  intros s s' [q Hq]. cbv beta.
  pose proof (update_keeps_rest dt
                (Some (SecondaryMotionController.currentVelocity sm'))
                (Some (SecondaryMotionController.currentAcceleration sm'))
                (BoneSpring.updateOriginalRotation s written) q) as [Hb Ho].
  rewrite <- Hq in Hb, Ho.
  split; [ exact Hb | ]. split; [ exact Ho | ].
  exists q. exact Hq.
Qed.

(** The sample model standing still: the selection keeps the idle action
    and sets its rate. *)
Lemma sample_selection :
  AnimationController.selectAnimation 0 riggedController turnedScene
  = (riggedController,
     emit (SetEffectiveTimeScale (clipAction 0%nat) 1.0) turnedScene).
Proof.
  unfold AnimationController.selectAnimation.
  rewrite targetState_idle by lra. reflexivity.
Qed.

(** In the sample frame (the model has turned by one radian within 0.1 s
    and stands where it stood) the procedural layer turns the spine: the
    rotation it leaves on the spine is not the one the mixer wrote. *)
Lemma sample_layer_turns_spine :
  pose (AnimationController.mixerUpdate stillMixer 0.1
          (snd (AnimationController.selectAnimation 0 riggedController
                  turnedScene))) 0%nat
  <> pose (snd (AnimationController.applyProceduralOffsets 0 0.1
                  riggedController
                  (AnimationController.mixerUpdate stillMixer 0.1
                     (snd (AnimationController.selectAnimation 0
                             riggedController turnedScene))))) 0%nat.
Proof.
  rewrite sample_selection. cbn [snd].
  set (sc2 := AnimationController.mixerUpdate stillMixer 0.1
                (emit (SetEffectiveTimeScale (clipAction 0%nat) 1.0)
                   turnedScene)).
  assert (Hturn : 0.1 < Rabs ((rotationY sc2
                               - AnimationController.previousRotation
                                   riggedController) / 0.1))
    by exact sample_turn_fast.
  rewrite (applyProceduralOffsets_turning 0 0.1 riggedController sc2
             eq_refl tenth_in_range Hturn).
  cbv zeta.
  change ((rotationY sc2
           - AnimationController.previousRotation riggedController) / 0.1)
    with ((rotationY turnedScene
           - AnimationController.previousRotation riggedController) / 0.1).
  rewrite sample_turn_rate.
  cbn [snd pose setPose AnimationController.spine AnimationController.head
         AnimationController.leftShoulder AnimationController.rightShoulder
         AnimationController.bones riggedController].
  rewrite (setQuaternion_other _ 3%nat _ 0%nat) by discriminate.
  rewrite (setQuaternion_other _ 2%nat _ 0%nat) by discriminate.
  rewrite (setQuaternion_other _ 1%nat _ 0%nat) by discriminate.
  rewrite setQuaternion_same, setFromEuler_Y.
  intros Heq. apply (f_equal Quaternion.y) in Heq.
  unfold Quaternion.multiply, Quaternion.setFromAxisAngle in Heq.
  cbn in Heq. unfold UPPER_BODY_INERTIA_FACTOR in Heq.
  assert (Hsin : 0 < sin (10 * 0.1 * 0.1 / 2)).
  { pose proof PI_bounds. apply sin_gt_0; lra. }
  replace (- (10) * 0.1 * 0.1 / 2) with (- (10 * 0.1 * 0.1 / 2)) in Heq
    by lra.
  rewrite sin_neg in Heq. lra.
Qed.

(** * Further properties of the code *)

(** ** The secondary motion coordinator over its life *)

Lemma Forall2_Forall_transfer {A : Type} (R : A -> A -> Prop)
    (P : A -> Prop) :
  (forall a b, R a b -> P a -> P b) ->
  forall l l', Forall2 R l l' -> Forall P l -> Forall P l'.
Proof.
  intros HR l l' H. induction H as [ | a b l l' Hab _ IH]; intros HP.
  - constructor.
  - inversion HP; subst. constructor; eauto.
Qed.

Lemma Forall2_map_eq {A B : Type} (f : A -> B) :
  forall l l' : list A,
    Forall2 (fun a b => f b = f a) l l' -> map f l' = map f l.
Proof.
  intros l l' H. induction H as [ | a b l l' Hab _ IH]; cbn.
  - reflexivity.
  - now rewrite Hab, IH.
Qed.

Section CoordinatorLife.

Import SecondaryMotionController.

(** What every spring of a coordinator built by [discoverAndSetupBones]
    satisfies at all times. *)
Let profiled (s : BoneSpring.t) : Prop :=
  BoneSpring.maxDisplacement s = typeBound (BoneSpring.type s).

Lemma update_keeps_type dt v a s q :
  BoneSpring.type (fst (BoneSpring.update dt v a s q)) = BoneSpring.type s.
Proof.
  unfold BoneSpring.update. cbv zeta. cbn [fst].
  match goal with |- context [if ?c then _ else _] => destruct c end;
    reflexivity.
Qed.

Lemma update_profiled dt v a s q :
  profiled s -> profiled (fst (BoneSpring.update dt v a s q)).
Proof.
  intros Hm. unfold profiled.
  rewrite update_maxDisplacement, update_keeps_type. exact Hm.
Qed.

Lemma updateSprings_profiled dt v a ss p :
  Forall profiled ss ->
  Forall profiled (fst (updateSprings dt v a ss p))
  /\ map BoneSpring.bone (fst (updateSprings dt v a ss p))
     = map BoneSpring.bone ss.
Proof.
  intros H. pose proof (updateSprings_each dt v a ss p) as He. split.
  - eapply Forall2_Forall_transfer; [ | exact He | exact H ].
    intros s s' [q ->]. apply update_profiled.
  - apply Forall2_map_eq. eapply Forall2_impl; [ | exact He ].
    intros s s' [q ->]. apply update_keeps_rest.
Qed.

Lemma resetSprings_profiled ss : forall p,
  Forall profiled ss ->
  Forall profiled (fst (resetSprings ss p))
  /\ map BoneSpring.bone (fst (resetSprings ss p)) = map BoneSpring.bone ss.
Proof.
  induction ss as [ | s ss IH]; intros p H; cbn [resetSprings].
  - split; [ constructor | reflexivity ].
  - inversion H as [ | s0 ss0 Hm Hss]; subst.
    destruct (BoneSpring.reset s p) as [s1 p1] eqn:E1.
    specialize (IH p1 Hss).
    destruct (resetSprings ss p1) as [ss1 p2]. cbn [fst] in *.
    unfold BoneSpring.reset in E1. inversion E1; subst; clear E1.
    destruct IH as [IH1 IH2]. split.
    + constructor; [ | exact IH1 ]. exact Hm.
    + cbn. now rewrite IH2.
Qed.

Lemma call_profiled c cp :
  Forall profiled (springs (fst cp)) ->
  Forall profiled (springs (fst (SecondaryMotionCalls.call c cp)))
  /\ map BoneSpring.bone (springs (fst (SecondaryMotionCalls.call c cp)))
     = map BoneSpring.bone (springs (fst cp)).
Proof.
  intros H. destruct cp as [c0 p]. cbn [fst snd] in *.
  destruct c as [dt pos | | pos | q]; cbn [SecondaryMotionCalls.call fst snd].
  - unfold update. destruct (springs c0) as [ | s ss] eqn:Ess.
    + cbn [fst]. rewrite Ess. split; [ constructor | reflexivity ].
    + set (c1 := updateCharacterMotion dt pos c0).
      assert (Hc1 : springs c1 = s :: ss) by (unfold c1; cbn; exact Ess).
      pose proof (updateSprings_profiled dt (currentVelocity c1)
                    (currentAcceleration c1) (springs c1) p) as Hu.
      destruct (updateSprings dt (currentVelocity c1)
                  (currentAcceleration c1) (springs c1) p) as [ss1 p1].
      cbn [fst springs] in *. rewrite Hc1 in Hu. apply Hu. exact H.
  - unfold onAnimationUpdate. cbn [springs]. split.
    + apply Forall_map. eapply Forall_impl; [ | exact H ].
      intros s Hs. exact Hs.
    + rewrite map_map. reflexivity.
  - unfold reset.
    pose proof (resetSprings_profiled (springs c0) p H) as Hr.
    destruct (resetSprings (springs c0) p) as [ss p1].
    cbn [fst springs] in *. exact Hr.
  - split; [ exact H | reflexivity ].
Qed.

Lemma new_profiled hairBones clothBones upperBodyBones p :
  Forall profiled (springs (new hairBones clothBones upperBodyBones p))
  /\ map BoneSpring.bone
       (springs (new hairBones clothBones upperBodyBones p))
     = hairBones ++ clothBones ++ upperBodyBones.
Proof.
  unfold new, createSprings. cbn [springs]. split.
  - assert (Hnew : forall ty b,
               profiled (BoneSpring.new b ty (typeConfig ty) p)).
    { intros ty b. unfold profiled.
      cbn [BoneSpring.new BoneSpring.maxDisplacement BoneSpring.type].
      destruct ty; cbn; unfold orDefault;
        match goal with |- context [Req_dec_T ?a 0] =>
          destruct (Req_dec_T a 0) end; lra. }
    rewrite !Forall_app. repeat split; apply Forall_map, Forall_forall;
      intros b _.
    + exact (Hnew HAIR b).
    + exact (Hnew CLOTH b).
    + exact (Hnew UPPER_BODY b).
  - rewrite !map_app, !map_map. cbn [BoneSpring.new BoneSpring.bone].
    now rewrite !map_id.
Qed.

Lemma run_profiled cs : forall cp,
  Forall profiled (springs (fst cp)) ->
  Forall profiled (springs (fst (SecondaryMotionCalls.run cs cp)))
  /\ map BoneSpring.bone (springs (fst (SecondaryMotionCalls.run cs cp)))
     = map BoneSpring.bone (springs (fst cp)).
Proof.
  unfold SecondaryMotionCalls.run.
  induction cs as [ | c cs IH]; intros cp H; cbn [fold_left].
  - split; [ exact H | reflexivity ].
  - destruct (call_profiled c cp H) as [H1 H2].
    destruct (IH _ H1) as [H3 H4]. split; [ exact H3 | ].
    now rewrite H4, H2.
Qed.

(** X1.  A coordinator built by [discoverAndSetupBones] keeps, through any
    sequence of [update], [onAnimationUpdate] and [reset] calls (with any
    time steps, model positions and pose rewrites in between), its springs
    on the same bones, in the order hair, cloth, upper body, and each
    spring keeps the bound configured for its type (0.4, 0.5, 0.15): no
    call adds, drops or reorders a spring or changes its bound. *)
Theorem X1_coordinator_keeps_its_springs :
  forall (hairBones clothBones upperBodyBones : list BoneId) (p : Pose)
         (cs : list SecondaryMotionCalls.Call),
    let c :=
      fst (SecondaryMotionCalls.run cs
             (new hairBones clothBones upperBodyBones p, p)) in
    map BoneSpring.bone (springs c)
    = hairBones ++ clothBones ++ upperBodyBones
    /\ Forall (fun s =>
                 BoneSpring.maxDisplacement s = typeBound (BoneSpring.type s))
         (springs c).
Proof.
  intros hairBones clothBones upperBodyBones p cs c.
  destruct (new_profiled hairBones clothBones upperBodyBones p) as [Hn Hb].
  destruct (run_profiled cs
              (new hairBones clothBones upperBodyBones p, p) Hn) as [H1 H2].
  split.
  - unfold c. rewrite H2. exact Hb.
  - exact H1.
Qed.

End CoordinatorLife.

(** ** What the springs write *)

Lemma vector_ext (a b : Vector3.t) :
  Vector3.x a = Vector3.x b -> Vector3.y a = Vector3.y b ->
  Vector3.z a = Vector3.z b -> a = b.
Proof. destruct a, b. cbn. intros -> -> ->. reflexivity. Qed.

Lemma applyDisplacement_own s p :
  BoneSpring.applyDisplacement s p (BoneSpring.bone s) = springRotation s.
Proof.
  unfold springRotation, BoneSpring.applyDisplacement. cbv zeta.
  destruct (gtb_R (Vector3.length (BoneSpring.displacement s)) 0.001);
    now rewrite !setQuaternion_same.
Qed.

Lemma applyDisplacement_other s p b :
  b <> BoneSpring.bone s -> BoneSpring.applyDisplacement s p b = p b.
Proof.
  intros H. unfold BoneSpring.applyDisplacement. cbv zeta.
  destruct (gtb_R (Vector3.length (BoneSpring.displacement s)) 0.001);
    now rewrite setQuaternion_other.
Qed.

Lemma update_pose dt v a s p :
  snd (BoneSpring.update dt v a s p)
  = BoneSpring.applyDisplacement (fst (BoneSpring.update dt v a s p)) p.
Proof. reflexivity. Qed.

(** The loop over the springs writes the bones of the springs and no
    other; with distinct bones, each bone ends at the rotation its own
    spring gives it. *)
Lemma updateSprings_pose dt v a : forall ss p,
  let r := SecondaryMotionController.updateSprings dt v a ss p in
  (forall b, ~ In b (map BoneSpring.bone ss) -> snd r b = p b)
  /\ (NoDup (map BoneSpring.bone ss) ->
      Forall (fun s' => snd r (BoneSpring.bone s') = springRotation s')
        (fst r)).
Proof.
  induction ss as [ | s ss IH]; intros p;
    cbn [SecondaryMotionController.updateSprings].
  - cbn. split; [ reflexivity | constructor ].
  - pose proof (update_pose dt (Some v) (Some a) s p) as Hp.
    pose proof (update_keeps_rest dt (Some v) (Some a) s p) as [Hb _].
    destruct (BoneSpring.update dt (Some v) (Some a) s p) as [s1 p1].
    cbn [fst snd] in Hp, Hb.
    specialize (IH p1).
    pose proof (updateSprings_each dt v a ss p1) as He.
    destruct (SecondaryMotionController.updateSprings dt v a ss p1)
      as [ss1 p2].
    cbn [fst snd map] in *. destruct IH as [IHother IHown]. split.
    + intros b Hnot. rewrite IHother by (intro; apply Hnot; now right).
      rewrite Hp. apply applyDisplacement_other. rewrite Hb.
      intros ->. apply Hnot. now left.
    + intros Hnd. apply NoDup_cons_iff in Hnd. destruct Hnd as [Hnot Hnd].
      constructor; [ | now apply IHown ].
      rewrite IHother by (rewrite Hb; exact Hnot).
      rewrite Hp. apply applyDisplacement_own.
Qed.

Lemma resetSprings_bones : forall ss p,
  map BoneSpring.bone (fst (SecondaryMotionController.resetSprings ss p))
  = map BoneSpring.bone ss.
Proof.
  induction ss as [ | s ss IH]; intros p;
    cbn [SecondaryMotionController.resetSprings]; [ reflexivity | ].
  destruct (BoneSpring.reset s p) as [s1 p1] eqn:E1.
  specialize (IH p1).
  destruct (SecondaryMotionController.resetSprings ss p1) as [ss1 p2].
  unfold BoneSpring.reset in E1. inversion E1; subst.
  cbn in *. now rewrite IH.
Qed.

Lemma resetSprings_pose : forall ss p,
  let r := SecondaryMotionController.resetSprings ss p in
  (forall b, ~ In b (map BoneSpring.bone ss) -> snd r b = p b)
  /\ Forall atRest (fst r)
  /\ map BoneSpring.originalRotation (fst r)
     = map BoneSpring.originalRotation ss
  /\ (NoDup (map BoneSpring.bone ss) ->
      Forall (fun s' =>
                snd r (BoneSpring.bone s') = BoneSpring.originalRotation s')
        (fst r)).
Proof.
  induction ss as [ | s ss IH]; intros p;
    cbn [SecondaryMotionController.resetSprings].
  - cbn. repeat split; constructor.
  - destruct (BoneSpring.reset s p) as [s1 p1] eqn:E1.
    specialize (IH p1).
    pose proof (resetSprings_bones ss p1) as Hbones.
    destruct (SecondaryMotionController.resetSprings ss p1) as [ss1 p2].
    unfold BoneSpring.reset in E1. inversion E1; subst s1 p1; clear E1.
    cbn [fst snd map] in *.
    destruct IH as (IHother & IHrest & IHorig & IHown).
    split; [ | split; [ | split ] ].
    + intros b Hnot. rewrite IHother by (intro; apply Hnot; now right).
      apply setQuaternion_other.
      intros ->. apply Hnot. now left.
    + constructor; [ split; reflexivity | exact IHrest ].
    + cbn. now rewrite IHorig.
    + intros Hnd. apply NoDup_cons_iff in Hnd. destruct Hnd as [Hnot Hnd].
      constructor; [ | now apply IHown ].
      rewrite IHother by exact Hnot.
      cbn. apply setQuaternion_same.
Qed.

(** A spring at rest gives its bone the rest rotation. *)
Lemma springRotation_atRest s :
  atRest s -> springRotation s = BoneSpring.originalRotation s.
Proof.
  intros [Hd _]. unfold springRotation, BoneSpring.applyDisplacement.
  cbv zeta. rewrite Hd, length_zero.
  replace (gtb_R 0 0.001) with false
    by (symmetry; apply gtb_R_false; lra).
  apply setQuaternion_same.
Qed.

(** A spring at rest that is not driven stays as it is. *)
Lemma update_atRest dt s p :
  atRest s ->
  fst (BoneSpring.update dt (Some Vector3.zero) (Some Vector3.zero) s p) = s.
Proof.
  intros [Hd Hv]. destruct s as [b ty k c m v d q]. cbn in Hd, Hv. subst.
  unfold BoneSpring.update. cbv zeta.
  cbn [fst BoneSpring.bone BoneSpring.type BoneSpring.stiffness
         BoneSpring.damping BoneSpring.maxDisplacement BoneSpring.velocity
         BoneSpring.displacement BoneSpring.originalRotation].
  set (h := clampDeltaTime dt).
  match goal with |- context [if ?c then _ else _] => destruct c end;
    f_equal; apply vector_ext; cbn; try ring.
  all: unfold Vector3.normalize, Vector3.divideScalar; cbn; ring.
Qed.

Section CoordinatorPose.

Import SecondaryMotionController.

Lemma updateSprings_atRest dt : forall ss p,
  Forall atRest ss ->
  fst (updateSprings dt Vector3.zero Vector3.zero ss p) = ss.
Proof.
  induction ss as [ | s ss IH]; intros p H; cbn [updateSprings].
  - reflexivity.
  - inversion H as [ | s0 ss0 Hs Hss]; subst.
    pose proof (update_atRest dt s p Hs) as Hu.
    destruct (BoneSpring.update dt (Some Vector3.zero) (Some Vector3.zero)
                s p) as [s1 p1].
    specialize (IH p1 Hss).
    destruct (updateSprings dt Vector3.zero Vector3.zero ss p1) as [ss1 p2].
    cbn [fst] in *. now rewrite Hu, IH.
Qed.

(** The pose an update of the coordinator leaves: bones without a spring
    are untouched, and with distinct spring bones each of them carries the
    rotation its spring gives it. *)
Lemma update_pose_spec dt pos c p :
  let r := update dt pos c p in
  (forall b, ~ In b (map BoneSpring.bone (springs c)) -> snd r b = p b)
  /\ (NoDup (map BoneSpring.bone (springs c)) ->
      Forall (fun s' => snd r (BoneSpring.bone s') = springRotation s')
        (springs (fst r))).
Proof.
  unfold update. destruct (springs c) as [ | s ss] eqn:Ess.
  - cbn [fst snd]. rewrite Ess. split; [ reflexivity | constructor ].
  - set (c1 := updateCharacterMotion dt pos c).
    assert (Hc1 : springs c1 = s :: ss) by (unfold c1; cbn; exact Ess).
    pose proof (updateSprings_pose dt (currentVelocity c1)
                  (currentAcceleration c1) (springs c1) p) as Hu.
    destruct (updateSprings dt (currentVelocity c1)
                (currentAcceleration c1) (springs c1) p) as [ss1 p1].
    cbn [fst snd springs] in *. rewrite Hc1 in Hu. exact Hu.
Qed.

Lemma stationary_update dt pos c p :
  Forall atRest (springs c) ->
  previousVelocity c = Vector3.zero ->
  previousPosition c = pos ->
  NoDup (map BoneSpring.bone (springs c)) ->
  let r := update dt pos c p in
  springs (fst r) = springs c
  /\ previousVelocity (fst r) = Vector3.zero
  /\ previousPosition (fst r) = pos
  /\ Forall (fun s => snd r (BoneSpring.bone s)
                      = BoneSpring.originalRotation s) (springs c)
  /\ (forall b, ~ In b (map BoneSpring.bone (springs c)) -> snd r b = p b).
Proof.
  intros Hrest Hv Hp Hnd.
  pose proof (update_pose_spec dt pos c p) as [Hother Hown].
  cbv zeta in *. specialize (Hown Hnd).
  assert (Hsame : springs (fst (update dt pos c p)) = springs c
                  /\ previousVelocity (fst (update dt pos c p))
                     = Vector3.zero
                  /\ previousPosition (fst (update dt pos c p)) = pos).
  { unfold update. destruct (springs c) as [ | s ss] eqn:Ess.
    - cbn [fst]. rewrite Ess. auto.
    - set (c1 := updateCharacterMotion dt pos c).
      assert (Hvel : currentVelocity c1 = Vector3.zero).
      { unfold c1, updateCharacterMotion. cbv zeta. cbn [currentVelocity].
        rewrite Hp. apply vector_ext; cbn; ring. }
      assert (Hacc : currentAcceleration c1 = Vector3.zero).
      { unfold c1, updateCharacterMotion. cbv zeta.
        cbn [currentAcceleration]. rewrite Hp, Hv.
        apply vector_ext; cbn; ring. }
      assert (Hc1 : springs c1 = s :: ss) by (unfold c1; cbn; exact Ess).
      pose proof (updateSprings_atRest dt (springs c1) p) as Hu.
      rewrite Hc1 in Hu. specialize (Hu Hrest).
      rewrite Hvel, Hacc.
      assert (Hpv : previousVelocity c1 = Vector3.zero)
        by (unfold c1, updateCharacterMotion; cbv zeta;
            cbn [previousVelocity]; exact Hvel).
      assert (Hpp : previousPosition c1 = pos) by reflexivity.
      rewrite Hc1.
      destruct (updateSprings dt Vector3.zero Vector3.zero (s :: ss) p)
        as [ss1 p1].
      cbn [fst springs previousVelocity previousPosition] in *.
      auto. }
  destruct Hsame as (Hs & Hpv & Hpp).
  split; [ exact Hs | ]. split; [ exact Hpv | ]. split; [ exact Hpp | ].
  split; [ | exact Hother ].
  rewrite Hs in Hown.
  rewrite Forall_forall in *. intros s Hin.
  rewrite (Hown s Hin). apply springRotation_atRest. now apply Hrest.
Qed.

End CoordinatorPose.

Lemma stationary_run pos : forall dts c (p : Pose),
  Forall atRest (SecondaryMotionController.springs c) ->
  SecondaryMotionController.previousVelocity c = Vector3.zero ->
  SecondaryMotionController.previousPosition c = pos ->
  NoDup (map BoneSpring.bone (SecondaryMotionController.springs c)) ->
  Forall (fun s => p (BoneSpring.bone s) = BoneSpring.originalRotation s)
    (SecondaryMotionController.springs c) ->
  let r :=
    SecondaryMotionCalls.run
      (map (fun dt => SecondaryMotionCalls.CallUpdate dt pos) dts) (c, p) in
  SecondaryMotionController.springs (fst r)
  = SecondaryMotionController.springs c
  /\ Forall (fun s => snd r (BoneSpring.bone s)
                      = BoneSpring.originalRotation s)
       (SecondaryMotionController.springs c)
  /\ (forall b,
        ~ In b (map BoneSpring.bone (SecondaryMotionController.springs c)) ->
        snd r b = p b).
Proof.
  unfold SecondaryMotionCalls.run.
  induction dts as [ | dt dts IH]; intros c p Hrest Hv Hp Hnd Hpose;
    cbn [map fold_left].
  - cbn. auto.
  - cbn [SecondaryMotionCalls.call fst snd].
    destruct (stationary_update dt pos c p Hrest Hv Hp Hnd)
      as (Hs & Hv1 & Hp1 & Hown & Hother).
    destruct (SecondaryMotionController.update dt pos c p) as [c1 p1].
    cbn [fst snd] in *.
    specialize (IH c1 p1). rewrite Hs in IH.
    destruct (IH Hrest Hv1 Hp1 Hnd Hown) as (IH1 & IH2 & IH3).
    cbv zeta. split; [ exact IH1 | ]. split; [ exact IH2 | ].
    intros b Hb. rewrite IH3 by exact Hb. now apply Hother.
Qed.

(** X2.  A coordinator whose springs are all at rest, and that saw the
    model standing where it still stands, stays at rest through any number
    of updates with any time steps: the springs are unchanged, every
    spring bone carries its rest rotation and no other bone is written.
    (The bones of the springs are distinct, and each carries its rest
    rotation to begin with.) *)
Theorem X2_rest_is_kept :
  forall (pos : Vector3.t) (dts : list R) (c : SecondaryMotionController.t)
         (p : Pose),
    Forall atRest (SecondaryMotionController.springs c) ->
    SecondaryMotionController.previousVelocity c = Vector3.zero ->
    SecondaryMotionController.previousPosition c = pos ->
    NoDup (map BoneSpring.bone (SecondaryMotionController.springs c)) ->
    Forall (fun s => p (BoneSpring.bone s) = BoneSpring.originalRotation s)
      (SecondaryMotionController.springs c) ->
    let r :=
      SecondaryMotionCalls.run
        (map (fun dt => SecondaryMotionCalls.CallUpdate dt pos) dts)
        (c, p) in
    SecondaryMotionController.springs (fst r)
    = SecondaryMotionController.springs c
    /\ Forall (fun s => snd r (BoneSpring.bone s)
                        = BoneSpring.originalRotation s)
         (SecondaryMotionController.springs c)
    /\ (forall b,
          ~ In b (map BoneSpring.bone
                    (SecondaryMotionController.springs c)) ->
          snd r b = p b).
Proof. intros. now apply stationary_run. Qed.

Lemma sample_springs_distinct :
  NoDup (map BoneSpring.bone
           (SecondaryMotionController.springs
              (SecondaryMotionController.new [4%nat] [5%nat] [0%nat]
                 restPose))).
Proof. cbn. repeat constructor; cbn; intuition discriminate. Qed.

Lemma sample_springs_atRest :
  Forall atRest
    (SecondaryMotionController.springs
       (SecondaryMotionController.new [4%nat] [5%nat] [0%nat] restPose)).
Proof. cbn. repeat constructor. Qed.

Lemma sample_springs_posed :
  Forall (fun s => restPose (BoneSpring.bone s)
                   = BoneSpring.originalRotation s)
    (SecondaryMotionController.springs
       (SecondaryMotionController.new [4%nat] [5%nat] [0%nat] restPose)).
Proof. cbn. repeat constructor. Qed.

Lemma X2_rest_is_kept_witness :
  SecondaryMotionController.springs
    (fst (SecondaryMotionCalls.run
            (map (fun dt => SecondaryMotionCalls.CallUpdate dt Vector3.zero)
               [0.016; 0; 0.5])
            (SecondaryMotionController.new [4%nat] [5%nat] [0%nat] restPose,
             restPose)))
  = SecondaryMotionController.springs
      (SecondaryMotionController.new [4%nat] [5%nat] [0%nat] restPose).
Proof.
  apply (X2_rest_is_kept Vector3.zero [0.016; 0; 0.5]
           (SecondaryMotionController.new [4%nat] [5%nat] [0%nat] restPose)
           restPose sample_springs_atRest eq_refl eq_refl
           sample_springs_distinct sample_springs_posed).
Defined.

(** X3.  [reset] brings a coordinator to rest at the model's position:
    after it, and after any number of updates that find the model at that
    position, every spring has zero displacement and velocity and the rest
    rotation it had, every spring bone carries that rest rotation, the
    springs sit on the same bones, and no other bone has been written.
    (The bones of the springs are distinct.) *)
Theorem X3_reset_restores_rest :
  forall (pos : Vector3.t) (dts : list R) (c : SecondaryMotionController.t)
         (p : Pose),
    NoDup (map BoneSpring.bone (SecondaryMotionController.springs c)) ->
    let r :=
      SecondaryMotionCalls.run
        (SecondaryMotionCalls.CallReset pos
         :: map (fun dt => SecondaryMotionCalls.CallUpdate dt pos) dts)
        (c, p) in
    Forall atRest (SecondaryMotionController.springs (fst r))
    /\ map BoneSpring.bone (SecondaryMotionController.springs (fst r))
       = map BoneSpring.bone (SecondaryMotionController.springs c)
    /\ map BoneSpring.originalRotation
         (SecondaryMotionController.springs (fst r))
       = map BoneSpring.originalRotation
           (SecondaryMotionController.springs c)
    /\ Forall (fun s => snd r (BoneSpring.bone s)
                        = BoneSpring.originalRotation s)
         (SecondaryMotionController.springs (fst r))
    /\ (forall b,
          ~ In b (map BoneSpring.bone
                    (SecondaryMotionController.springs c)) ->
          snd r b = p b).
Proof.
  intros pos dts c p Hnd.
  unfold SecondaryMotionCalls.run. cbn [fold_left].
  cbn [SecondaryMotionCalls.call fst snd].
  unfold SecondaryMotionController.reset.
  pose proof (resetSprings_pose (SecondaryMotionController.springs c) p)
    as Hr.
  pose proof (resetSprings_bones (SecondaryMotionController.springs c) p)
    as Hb.
  destruct (SecondaryMotionController.resetSprings
              (SecondaryMotionController.springs c) p) as [ss p1].
  cbn [fst snd] in Hr, Hb. cbv beta iota.
  destruct Hr as (Hother & Hrest & Horig & Hown).
  specialize (Hown Hnd).
  set (c1 := SecondaryMotionController.mk ss pos Vector3.zero Vector3.zero
               Vector3.zero).
  assert (Hnd1 : NoDup (map BoneSpring.bone
                          (SecondaryMotionController.springs c1)))
    by (cbn; rewrite Hb; exact Hnd).
  pose proof (stationary_run pos dts c1 p1 Hrest eq_refl eq_refl Hnd1 Hown)
    as Hrun.
  unfold SecondaryMotionCalls.run in Hrun. cbv zeta in Hrun.
  destruct Hrun as (Hs & Hpose & Hothers).
  assert (Hc1 : SecondaryMotionController.springs c1 = ss) by reflexivity.
  rewrite Hc1 in Hs, Hpose, Hothers.
  cbv zeta. rewrite Hs.
  split; [ exact Hrest | ]. split; [ exact Hb | ]. split; [ exact Horig | ].
  split; [ exact Hpose | ].
  intros b Hnot. rewrite Hothers by (rewrite Hb; exact Hnot).
  now apply Hother.
Qed.

Lemma X3_reset_restores_rest_witness :
  Forall atRest
    (SecondaryMotionController.springs
       (fst (SecondaryMotionCalls.run
               (SecondaryMotionCalls.CallReset (Vector3.mk 1 0 2)
                :: map (fun dt =>
                          SecondaryMotionCalls.CallUpdate dt
                            (Vector3.mk 1 0 2))
                     [0.016; 0.2])
               (SecondaryMotionController.new [4%nat] [5%nat] [0%nat]
                  restPose, restPose)))).
Proof.
  apply (X3_reset_restores_rest (Vector3.mk 1 0 2) [0.016; 0.2]
           (SecondaryMotionController.new [4%nat] [5%nat] [0%nat] restPose)
           restPose sample_springs_distinct).
Defined.

(** X4.  The kinematics of the coordinator are consistent for every delta
    time, valid or not: with [h] the step the guard settles on, the new
    velocity times [h] is the model's displacement since the last call,
    the new acceleration times [h] is the change of velocity, the position
    and velocity are remembered for the next call, and no spring is
    touched. *)
Theorem X4_kinematics_consistent :
  forall (dt : R) (pos : Vector3.t) (c : SecondaryMotionController.t),
    let c' := SecondaryMotionController.updateCharacterMotion dt pos c in
    let h := clampDeltaTime dt in
    Vector3.multiplyScalar (SecondaryMotionController.currentVelocity c') h
    = Vector3.subVectors pos (SecondaryMotionController.previousPosition c)
    /\ Vector3.multiplyScalar
         (SecondaryMotionController.currentAcceleration c') h
       = Vector3.subVectors (SecondaryMotionController.currentVelocity c')
           (SecondaryMotionController.previousVelocity c)
    /\ SecondaryMotionController.previousPosition c' = pos
    /\ SecondaryMotionController.previousVelocity c'
       = SecondaryMotionController.currentVelocity c'
    /\ SecondaryMotionController.springs c'
       = SecondaryMotionController.springs c.
Proof.
  intros dt pos c c' h.
  pose proof (clampDeltaTime_range dt) as Hh. fold h in Hh.
  unfold c', SecondaryMotionController.updateCharacterMotion. cbv zeta.
  fold h.
  cbn [SecondaryMotionController.currentVelocity
         SecondaryMotionController.currentAcceleration
         SecondaryMotionController.previousPosition
         SecondaryMotionController.previousVelocity
         SecondaryMotionController.springs].
  repeat split; apply vector_ext; cbn; field; lra.
Qed.

(** ** What a frame writes, bone by bone *)

Section FrameWrites.

Import AnimationController.

Lemma Forall2_Forall_right {A B : Type} (R : A -> B -> Prop)
    (P : B -> Prop) :
  (forall a b, R a b -> P b) ->
  forall l l', Forall2 R l l' -> Forall P l'.
Proof.
  intros HR l l' H. induction H; constructor; eauto.
Qed.

Lemma applyProceduralOffsets_other speed dt ac sc b :
  ~ In b (proceduralTargets (bones ac)) ->
  pose (snd (applyProceduralOffsets speed dt ac sc)) b = pose sc b.
Proof.
  intros Hnot. unfold applyProceduralOffsets, proceduralTargets in *.
  destruct (negb (skeleton ac) || leb_R dt 0 || gtb_R dt 0.1);
    [ reflexivity | ].
  cbv zeta. cbn [snd pose setPose].
  destruct (gtb_R (Rabs ((rotationY sc - previousRotation ac) / dt)) 0.1);
    destruct (spine (bones ac)) as [sp | ];
    destruct (head (bones ac)) as [hd | ];
    destruct (leftShoulder (bones ac)) as [ls | ];
    destruct (rightShoulder (bones ac)) as [rs | ];
    cbn [flat_map app In] in Hnot;
    rewrite ?setQuaternion_other by (intros ->; apply Hnot; tauto);
    reflexivity.
Qed.

Lemma selectAnimation_keeps_pose speed ac sc :
  pose (snd (selectAnimation speed ac sc)) = pose sc
  /\ position (snd (selectAnimation speed ac sc)) = position sc
  /\ rotationY (snd (selectAnimation speed ac sc)) = rotationY sc
  /\ bones (fst (selectAnimation speed ac sc)) = bones ac
  /\ skeleton (fst (selectAnimation speed ac sc)) = skeleton ac
  /\ previousRotation (fst (selectAnimation speed ac sc))
     = previousRotation ac.
Proof.
  unfold selectAnimation.
  destruct (locomotionTarget speed) as [st rate].
  destruct (negb (AnimationState_eqb (currentState ac) st)).
  - unfold transitionToState.
    destruct (targetClip (animationClips ac) st) as [c | ];
      [ | repeat split; reflexivity ].
    unfold playAnimation. destruct (mixer ac); [ | repeat split; reflexivity ].
    destruct (currentAction ac) as [cur | ];
      [ destruct (negb (Action_eqb cur (clipAction c))) | ];
      repeat split; reflexivity.
  - destruct (currentAction ac); repeat split; reflexivity.
Qed.

Lemma updateSecondaryMotion_pose dt ac sc :
  let r := updateSecondaryMotion dt ac sc in
  (forall b,
      ~ In b (map BoneSpring.bone
                (SecondaryMotionController.springs (secondaryMotion ac))) ->
      pose (snd r) b = pose sc b)
  /\ (NoDup (map BoneSpring.bone
               (SecondaryMotionController.springs (secondaryMotion ac))) ->
      Forall (fun s' => pose (snd r) (BoneSpring.bone s') = springRotation s')
        (SecondaryMotionController.springs (secondaryMotion (fst r))))
  /\ position (snd r) = position sc
  /\ rotationY (snd r) = rotationY sc
  /\ bones (fst r) = bones ac.
Proof.
  unfold updateSecondaryMotion,
    SecondaryMotionController.hasSecondaryMotion.
  destruct (SecondaryMotionController.springs (secondaryMotion ac))
    as [ | s ss] eqn:Ess.
  - cbn [fst snd]. rewrite Ess. repeat split; auto.
  - pose proof (update_pose_spec dt (position sc) (secondaryMotion ac)
                  (pose sc)) as Hu.
    rewrite Ess in Hu.
    destruct (SecondaryMotionController.update dt (position sc)
                (secondaryMotion ac) (pose sc)) as [sm p].
    cbn [fst snd pose setPose secondaryMotion setSecondaryMotion position
           rotationY bones] in *.
    destruct Hu as [Hother Hown]. repeat split; auto.
Qed.

(** The rotations a frame leaves, with a mixer: every spring's rest
    reference is the rotation the mixer wrote to its bone; the spring's
    bone ends at the rotation the spring gives it from that reference; and
    a bone that has neither a spring nor a procedural role keeps the
    rotation the mixer wrote. *)
Lemma frame_writes mixerPose speed dt ac sc :
  mixer ac = true ->
  NoDup (map BoneSpring.bone
           (SecondaryMotionController.springs (secondaryMotion ac))) ->
  let r := updateFromSpeed mixerPose speed dt ac sc in
  let written :=
    pose (mixerUpdate mixerPose dt (snd (selectAnimation speed ac sc))) in
  Forall (fun s' =>
            BoneSpring.originalRotation s' = written (BoneSpring.bone s')
            /\ pose (snd r) (BoneSpring.bone s') = springRotation s')
    (SecondaryMotionController.springs (secondaryMotion (fst r)))
  /\ (forall b,
        ~ In b (map BoneSpring.bone
                  (SecondaryMotionController.springs (secondaryMotion ac))) ->
        ~ In b (proceduralTargets (bones ac)) ->
        pose (snd r) b = written b).
Proof.
  intros Hm Hnd.
  pose proof (frame_rest_reference mixerPose speed dt ac sc Hm) as Href.
  cbv zeta in Href.
  assert (Horig :
            Forall (fun s' =>
                      BoneSpring.originalRotation s'
                      = pose (mixerUpdate mixerPose dt
                                (snd (selectAnimation speed ac sc)))
                          (BoneSpring.bone s'))
              (SecondaryMotionController.springs
                 (secondaryMotion
                    (fst (updateFromSpeed mixerPose speed dt ac sc))))).
  { eapply Forall2_Forall_right; [ | exact Href ].
    intros s s' [q ->].
    destruct (update_keeps_rest dt
                (Some (SecondaryMotionController.currentVelocity
                         (secondaryMotion
                            (fst (updateFromSpeed mixerPose speed dt ac
                                    sc)))))
                (Some (SecondaryMotionController.currentAcceleration
                         (secondaryMotion
                            (fst (updateFromSpeed mixerPose speed dt ac
                                    sc)))))
                (BoneSpring.updateOriginalRotation s
                   (pose (mixerUpdate mixerPose dt
                            (snd (selectAnimation speed ac sc))))) q)
      as [Hb Ho].
    rewrite Hb, Ho. reflexivity. }
  clear Href. revert Horig.
  unfold updateFromSpeed. rewrite Hm. cbn [negb].
  pose proof (selectAnimation_keeps_springs speed ac sc) as Hsm.
  pose proof (selectAnimation_keeps_pose speed ac sc)
    as (_ & _ & _ & Hbones & _).
  destruct (selectAnimation speed ac sc) as [ac1 sc1].
  cbn [fst snd] in *.
  set (sc2 := mixerUpdate mixerPose dt sc1).
  set (ac3 := if SecondaryMotionController.hasSecondaryMotion
                   (secondaryMotion ac1)
              then _ else ac1).
  assert (H3 : map BoneSpring.bone
                 (SecondaryMotionController.springs (secondaryMotion ac3))
               = map BoneSpring.bone
                   (SecondaryMotionController.springs (secondaryMotion ac))
               /\ bones ac3 = bones ac).
  { unfold ac3, SecondaryMotionController.hasSecondaryMotion.
    rewrite <- Hsm, <- Hbones.
    destruct (SecondaryMotionController.springs (secondaryMotion ac1))
      eqn:E; cbn; rewrite ?E; [ auto | ].
    split; [ | reflexivity ]. f_equal. rewrite map_map. reflexivity. }
  destruct H3 as [H3s H3b].
  pose proof (applyProceduralOffsets_keeps speed dt ac3 sc2) as Hp.
  pose proof (fun b => applyProceduralOffsets_other speed dt ac3 sc2 b)
    as Hpo.
  destruct (applyProceduralOffsets speed dt ac3 sc2) as [ac4 sc4].
  cbn [fst snd] in Hp, Hpo. destruct Hp as (_ & _ & _ & _ & Hp & _).
  pose proof (updateSecondaryMotion_pose dt ac4 sc4) as Hu.
  cbv zeta in Hu. rewrite Hp, H3s in Hu.
  destruct Hu as (Hother & Hown & _).
  intros Horig. cbv zeta. split.
  - specialize (Hown Hnd). rewrite Forall_forall in *.
    intros s' Hin. split; [ now apply Horig | now apply Hown ].
  - intros b Hb Hpt. rewrite Hother by exact Hb.
    apply Hpo. rewrite H3b. exact Hpt.
Qed.

End FrameWrites.

(** X5.  In a frame of a controller with a mixer (spring bones distinct),
    a bone that has a spring ends the frame at the rotation its spring
    gives it from the rest reference, which is the rotation the mixer
    wrote: whatever the procedural layer wrote to that bone in between is
    overwritten.  A bone with neither a spring nor a procedural role ends
    the frame exactly as the mixer wrote it. *)
Theorem X5_frame_writes :
  forall (mixerPose : list Effect -> Pose -> Pose) (speed dt : R)
         (ac : AnimationController.t) (sc : Scene),
    AnimationController.mixer ac = true ->
    NoDup (map BoneSpring.bone
             (SecondaryMotionController.springs
                (AnimationController.secondaryMotion ac))) ->
    let r := AnimationController.updateFromSpeed mixerPose speed dt ac sc in
    let written :=
      pose (AnimationController.mixerUpdate mixerPose dt
              (snd (AnimationController.selectAnimation speed ac sc))) in
    Forall (fun s' =>
              BoneSpring.originalRotation s' = written (BoneSpring.bone s')
              /\ pose (snd r) (BoneSpring.bone s') = springRotation s')
      (SecondaryMotionController.springs
         (AnimationController.secondaryMotion (fst r)))
    /\ (forall b,
          ~ In b (map BoneSpring.bone
                    (SecondaryMotionController.springs
                       (AnimationController.secondaryMotion ac))) ->
          ~ In b (AnimationController.proceduralTargets
                    (AnimationController.bones ac)) ->
          pose (snd r) b = written b).
Proof. intros. now apply frame_writes. Qed.

Lemma X5_frame_writes_witness :
  Forall (fun s' =>
            BoneSpring.originalRotation s'
            = pose (AnimationController.mixerUpdate stillMixer 0.1
                      (snd (AnimationController.selectAnimation 0
                              riggedController turnedScene)))
                (BoneSpring.bone s')
            /\ pose (snd (AnimationController.updateFromSpeed stillMixer 0
                            0.1 riggedController turnedScene))
                 (BoneSpring.bone s')
               = springRotation s')
    (SecondaryMotionController.springs
       (AnimationController.secondaryMotion
          (fst (AnimationController.updateFromSpeed stillMixer 0 0.1
                  riggedController turnedScene)))).
Proof.
  apply (X5_frame_writes stillMixer 0 0.1 riggedController turnedScene
           eq_refl sample_springs_distinct).
Defined.


(** ** The spine's offset and the snapshot *)

Section StationaryFrame.

Import AnimationController.

Variable mixerPose : list Effect -> Pose -> Pose.

(** A frame of a character that stands where it stood, its springs at
    rest: every spring bone ends the frame at the rotation the mixer wrote,
    whatever the procedural layer wrote to it after the snapshot. *)
Lemma stationary_frame speed dt ac sc :
  mixer ac = true ->
  Forall atRest (SecondaryMotionController.springs (secondaryMotion ac)) ->
  SecondaryMotionController.previousVelocity (secondaryMotion ac)
  = Vector3.zero ->
  SecondaryMotionController.previousPosition (secondaryMotion ac)
  = position sc ->
  NoDup (map BoneSpring.bone
           (SecondaryMotionController.springs (secondaryMotion ac))) ->
  forall b,
    In b (map BoneSpring.bone
            (SecondaryMotionController.springs (secondaryMotion ac))) ->
    pose (snd (updateFromSpeed mixerPose speed dt ac sc)) b
    = pose (mixerUpdate mixerPose dt (snd (selectAnimation speed ac sc))) b.
Proof.
  intros Hm Hrest Hv Hp Hnd b Hb.
  unfold updateFromSpeed. rewrite Hm. cbn [negb].
  pose proof (selectAnimation_keeps_springs speed ac sc) as Hsm.
  pose proof (selectAnimation_keeps_pose speed ac sc) as (_ & Hpos1 & _).
  destruct (selectAnimation speed ac sc) as [ac1 sc1].
  cbn [fst snd] in *.
  set (sc2 := mixerUpdate mixerPose dt sc1).
  set (ac3 := if SecondaryMotionController.hasSecondaryMotion
                   (secondaryMotion ac1)
              then _ else ac1).
  assert (H3 : secondaryMotion ac3
               = SecondaryMotionController.onAnimationUpdate
                   (secondaryMotion ac) (pose sc2)).
  { unfold ac3, SecondaryMotionController.hasSecondaryMotion.
    rewrite Hsm.
    destruct (SecondaryMotionController.springs (secondaryMotion ac))
      eqn:E; [ destruct Hb | reflexivity ]. }
  pose proof (applyProceduralOffsets_keeps speed dt ac3 sc2) as Hk.
  destruct (applyProceduralOffsets speed dt ac3 sc2) as [ac4 sc4].
  cbn [fst snd] in Hk. destruct Hk as (_ & _ & _ & _ & Hk & _ & Hpos4).
  unfold updateSecondaryMotion. rewrite Hk, H3.
  set (c := SecondaryMotionController.onAnimationUpdate (secondaryMotion ac)
              (pose sc2)).
  assert (Hsprings : SecondaryMotionController.springs c
                     = map (fun s => BoneSpring.updateOriginalRotation s
                                       (pose sc2))
                         (SecondaryMotionController.springs
                            (secondaryMotion ac))) by reflexivity.
  assert (Hbones : map BoneSpring.bone (SecondaryMotionController.springs c)
                   = map BoneSpring.bone
                       (SecondaryMotionController.springs
                          (secondaryMotion ac))).
  { rewrite Hsprings, map_map. reflexivity. }
  assert (Hrest' : Forall atRest (SecondaryMotionController.springs c)).
  { rewrite Hsprings. apply Forall_map.
    eapply Forall_impl; [ | exact Hrest ]. intros s Hs. exact Hs. }
  assert (Hpos : SecondaryMotionController.previousPosition c = position sc4).
  { cbn [c SecondaryMotionController.onAnimationUpdate
           SecondaryMotionController.previousPosition].
    rewrite Hp, Hpos4. subst sc2. cbn [mixerUpdate position]. now rewrite Hpos1. }
  assert (Hnd' : NoDup (map BoneSpring.bone
                          (SecondaryMotionController.springs c)))
    by (rewrite Hbones; exact Hnd).
  destruct (stationary_update dt (position sc4) c (pose sc4) Hrest' Hv Hpos
              Hnd') as (_ & _ & _ & Hown & _).
  assert (Hhas : SecondaryMotionController.hasSecondaryMotion c = true).
  { unfold SecondaryMotionController.hasSecondaryMotion.
    rewrite Hsprings.
    destruct (SecondaryMotionController.springs (secondaryMotion ac));
      [ destruct Hb | reflexivity ]. }
  rewrite Hhas.
  destruct (SecondaryMotionController.update dt (position sc4) c (pose sc4))
    as [sm p'].
  cbn [fst snd pose setPose] in *.
  rewrite Hsprings in Hown. rewrite Forall_map in Hown.
  rewrite Forall_forall in Hown.
  apply in_map_iff in Hb. destruct Hb as (s0 & <- & Hin).
  exact (Hown s0 Hin).
Qed.

End StationaryFrame.

(** C4.  The rest snapshot is taken before the procedural offset layer
    runs, not after it, and the spine's inertia offset is lost for it.  In
    the sample frame (the model has turned by one radian within 0.1 s, the
    spine being both a target of the layer and the bone of a spring) the
    rest reference of the spine's spring at the end of the frame is the
    rotation the mixer wrote; the layer has turned the spine away from that
    rotation in the same frame; and the spine ends the frame at the
    rotation the mixer wrote: the counter-rotation the layer computed never
    reaches the pose. *)
Theorem C4_spine_offset_is_discarded :
  AnimationController.spine (AnimationController.bones riggedController)
  = Some 0%nat
  /\ (exists s' : BoneSpring.t,
        In s' (SecondaryMotionController.springs
                 (AnimationController.secondaryMotion
                    (fst (AnimationController.updateFromSpeed stillMixer 0
                            0.1 riggedController turnedScene))))
        /\ BoneSpring.bone s' = 0%nat
        /\ BoneSpring.originalRotation s'
           = pose (AnimationController.mixerUpdate stillMixer 0.1
                     (snd (AnimationController.selectAnimation 0
                             riggedController turnedScene))) 0%nat)
  /\ pose (AnimationController.mixerUpdate stillMixer 0.1
             (snd (AnimationController.selectAnimation 0 riggedController
                     turnedScene))) 0%nat
     <> pose (snd (AnimationController.applyProceduralOffsets 0 0.1
                     riggedController
                     (AnimationController.mixerUpdate stillMixer 0.1
                        (snd (AnimationController.selectAnimation 0
                                riggedController turnedScene))))) 0%nat
  /\ pose (snd (AnimationController.updateFromSpeed stillMixer 0 0.1
                  riggedController turnedScene)) 0%nat
     = pose (AnimationController.mixerUpdate stillMixer 0.1
               (snd (AnimationController.selectAnimation 0 riggedController
                       turnedScene))) 0%nat.
Proof.
  split; [ reflexivity | ]. split; [ | split ].
  - pose proof (rest_snapshot_follows_mixer stillMixer 0 0.1
                  riggedController turnedScene eq_refl) as H.
    cbv zeta in H.
    assert (Hb : map BoneSpring.bone
                   (SecondaryMotionController.springs
                      (AnimationController.secondaryMotion
                         (fst (AnimationController.updateFromSpeed
                                 stillMixer 0 0.1 riggedController
                                 turnedScene))))
                 = map BoneSpring.bone
                     (SecondaryMotionController.springs
                        (AnimationController.secondaryMotion
                           riggedController))).
    { apply Forall2_map_eq. eapply Forall2_impl; [ | exact H ].
      intros s s' (Hbone & _). exact Hbone. }
    assert (Hin : In 0%nat
                    (map BoneSpring.bone
                       (SecondaryMotionController.springs
                          (AnimationController.secondaryMotion
                             (fst (AnimationController.updateFromSpeed
                                     stillMixer 0 0.1 riggedController
                                     turnedScene))))))
      by (rewrite Hb; cbn; auto).
    apply in_map_iff in Hin. destruct Hin as (s' & Hbone & Hin).
    exists s'. split; [ exact Hin | ]. split; [ exact Hbone | ].
    assert (Hall : Forall (fun s' =>
                             BoneSpring.originalRotation s'
                             = pose (AnimationController.mixerUpdate
                                       stillMixer 0.1
                                       (snd (AnimationController.selectAnimation
                                               0 riggedController
                                               turnedScene)))
                                 (BoneSpring.bone s'))
                     (SecondaryMotionController.springs
                        (AnimationController.secondaryMotion
                           (fst (AnimationController.updateFromSpeed
                                   stillMixer 0 0.1 riggedController
                                   turnedScene))))).
    { eapply Forall2_Forall_right; [ | exact H ].
      intros s s0 (Hbone0 & Ho & _). now rewrite Hbone0. }
    rewrite Forall_forall in Hall. rewrite (Hall s' Hin), Hbone.
    reflexivity.
  - exact sample_layer_turns_spine.
  - apply (stationary_frame stillMixer 0 0.1 riggedController turnedScene).
    + reflexivity.
    + exact sample_springs_atRest.
    + reflexivity.
    + reflexivity.
    + exact sample_springs_distinct.
    + cbn. auto.
Qed.

(** ** Rotations stay unit quaternions *)

Lemma sin_cos_sq (x : R) : sin x * sin x + cos x * cos x = 1.
Proof. pose proof (sin2_cos2 x) as H. unfold Rsqr in H. exact H. Qed.

Lemma lengthSq_multiply (a b : Quaternion.t) :
  quaternionLengthSq (Quaternion.multiply a b)
  = quaternionLengthSq a * quaternionLengthSq b.
Proof.
  unfold quaternionLengthSq, Quaternion.multiply. cbn. ring.
Qed.

Lemma unit_multiply (a b : Quaternion.t) :
  unitRotation a -> unitRotation b -> unitRotation (Quaternion.multiply a b).
Proof.
  unfold unitRotation. intros Ha Hb. rewrite lengthSq_multiply, Ha, Hb. ring.
Qed.

Lemma unit_setFromEuler (ex ey ez : R) :
  unitRotation (Quaternion.setFromEuler ex ey ez).
Proof.
  unfold unitRotation, quaternionLengthSq, Quaternion.setFromEuler.
  cbv zeta. cbn.
  pose proof (sin_cos_sq (ex / 2)) as H1.
  pose proof (sin_cos_sq (ey / 2)) as H2.
  pose proof (sin_cos_sq (ez / 2)) as H3.
  set (s1 := sin (ex / 2)) in *. set (c1 := cos (ex / 2)) in *.
  set (s2 := sin (ey / 2)) in *. set (c2 := cos (ey / 2)) in *.
  set (s3 := sin (ez / 2)) in *. set (c3 := cos (ez / 2)) in *.
  replace 1 with ((s1 * s1 + c1 * c1) * (s2 * s2 + c2 * c2)
                  * (s3 * s3 + c3 * c3))
    by (rewrite H1, H2, H3; ring).
  ring.
Qed.

Lemma unit_setFromAxisAngle (axis : Vector3.t) (angle : R) :
  Vector3.x axis * Vector3.x axis + Vector3.y axis * Vector3.y axis
  + Vector3.z axis * Vector3.z axis = 1 ->
  unitRotation (Quaternion.setFromAxisAngle axis angle).
Proof.
  intros H.
  unfold unitRotation, quaternionLengthSq, Quaternion.setFromAxisAngle.
  cbv zeta. cbn.
  pose proof (sin_cos_sq (angle / 2)) as Hs.
  set (s := sin (angle / 2)) in *. set (c := cos (angle / 2)) in *.
  replace (Vector3.x axis * s * (Vector3.x axis * s)
           + Vector3.y axis * s * (Vector3.y axis * s)
           + Vector3.z axis * s * (Vector3.z axis * s) + c * c)
    with ((Vector3.x axis * Vector3.x axis + Vector3.y axis * Vector3.y axis
           + Vector3.z axis * Vector3.z axis) * (s * s) + c * c) by ring.
  rewrite H. lra.
Qed.

(** A normalised vector of positive length has length one. *)
Lemma normalize_unit (v : Vector3.t) :
  0 < Vector3.length v ->
  Vector3.x (Vector3.normalize v) * Vector3.x (Vector3.normalize v)
  + Vector3.y (Vector3.normalize v) * Vector3.y (Vector3.normalize v)
  + Vector3.z (Vector3.normalize v) * Vector3.z (Vector3.normalize v) = 1.
Proof.
  intros Hv. unfold Vector3.normalize, Vector3.divideScalar.
  destruct (Req_dec_T (Vector3.length v) 0) as [E | _]; [ lra | ].
  assert (Hsq : Vector3.length v * Vector3.length v
                = Vector3.x v * Vector3.x v + Vector3.y v * Vector3.y v
                  + Vector3.z v * Vector3.z v).
  { unfold Vector3.length. apply sqrt_sqrt. nra. }
  cbn. set (l := Vector3.length v) in *.
  replace (Vector3.x v * (1 / l) * (Vector3.x v * (1 / l))
           + Vector3.y v * (1 / l) * (Vector3.y v * (1 / l))
           + Vector3.z v * (1 / l) * (Vector3.z v * (1 / l)))
    with ((Vector3.x v * Vector3.x v + Vector3.y v * Vector3.y v
           + Vector3.z v * Vector3.z v) * (1 / l * (1 / l))) by ring.
  rewrite <- Hsq. field. lra.
Qed.

Lemma unit_springRotation (s : BoneSpring.t) :
  unitRotation (BoneSpring.originalRotation s) ->
  unitRotation (springRotation s).
Proof.
  intros H. unfold springRotation, BoneSpring.applyDisplacement. cbv zeta.
  destruct (gtb_R (Vector3.length (BoneSpring.displacement s)) 0.001)
    eqn:E; rewrite setQuaternion_same; [ | exact H ].
  apply gtb_R_true in E.
  apply unit_multiply; [ exact H | ].
  apply unit_setFromAxisAngle, normalize_unit. lra.
Qed.

Section UnitRotations.

Import AnimationController.

Let unitPose (p : Pose) : Prop := forall b, unitRotation (p b).

Let unitRest (ss : list BoneSpring.t) : Prop :=
  Forall (fun s => unitRotation (BoneSpring.originalRotation s)) ss.

Lemma unit_setQuaternion p b q :
  unitPose p -> unitRotation q -> unitPose (setQuaternion p b q).
Proof.
  intros Hp Hq b'. unfold setQuaternion.
  destruct (Nat.eqb b' b); [ exact Hq | apply Hp ].
Qed.

Lemma unit_applyDisplacement s p :
  unitRotation (BoneSpring.originalRotation s) ->
  unitPose p -> unitPose (BoneSpring.applyDisplacement s p).
Proof.
  intros Hs Hp b. destruct (Nat.eq_dec b (BoneSpring.bone s)) as [-> | Hne].
  - rewrite applyDisplacement_own. now apply unit_springRotation.
  - rewrite applyDisplacement_other by exact Hne. apply Hp.
Qed.

Lemma unit_updateSprings dt v a : forall ss p,
  unitRest ss -> unitPose p ->
  unitRest (fst (SecondaryMotionController.updateSprings dt v a ss p))
  /\ unitPose (snd (SecondaryMotionController.updateSprings dt v a ss p)).
Proof.
  induction ss as [ | s ss IH]; intros p Hss Hp;
    cbn [SecondaryMotionController.updateSprings].
  - split; [ constructor | exact Hp ].
  - inversion Hss as [ | s0 ss0 Hs Hss']; subst.
    pose proof (update_pose dt (Some v) (Some a) s p) as Hpose.
    pose proof (update_keeps_rest dt (Some v) (Some a) s p) as [_ Ho].
    destruct (BoneSpring.update dt (Some v) (Some a) s p) as [s1 p1].
    cbn [fst snd] in Hpose, Ho.
    assert (Hs1 : unitRotation (BoneSpring.originalRotation s1))
      by (rewrite Ho; exact Hs).
    assert (Hp1 : unitPose p1)
      by (rewrite Hpose; now apply unit_applyDisplacement).
    specialize (IH p1 Hss' Hp1).
    destruct (SecondaryMotionController.updateSprings dt v a ss p1)
      as [ss1 p2].
    cbn [fst snd] in *. destruct IH as [IH1 IH2].
    split; [ constructor; assumption | exact IH2 ].
Qed.

Lemma unit_updateSecondaryMotion dt ac sc :
  unitRest (SecondaryMotionController.springs (secondaryMotion ac)) ->
  unitPose (pose sc) ->
  let r := updateSecondaryMotion dt ac sc in
  unitRest (SecondaryMotionController.springs (secondaryMotion (fst r)))
  /\ unitPose (pose (snd r)).
Proof.
  intros Hss Hp.
  unfold updateSecondaryMotion,
    SecondaryMotionController.hasSecondaryMotion,
    SecondaryMotionController.update.
  destruct (SecondaryMotionController.springs (secondaryMotion ac))
    as [ | s ss] eqn:Ess.
  - cbn [fst snd]. rewrite Ess. split; [ constructor | exact Hp ].
  - set (c1 := SecondaryMotionController.updateCharacterMotion dt
                 (position sc) (secondaryMotion ac)).
    assert (Hc1 : SecondaryMotionController.springs c1 = s :: ss)
      by (unfold c1; cbn; exact Ess).
    pose proof (unit_updateSprings dt
                  (SecondaryMotionController.currentVelocity c1)
                  (SecondaryMotionController.currentAcceleration c1)
                  (SecondaryMotionController.springs c1) (pose sc)) as Hu.
    rewrite Hc1 in Hu. specialize (Hu Hss Hp). rewrite Hc1.
    destruct (SecondaryMotionController.updateSprings dt
                (SecondaryMotionController.currentVelocity c1)
                (SecondaryMotionController.currentAcceleration c1)
                (s :: ss) (pose sc)) as [ss1 p1].
    cbn [fst snd pose setPose secondaryMotion setSecondaryMotion
           SecondaryMotionController.springs] in *.
    exact Hu.
Qed.

Lemma unit_applyProceduralOffsets speed dt ac sc :
  unitPose (pose sc) ->
  unitPose (pose (snd (applyProceduralOffsets speed dt ac sc))).
Proof.
  intros Hp. unfold applyProceduralOffsets.
  destruct (negb (skeleton ac) || leb_R dt 0 || gtb_R dt 0.1);
    [ exact Hp | ].
  cbv zeta. cbn [snd pose setPose].
  destruct (gtb_R (Rabs ((rotationY sc - previousRotation ac) / dt)) 0.1);
    destruct (spine (bones ac)) as [sp | ];
    destruct (head (bones ac)) as [hd | ];
    destruct (leftShoulder (bones ac)) as [ls | ];
    destruct (rightShoulder (bones ac)) as [rs | ];
    repeat first
      [ exact Hp
      | apply unit_setQuaternion
      | apply unit_multiply
      | apply unit_setFromEuler
      | match goal with
        | |- unitRotation (setQuaternion _ _ _ _) => apply unit_setQuaternion
        | |- unitRotation (pose sc _) => apply Hp
        end ].
Qed.

(** One frame keeps every rotation a unit quaternion, with a mixer that
    does. *)
Lemma unit_updateFromSpeed mixerPose speed dt ac sc :
  (forall log p, unitPose p -> unitPose (mixerPose log p)) ->
  unitRest (SecondaryMotionController.springs (secondaryMotion ac)) ->
  unitPose (pose sc) ->
  let r := updateFromSpeed mixerPose speed dt ac sc in
  unitRest (SecondaryMotionController.springs (secondaryMotion (fst r)))
  /\ unitPose (pose (snd r)).
Proof.
  intros Hmix Hss Hp. unfold updateFromSpeed.
  destruct (mixer ac); cbn [negb];
    [ | now apply unit_updateSecondaryMotion ].
  pose proof (selectAnimation_keeps_springs speed ac sc) as Hsm.
  pose proof (selectAnimation_keeps_pose speed ac sc) as (Hpose & _).
  destruct (selectAnimation speed ac sc) as [ac1 sc1].
  cbn [fst snd] in *.
  set (sc2 := mixerUpdate mixerPose dt sc1).
  assert (Hp2 : unitPose (pose sc2)).
  { unfold sc2, mixerUpdate. cbn [pose]. apply Hmix.
    rewrite Hpose. exact Hp. }
  set (ac3 := if SecondaryMotionController.hasSecondaryMotion
                   (secondaryMotion ac1)
              then _ else ac1).
  assert (H3 : unitRest (SecondaryMotionController.springs
                           (secondaryMotion ac3))).
  { unfold ac3.
    destruct (SecondaryMotionController.hasSecondaryMotion
                (secondaryMotion ac1)).
    - cbn. apply Forall_map, Forall_forall. intros s _. cbn. apply Hp2.
    - rewrite Hsm. exact Hss. }
  pose proof (applyProceduralOffsets_keeps speed dt ac3 sc2) as Hk.
  pose proof (unit_applyProceduralOffsets speed dt ac3 sc2 Hp2) as Hu.
  destruct (applyProceduralOffsets speed dt ac3 sc2) as [ac4 sc4].
  cbn [fst snd] in Hk, Hu. destruct Hk as (_ & _ & _ & _ & Hk & _).
  apply unit_updateSecondaryMotion; [ rewrite Hk; exact H3 | exact Hu ].
Qed.

Lemma unit_frames mixerPose fs : forall ac sc,
  (forall log p, unitPose p -> unitPose (mixerPose log p)) ->
  unitRest (SecondaryMotionController.springs (secondaryMotion ac)) ->
  unitPose (pose sc) ->
  let r := frames mixerPose fs ac sc in
  unitRest (SecondaryMotionController.springs (secondaryMotion (fst r)))
  /\ unitPose (pose (snd r)).
Proof.
  induction fs as [ | [speed dt] fs IH]; intros ac sc Hmix Hss Hp;
    cbn [frames].
  - split; assumption.
  - pose proof (unit_updateFromSpeed mixerPose speed dt ac sc Hmix Hss Hp)
      as Hu.
    destruct (updateFromSpeed mixerPose speed dt ac sc) as [ac1 sc1].
    cbn [fst snd] in Hu. destruct Hu as [Hu1 Hu2].
    now apply IH.
Qed.

End UnitRotations.

(** X6.  Rotations stay unit quaternions: if the mixer turns unit poses
    into unit poses, and the pose and the springs' rest references are
    unit quaternions to begin with, then after any run of frames (with any
    speeds and delta times, with or without a mixer) every bone rotation
    and every rest reference is still a unit quaternion: neither the
    procedural offsets nor the springs denormalise a rotation. *)
Theorem X6_rotations_stay_unit :
  forall (mixerPose : list Effect -> Pose -> Pose) (fs : list (R * R))
         (ac : AnimationController.t) (sc : Scene),
    (forall log p,
        (forall b, unitRotation (p b)) ->
        forall b, unitRotation (mixerPose log p b)) ->
    Forall (fun s => unitRotation (BoneSpring.originalRotation s))
      (SecondaryMotionController.springs
         (AnimationController.secondaryMotion ac)) ->
    (forall b, unitRotation (pose sc b)) ->
    let r := AnimationController.frames mixerPose fs ac sc in
    Forall (fun s => unitRotation (BoneSpring.originalRotation s))
      (SecondaryMotionController.springs
         (AnimationController.secondaryMotion (fst r)))
    /\ (forall b, unitRotation (pose (snd r) b)).
Proof. intros. now apply unit_frames. Qed.

Lemma unit_identity : unitRotation Quaternion.identity.
Proof. unfold unitRotation, quaternionLengthSq. cbn. ring. Qed.

Lemma sample_rest_unit :
  Forall (fun s => unitRotation (BoneSpring.originalRotation s))
    (SecondaryMotionController.springs
       (AnimationController.secondaryMotion riggedController)).
Proof. cbn. repeat constructor; apply unit_identity. Qed.

Lemma X6_rotations_stay_unit_witness :
  unitRotation
    (pose (snd (AnimationController.frames stillMixer
                  [(2, 0.016); (5, 0.5)] riggedController turnedScene))
       0%nat).
Proof.
  apply (X6_rotations_stay_unit stillMixer [(2, 0.016); (5, 0.5)]
           riggedController turnedScene).
  - intros log p Hp. exact Hp.
  - exact sample_rest_unit.
  - intros b. apply unit_identity.
Defined.

(** ** Discovery of the bones with secondary motion *)

Section Discovery.

Import Construction.

Lemma collectBones_spec : forall bones hairBones clothBones upperBodyBones,
  collectBones bones hairBones clothBones upperBodyBones
  = (hairBones ++ bonesOfType HAIR bones,
     clothBones ++ bonesOfType CLOTH bones,
     upperBodyBones ++ bonesOfType UPPER_BODY bones).
Proof.
  unfold bonesOfType.
  induction bones as [ | bone bones IH]; intros h c u; cbn [collectBones].
  - cbn. now rewrite !app_nil_r.
  - cbn [filter].
    destruct (classify bone) as [[ | | ] | ]; rewrite IH; cbn;
      rewrite <- ?app_assoc; reflexivity.
Qed.

Lemma newSecondaryMotionController_springs m p :
  SecondaryMotionController.springs (newSecondaryMotionController m p)
  = map (fun b => BoneSpring.new b HAIR (typeConfig HAIR) p)
      (bonesOfType HAIR (model_bones m))
    ++ map (fun b => BoneSpring.new b CLOTH (typeConfig CLOTH) p)
         (bonesOfType CLOTH (model_bones m))
    ++ map (fun b => BoneSpring.new b UPPER_BODY (typeConfig UPPER_BODY) p)
         (bonesOfType UPPER_BODY (model_bones m)).
Proof.
  unfold newSecondaryMotionController. rewrite collectBones_spec.
  reflexivity.
Qed.

Lemma SecondaryMotionType_eqb_eq a b :
  SecondaryMotionType_eqb a b = true <-> a = b.
Proof. destruct a, b; cbn; split; intros; congruence. Qed.

Lemma in_bonesOfType ty bones b :
  In b (bonesOfType ty bones)
  <-> exists bone, In bone bones /\ classify bone = Some ty
                   /\ boneId bone = b.
Proof.
  unfold bonesOfType. rewrite in_map_iff. split.
  - intros (bone & Hid & Hin). apply filter_In in Hin.
    destruct Hin as [Hin Hc]. exists bone.
    destruct (classify bone) as [t | ]; [ | discriminate ].
    apply SecondaryMotionType_eqb_eq in Hc. subst. auto.
  - intros (bone & Hin & Hc & Hid). exists bone. split; [ exact Hid | ].
    apply filter_In. split; [ exact Hin | ]. rewrite Hc.
    now apply SecondaryMotionType_eqb_eq.
Qed.

Lemma bonesOfType_cons ty bone bones :
  bonesOfType ty (bone :: bones)
  = match classify bone with
    | Some t =>
        if SecondaryMotionType_eqb t ty
        then boneId bone :: bonesOfType ty bones
        else bonesOfType ty bones
    | None => bonesOfType ty bones
    end.
Proof.
  unfold bonesOfType. cbn [filter].
  destruct (classify bone) as [t | ]; [ | reflexivity ].
  destruct (SecondaryMotionType_eqb t ty); reflexivity.
Qed.

(** The three lists of bones are parts of the traversal that do not
    overlap. *)
Lemma bonesOfType_NoDup : forall bones,
  NoDup (map boneId bones) ->
  NoDup (bonesOfType HAIR bones ++ bonesOfType CLOTH bones
         ++ bonesOfType UPPER_BODY bones).
Proof.
  induction bones as [ | bone bones IH]; intros Hnd.
  - constructor.
  - cbn [map] in Hnd. apply NoDup_cons_iff in Hnd.
    destruct Hnd as [Hnot Hnd]. specialize (IH Hnd).
    assert (Hfresh : forall ty, ~ In (boneId bone) (bonesOfType ty bones)).
    { intros ty Hin. apply in_bonesOfType in Hin.
      destruct Hin as (b' & Hin & _ & Hid). apply Hnot.
      rewrite <- Hid. now apply in_map. }
    assert (Hnotin : ~ In (boneId bone)
                       (bonesOfType HAIR bones ++ bonesOfType CLOTH bones
                        ++ bonesOfType UPPER_BODY bones)).
    { rewrite !in_app_iff. intros [H | [H | H]]; eapply Hfresh; exact H. }
    rewrite !bonesOfType_cons.
    destruct (classify bone) as [[ | | ] | ]; cbn [SecondaryMotionType_eqb].
    + cbn. constructor; assumption.
    + apply (NoDup_Add (Add_app (boneId bone) (bonesOfType HAIR bones)
                          (bonesOfType CLOTH bones
                           ++ bonesOfType UPPER_BODY bones))).
      split; assumption.
    + rewrite app_assoc.
      apply (NoDup_Add (Add_app (boneId bone)
                          (bonesOfType HAIR bones ++ bonesOfType CLOTH bones)
                          (bonesOfType UPPER_BODY bones))).
      rewrite <- app_assoc. split; assumption.
    + exact IH.
Qed.

End Discovery.

Lemma bonesOfType_length bones :
  (List.length (bonesOfType HAIR bones)
   + List.length (bonesOfType CLOTH bones)
   + List.length (bonesOfType UPPER_BODY bones)
   <= List.length bones)%nat.
Proof.
  induction bones as [ | bone bones IH]; [ cbn; lia | ].
  rewrite !bonesOfType_cons.
  destruct (Construction.classify bone) as [[ | | ] | ];
    cbn [SecondaryMotionType_eqb List.length]; lia.
Qed.

(** X7.  [discoverAndSetupBones] builds exactly one spring for every bone
    whose lower-cased name matches a keyword group, of the first group
    that matches (hair, then cloth, then upper body), with that type's
    profile, at rest and with the bone's current rotation as rest
    reference, and none for any other bone; distinct bones give springs on
    distinct bones, and there are never more springs than bones. *)
Theorem X7_one_spring_per_classified_bone :
  forall (m : Model) (p : Pose),
    let springs :=
      SecondaryMotionController.springs
        (Construction.newSecondaryMotionController m p) in
    (forall s,
        In s springs
        <-> exists bone ty,
              In bone (model_bones m)
              /\ Construction.classify bone = Some ty
              /\ s = BoneSpring.new (boneId bone) ty (typeConfig ty) p)
    /\ (NoDup (map boneId (model_bones m)) ->
        NoDup (map BoneSpring.bone springs))
    /\ (List.length springs <= List.length (model_bones m))%nat.
Proof.
  intros m p springs. unfold springs.
  rewrite newSecondaryMotionController_springs.
  split; [ | split ].
  - intros s. rewrite !in_app_iff, !in_map_iff. split.
    + intros [(b & Hs & Hin) | [(b & Hs & Hin) | (b & Hs & Hin)]];
        apply in_bonesOfType in Hin;
        destruct Hin as (bone & Hin & Hc & Hid); subst b;
        exists bone; eexists; repeat split; eauto.
    + intros (bone & ty & Hin & Hc & Hs).
      assert (Hb : In (boneId bone) (bonesOfType ty (model_bones m)))
        by (apply in_bonesOfType; eauto).
      destruct ty; [ left | right; left | right; right ];
        exists (boneId bone); auto.
  - intros Hnd. rewrite !map_app, !map_map.
    cbn [BoneSpring.new BoneSpring.bone]. rewrite !map_id.
    now apply bonesOfType_NoDup.
  - rewrite !length_app, !length_map.
    pose proof (bonesOfType_length (model_bones m)). lia.
Qed.

Lemma sampleBones_distinct : NoDup (map boneId sampleBones).
Proof. cbn. repeat constructor; cbn; intuition discriminate. Qed.

Lemma X7_one_spring_per_classified_bone_witness :
  NoDup (map BoneSpring.bone
           (SecondaryMotionController.springs
              (Construction.newSecondaryMotionController sampleModel
                 restPose))).
Proof.
  apply (X7_one_spring_per_classified_bone sampleModel restPose).
  exact sampleBones_distinct.
Defined.

(** X8.  A model none of whose bones matches a keyword has no spring, and
    its coordinator does nothing: [update] returns the coordinator and the
    pose as they were, for every delta time and model position. *)
Theorem X8_no_keyword_no_motion :
  forall (m : Model) (p : Pose),
    (forall bone, In bone (model_bones m) ->
                  Construction.classify bone = None) ->
    let c := Construction.newSecondaryMotionController m p in
    SecondaryMotionController.springs c = []
    /\ SecondaryMotionController.hasSecondaryMotion c = false
    /\ forall dt pos q,
         SecondaryMotionController.update dt pos c q = (c, q).
Proof.
  intros m p Hnone c.
  assert (Hempty : forall ty, bonesOfType ty (model_bones m) = []).
  { intros ty. destruct (bonesOfType ty (model_bones m)) as [ | b l] eqn:E;
      [ reflexivity | ].
    assert (Hin : In b (bonesOfType ty (model_bones m)))
      by (rewrite E; now left).
    apply in_bonesOfType in Hin. destruct Hin as (bone & Hin & Hc & _).
    rewrite (Hnone bone Hin) in Hc. discriminate. }
  assert (Hs : SecondaryMotionController.springs c = []).
  { unfold c. rewrite newSecondaryMotionController_springs, !Hempty.
    reflexivity. }
  split; [ exact Hs | ].
  unfold SecondaryMotionController.hasSecondaryMotion,
    SecondaryMotionController.update.
  rewrite Hs. split; [ reflexivity | intros; reflexivity ].
Qed.

Lemma X8_no_keyword_no_motion_witness :
  SecondaryMotionController.springs
    (Construction.newSecondaryMotionController
       (mkModel false [] [] [mkBone 7%nat "LeftFoot"; mkBone 8%nat "Jaw"]%string)
       restPose) = [].
Proof.
  apply (X8_no_keyword_no_motion
           (mkModel false [] [] [mkBone 7%nat "LeftFoot"; mkBone 8%nat "Jaw"]%string)
           restPose).
  cbn. intros bone [<- | [<- | []]]; reflexivity.
Defined.

(** ** Discovery of the key bones *)

Section KeyBones.

Import Construction.

Lemma isNull_true {A : Type} (o : option A) : isNull o = true -> o = None.
Proof. destruct o; [ discriminate | reflexivity ]. Qed.

(** The branch of [findKeyBone] that fills role [i], from its test [E]. *)
Ltac fill_role i E :=
  right; exists i;
  apply andb_true_iff in E; destruct E as [Em En];
  apply isNull_true in En;
  split; [ exact En | ];
  split; [ reflexivity | ];
  split; [ cbn [roleMatches]; try exact Em | ];
  [ .. | intros j Hj;
         do 8 (destruct j as [ | j]; try reflexivity; try congruence) ].

(** One bone fills at most one role, a role that was empty and whose test
    its name passes; the other roles stay as they are. *)
Lemma findKeyBone_step kb bone :
  findKeyBone kb bone = kb
  \/ exists i,
       keyBone i kb = None
       /\ keyBone i (findKeyBone kb bone) = Some (boneId bone)
       /\ roleMatches i (toLowerCase (boneName bone)) = true
       /\ forall j, j <> i ->
            keyBone j (findKeyBone kb bone) = keyBone j kb.
Proof.
  unfold findKeyBone. cbv zeta.
  set (name := toLowerCase (boneName bone)).
  destruct (includes name "spine" && isNull (AnimationController.spine kb))
    eqn:E0; [ fill_role 0%nat E0 | ].
  destruct ((includes name "chest" || includes name "upperchest")
            && isNull (AnimationController.chest kb))
    eqn:E1; [ fill_role 1%nat E1 | ].
  destruct (includes name "neck" && isNull (AnimationController.neck kb))
    eqn:E2; [ fill_role 2%nat E2 | ].
  destruct (includes name "head" && isNull (AnimationController.head kb))
    eqn:E3; [ fill_role 3%nat E3 | ].
  destruct ((includes name "shoulder" || includes name "clavicle")
            && includes name "left"
            && isNull (AnimationController.leftShoulder kb))
    eqn:E4; [ fill_role 4%nat E4 | ].
  destruct ((includes name "shoulder" || includes name "clavicle")
            && includes name "right"
            && isNull (AnimationController.rightShoulder kb))
    eqn:E5; [ fill_role 5%nat E5 | ].
  destruct ((includes name "hips" || includes name "pelvis")
            && isNull (AnimationController.hips kb))
    eqn:E6; [ fill_role 6%nat E6 | ].
  left. reflexivity.
Qed.

(** What the loop of [findKeyBones] keeps true: every filled role holds a
    bone met so far whose name passes the role's test, and no bone holds
    two roles. *)
Let sound (kb : AnimationController.KeyBones) (met : list Bone) : Prop :=
  forall i b,
    keyBone i kb = Some b ->
    exists bone,
      In bone met /\ boneId bone = b
      /\ roleMatches i (toLowerCase (boneName bone)) = true.

Let apart (kb : AnimationController.KeyBones) : Prop :=
  forall i j b,
    i <> j -> keyBone i kb = Some b -> keyBone j kb = Some b -> False.

Lemma findKeyBones_sound : forall bones met kb,
  sound kb met -> sound (findKeyBones bones kb) (met ++ bones).
Proof.
  unfold findKeyBones.
  induction bones as [ | bone bones IH]; intros met kb H; cbn [fold_left].
  - now rewrite app_nil_r.
  - replace (met ++ bone :: bones) with ((met ++ [bone]) ++ bones)
      by (rewrite <- app_assoc; reflexivity).
    apply IH. intros i b Hi.
    destruct (findKeyBone_step kb bone) as [E | (k & Hnone & Hsome & Hm & Hrest)].
    + rewrite E in Hi. destruct (H i b Hi) as (bn & Hin & Hid & Hr).
      exists bn. rewrite in_app_iff. auto.
    + destruct (Nat.eq_dec i k) as [-> | Hne].
      * rewrite Hsome in Hi. inversion Hi; subst.
        exists bone. rewrite in_app_iff. cbn. auto.
      * rewrite (Hrest i Hne) in Hi.
        destruct (H i b Hi) as (bn & Hin & Hid & Hr).
        exists bn. rewrite in_app_iff. auto.
Qed.

Lemma findKeyBones_apart : forall bones met kb,
  NoDup (map boneId (met ++ bones)) ->
  sound kb met -> apart kb -> apart (findKeyBones bones kb).
Proof.
  unfold findKeyBones.
  induction bones as [ | bone bones IH]; intros met kb Hnd Hs Ha;
    cbn [fold_left]; [ exact Ha | ].
  assert (Hnd' : NoDup (map boneId ((met ++ [bone]) ++ bones)))
    by (rewrite <- app_assoc; exact Hnd).
  apply (IH (met ++ [bone]) _ Hnd').
  - pose proof (findKeyBones_sound [bone] met kb Hs) as H1. exact H1.
  - assert (Hfresh : forall i, keyBone i kb <> Some (boneId bone)).
    { intros i Hi. destruct (Hs i _ Hi) as (bn & Hin & Hid & _).
      rewrite map_app in Hnd. cbn [map] in Hnd.
      apply NoDup_remove_2 in Hnd. apply Hnd.
      rewrite in_app_iff. left. rewrite <- Hid. now apply in_map. }
    destruct (findKeyBone_step kb bone)
      as [E | (k & Hnone & Hsome & Hm & Hrest)]; [ now rewrite E | ].
    intros i j b Hij Hi Hj.
    destruct (Nat.eq_dec i k) as [-> | Hik];
      destruct (Nat.eq_dec j k) as [-> | Hjk]; try congruence.
    + rewrite Hsome in Hi. inversion Hi; subst.
      rewrite (Hrest j Hjk) in Hj. exact (Hfresh j Hj).
    + rewrite Hsome in Hj. inversion Hj; subst.
      rewrite (Hrest i Hik) in Hi. exact (Hfresh i Hi).
    + rewrite (Hrest i Hik) in Hi. rewrite (Hrest j Hjk) in Hj.
      exact (Ha i j b Hij Hi Hj).
Qed.

Lemma findKeyBone_spine kb bone :
  AnimationController.spine (findKeyBone kb bone)
  = match AnimationController.spine kb with
    | Some b => Some b
    | None =>
        if includes (toLowerCase (boneName bone)) "spine"
        then Some (boneId bone) else None
    end.
Proof.
  unfold findKeyBone. cbv zeta.
  destruct (AnimationController.spine kb) as [b | ] eqn:Es; cbn [isNull].
  - rewrite andb_false_r.
    repeat match goal with
           | |- context [if ?c then _ else _] => destruct c
           end; cbn; auto.
  - rewrite andb_true_r.
    destruct (includes (toLowerCase (boneName bone)) "spine");
      [ reflexivity | ].
    repeat match goal with
           | |- context [if ?c then _ else _] => destruct c
           end; cbn; auto.
Qed.

Lemma findKeyBones_spine : forall bones kb,
  AnimationController.spine (findKeyBones bones kb)
  = match AnimationController.spine kb with
    | Some b => Some b
    | None =>
        option_map boneId
          (find (fun bone => includes (toLowerCase (boneName bone)) "spine")
             bones)
    end.
Proof.
  unfold findKeyBones.
  induction bones as [ | bone bones IH]; intros kb; cbn [fold_left find].
  - destruct (AnimationController.spine kb); reflexivity.
  - rewrite IH, findKeyBone_spine.
    destruct (AnimationController.spine kb); [ reflexivity | ].
    destruct (includes (toLowerCase (boneName bone)) "spine"); reflexivity.
Qed.

Lemma noKeyBones_sound : sound noKeyBones [].
Proof.
  intros i b H. do 8 (destruct i as [ | i]; try discriminate).
Qed.

Lemma noKeyBones_apart : apart noKeyBones.
Proof.
  intros i j b _ H. do 8 (destruct i as [ | i]; try discriminate).
Qed.

(** Roles that are apart give distinct procedural targets. *)
Lemma apart_proceduralTargets kb :
  apart kb -> NoDup (AnimationController.proceduralTargets kb).
Proof.
  intros Ha. unfold AnimationController.proceduralTargets.
  pose proof (Ha 0%nat 3%nat) as H03. pose proof (Ha 0%nat 4%nat) as H04.
  pose proof (Ha 0%nat 5%nat) as H05. pose proof (Ha 3%nat 4%nat) as H34.
  pose proof (Ha 3%nat 5%nat) as H35. pose proof (Ha 4%nat 5%nat) as H45.
  cbn [keyBone] in *.
  destruct (AnimationController.spine kb) as [sp | ];
    destruct (AnimationController.head kb) as [hd | ];
    destruct (AnimationController.leftShoulder kb) as [ls | ];
    destruct (AnimationController.rightShoulder kb) as [rs | ];
    cbn [flat_map app];
    repeat (constructor; cbn [In]);
    repeat match goal with
           | |- ~ _ => intros Hin
           | H : _ \/ _ |- _ => destruct H
           | H : False |- _ => destruct H
           end;
    subst;
    first [ eapply H03; [ lia | reflexivity | reflexivity ]
          | eapply H04; [ lia | reflexivity | reflexivity ]
          | eapply H05; [ lia | reflexivity | reflexivity ]
          | eapply H34; [ lia | reflexivity | reflexivity ]
          | eapply H35; [ lia | reflexivity | reflexivity ]
          | eapply H45; [ lia | reflexivity | reflexivity ] ].
Qed.

Lemma newAnimationController_setup m sc :
  AnimationController.bones (fst (newAnimationController m sc))
  = snd (validateSkeleton m)
  /\ AnimationController.skeleton (fst (newAnimationController m sc))
     = fst (validateSkeleton m)
  /\ AnimationController.secondaryMotion (fst (newAnimationController m sc))
     = newSecondaryMotionController m (pose sc)
  /\ AnimationController.mixer (fst (newAnimationController m sc))
     = model_mixer m.
Proof.
  unfold newAnimationController.
  destruct (validateSkeleton m) as [sk kb]. cbn [fst snd].
  unfold setupAnimations. cbn [AnimationController.mixer].
  destruct (model_mixer m) eqn:Hm; cbn [negb]; [ | auto ].
  cbv zeta. cbn [AnimationController.idle].
  unfold AnimationController.playAnimation, setClips.
  cbn [AnimationController.mixer AnimationController.currentAction].
  destruct (findAnimation (model_clips m) IDLE_NAMES) as [c | ];
    [ cbn; auto | ].
  destruct (model_clips m) as [ | [k c] l]; cbn; auto.
Qed.

(** X9.  [findKeyBones] never gives one bone two roles: in a controller
    built from a model whose skeletons hold distinct bones, the bones of
    any two of the seven roles differ, and so the bones the procedural
    layer writes (spine, head, shoulders) are distinct. *)
Theorem X9_key_bones_are_distinct :
  forall (m : Model) (sc : Scene),
    (forall bones, In bones (model_skeletons m) -> NoDup (map boneId bones)) ->
    let kb :=
      AnimationController.bones (fst (newAnimationController m sc)) in
    (forall i j b,
        i <> j -> keyBone i kb = Some b -> keyBone j kb = Some b -> False)
    /\ NoDup (AnimationController.proceduralTargets kb).
Proof.
  intros m sc Hnd kb.
  assert (Ha : apart kb).
  { unfold kb.
    destruct (newAnimationController_setup m sc) as (-> & _).
    unfold validateSkeleton.
    destruct (rev (model_skeletons m)) as [ | bones l] eqn:E; cbn [snd].
    - exact noKeyBones_apart.
    - apply (findKeyBones_apart bones []); cbn [app].
      + apply Hnd. apply in_rev. rewrite E. now left.
      + exact noKeyBones_sound.
      + exact noKeyBones_apart. }
  split; [ exact Ha | now apply apart_proceduralTargets ].
Qed.

Lemma X9_key_bones_are_distinct_witness :
  NoDup (AnimationController.proceduralTargets
           (AnimationController.bones
              (fst (newAnimationController sampleModel sampleScene)))).
Proof.
  apply (X9_key_bones_are_distinct sampleModel sampleScene).
  cbn. intros bones [<- | []]. exact sampleBones_distinct.
Defined.

(** X10.  Every role [findKeyBones] fills holds a bone of the skeleton
    whose lower-cased name passes the test of that role, and the spine is
    exactly the first bone whose name contains "spine" (none when no name
    does). *)
Theorem X10_key_bones_match_their_names :
  forall bones : list Bone,
    let kb := findKeyBones bones noKeyBones in
    (forall i b,
        keyBone i kb = Some b ->
        exists bone,
          In bone bones /\ boneId bone = b
          /\ roleMatches i (toLowerCase (boneName bone)) = true)
    /\ AnimationController.spine kb
       = option_map boneId
           (find (fun bone => includes (toLowerCase (boneName bone)) "spine")
              bones).
Proof.
  intros bones kb. split.
  - exact (findKeyBones_sound bones [] noKeyBones noKeyBones_sound).
  - unfold kb. rewrite findKeyBones_spine. reflexivity.
Qed.

End KeyBones.

Lemma upper_role_classified (i : nat) (bone : Bone) :
  (i < 3)%nat ->
  roleMatches i (toLowerCase (boneName bone)) = true ->
  Construction.classify bone <> None.
Proof.
  intros Hi Hm. unfold Construction.classify. cbv zeta.
  destruct (someKeyword HAIR_KEYWORDS (toLowerCase (boneName bone)));
    [ discriminate | ].
  destruct (someKeyword CLOTH_KEYWORDS (toLowerCase (boneName bone)));
    [ discriminate | ].
  replace (someKeyword UPPER_BODY_KEYWORDS (toLowerCase (boneName bone)))
    with true; [ discriminate | ].
  symmetry. unfold someKeyword, UPPER_BODY_KEYWORDS. cbn [existsb].
  destruct i as [ | [ | [ | i]]]; [ | | | lia ]; cbn [roleMatches] in Hm.
  - rewrite Hm. reflexivity.
  - apply orb_true_iff in Hm. destruct Hm as [-> | ->];
      rewrite ?orb_true_r; reflexivity.
  - rewrite Hm, !orb_true_r. reflexivity.
Qed.

(** X11.  The spine, chest and neck that [findKeyBones] finds are always
    bones with a spring: their names contain an upper-body keyword, so
    [discoverAndSetupBones] classifies them (as upper body, unless a hair
    or cloth keyword comes first).  Hence the spine's procedural offset is
    always written on a bone that a spring rewrites later in the frame.
    (The bones of the skeleton are among the bones the traversal meets.) *)
Theorem X11_upper_key_bones_have_springs :
  forall (m : Model) (sc : Scene),
    (forall bones, In bones (model_skeletons m) ->
                   incl bones (model_bones m)) ->
    let ac := fst (Construction.newAnimationController m sc) in
    forall i b,
      (i < 3)%nat ->
      keyBone i (AnimationController.bones ac) = Some b ->
      In b (map BoneSpring.bone
              (SecondaryMotionController.springs
                 (AnimationController.secondaryMotion ac))).
Proof.
  intros m sc Hincl ac i b Hi Hkb. unfold ac in *.
  destruct (newAnimationController_setup m sc) as (Hb & _ & Hsm & _).
  rewrite Hb in Hkb. rewrite Hsm.
  unfold Construction.validateSkeleton in Hkb.
  destruct (rev (model_skeletons m)) as [ | bones l] eqn:E; cbn [snd] in Hkb.
  - do 8 (destruct i as [ | i]; try discriminate).
  - assert (Hin : In bones (model_skeletons m))
      by (apply in_rev; rewrite E; now left).
    destruct (findKeyBones_sound bones [] Construction.noKeyBones
                noKeyBones_sound i b Hkb) as (bone & Hbone & Hid & Hrole).
    cbn [app] in Hbone.
    pose proof (upper_role_classified i bone Hi Hrole) as Hc.
    destruct (Construction.classify bone) as [ty | ] eqn:Ety;
      [ | congruence ].
    rewrite newSecondaryMotionController_springs.
    rewrite !map_app, !map_map. cbn [BoneSpring.new BoneSpring.bone].
    rewrite !map_id, !in_app_iff.
    assert (Hb' : In b (bonesOfType ty (model_bones m))).
    { apply in_bonesOfType. exists bone. repeat split; auto.
      apply (Hincl bones Hin). exact Hbone. }
    destruct ty; auto.
Qed.

Lemma X11_upper_key_bones_have_springs_witness :
  In 0%nat
    (map BoneSpring.bone
       (SecondaryMotionController.springs
          (AnimationController.secondaryMotion
             (fst (Construction.newAnimationController sampleModel
                     sampleScene))))).
Proof.
  apply (X11_upper_key_bones_have_springs sampleModel sampleScene)
    with (i := 0%nat).
  - cbn. intros bones [<- | []]. apply incl_refl.
  - lia.
  - destruct (newAnimationController_setup sampleModel sampleScene)
      as (-> & _).
    reflexivity.
Defined.

(** ** Clip lookup and the start of the animation *)

Section ClipLookup.

Import Construction.

Lemma prefix_refl (s : string) : String.prefix s s = true.
Proof.
  induction s as [ | a s IH]; cbn; [ reflexivity | ].
  destruct (ascii_dec a a); [ exact IH | congruence ].
Qed.

Lemma includes_refl (s : string) : includes s s = true.
Proof. destruct s; cbn [includes]; now rewrite prefix_refl. Qed.

Lemma partialMatch_None clips name :
  partialMatch clips name = None
  <-> forall entry, In entry clips ->
        includes (toLowerCase (fst entry)) (toLowerCase name) = false.
Proof.
  induction clips as [ | [k c] clips IH]; cbn [partialMatch].
  - split; [ intros _ entry [] | reflexivity ].
  - destruct (includes (toLowerCase k) (toLowerCase name)) eqn:E.
    + split; [ discriminate | ].
      intros H. specialize (H (k, c) (or_introl eq_refl)). cbn in H.
      congruence.
    + rewrite IH. split.
      * intros H entry [<- | Hin]; [ exact E | now apply H ].
      * intros H entry Hin. apply H. now right.
Qed.

Lemma partialMatch_Some clips name c :
  partialMatch clips name = Some c -> In c (map snd clips).
Proof.
  induction clips as [ | [k c'] clips IH]; cbn [partialMatch];
    [ discriminate | ].
  destruct (includes (toLowerCase k) (toLowerCase name)).
  - intros H. inversion H; subst. now left.
  - intros H. right. now apply IH.
Qed.

Lemma lookupClip_Some clips name c :
  lookupClip clips name = Some c -> In (name, c) clips.
Proof.
  induction clips as [ | [k c'] clips IH]; cbn [lookupClip];
    [ discriminate | ].
  destruct (String.eqb k name) eqn:E.
  - apply String.eqb_eq in E. intros H. inversion H; subst. now left.
  - intros H. right. now apply IH.
Qed.

Lemma findAnimation_in clips names c :
  findAnimation clips names = Some c -> In c (map snd clips).
Proof.
  induction names as [ | name names IH]; cbn [findAnimation];
    [ discriminate | ].
  destruct (lookupClip clips name) as [c0 | ] eqn:El.
  - intros H. inversion H; subst. apply lookupClip_Some in El.
    apply (in_map snd) in El. exact El.
  - destruct (partialMatch clips name) as [c0 | ] eqn:Ep.
    + intros H. inversion H; subst. now apply partialMatch_Some in Ep.
    + exact IH.
Qed.

(** X12.  [findAnimation] finds nothing exactly when no clip name
    contains, case-insensitively, any of the candidate names (an exact
    match is never the only way in); and the clip it finds is one of the
    model's clips. *)
Theorem X12_findAnimation_characterised :
  forall (clips : list (string * Clip)) (names : list string),
    (findAnimation clips names = None
     <-> forall name, In name names ->
           forall entry, In entry clips ->
             includes (toLowerCase (fst entry)) (toLowerCase name) = false)
    /\ (forall c, findAnimation clips names = Some c ->
                  In c (map snd clips)).
Proof.
  intros clips names. split.
  - induction names as [ | name names IH]; cbn [findAnimation].
    + split; [ intros _ name [] | reflexivity ].
    + destruct (lookupClip clips name) as [c | ] eqn:El.
      * split; [ discriminate | ].
        intros H. apply lookupClip_Some in El.
        specialize (H name (or_introl eq_refl) (name, c) El). cbn in H.
        rewrite includes_refl in H. discriminate.
      * destruct (partialMatch clips name) as [c | ] eqn:Ep.
        -- split; [ discriminate | ].
           intros H.
           assert (Hn : partialMatch clips name = None)
             by (apply partialMatch_None; intros entry Hin;
                 now apply (H name (or_introl eq_refl))).
           congruence.
        -- rewrite IH.
           pose proof (proj1 (partialMatch_None clips name) Ep) as Ep'.
           split.
           ++ intros H n [<- | Hin]; [ exact Ep' | now apply H ].
           ++ intros H n Hin. apply H. now right.
  - intros c. apply findAnimation_in.
Qed.

(** X13.  What plays when a controller is built.  Without a mixer nothing
    is asked of the engine and no action is current.  With a mixer an
    action is current exactly when the model has a clip: the idle clip
    when a clip name matches an idle name, the first clip otherwise; it is
    configured at rate 1.0, reset and played, with no fade.  The state is
    Idle either way, and the pose is not touched. *)
Theorem X13_startup_animation :
  forall (m : Model) (sc : Scene),
    let r := newAnimationController m sc in
    (model_mixer m = false ->
     snd r = sc /\ AnimationController.currentAction (fst r) = None)
    /\ (model_mixer m = true ->
        (AnimationController.currentAction (fst r) = None
         <-> model_clips m = [])
        /\ forall a,
             AnimationController.currentAction (fst r) = Some a ->
             emitted sc (snd r)
             = [ SetLoopRepeat a; SetClampWhenFinished a false;
                 SetEffectiveTimeScale a 1.0; ResetAction a; Play a ]
             /\ exists c,
                  a = clipAction c /\ In c (map snd (model_clips m))
                  /\ (forall idleClip,
                         findAnimation (model_clips m) IDLE_NAMES
                         = Some idleClip -> c = idleClip)
                  /\ (findAnimation (model_clips m) IDLE_NAMES = None ->
                      exists k l, model_clips m = (k, c) :: l))
    /\ AnimationController.currentState (fst r) = IDLE
    /\ pose (snd r) = pose sc.
Proof.
  intros m sc r. unfold r, newAnimationController.
  destruct (validateSkeleton m) as [sk kb].
  unfold setupAnimations. cbn [AnimationController.mixer].
  destruct (model_mixer m) eqn:Hm; cbn [negb].
  - cbv zeta. cbn [AnimationController.idle].
    set (ac1 := setClips _ _).
    assert (Hplay : forall c,
               let r := AnimationController.playAnimation (Some c) IDLE 1.0
                          ac1 sc in
               AnimationController.currentAction (fst r)
               = Some (clipAction c)
               /\ emitted sc (snd r)
                  = [ SetLoopRepeat (clipAction c);
                      SetClampWhenFinished (clipAction c) false;
                      SetEffectiveTimeScale (clipAction c) 1.0;
                      ResetAction (clipAction c); Play (clipAction c) ]
               /\ AnimationController.currentState (fst r) = IDLE
               /\ pose (snd r) = pose sc).
    { intros c.
      destruct (playAnimation_spec c IDLE 1.0 ac1 sc eq_refl)
        as (Hs & Ha & Hp & Hc).
      cbn [AnimationController.currentAction ac1 setClips] in Hc.
      cbv zeta. repeat split; auto.
      apply emitted_app. exact Hc. }
    split; [ discriminate | ].
    destruct (findAnimation (model_clips m) IDLE_NAMES) as [c | ] eqn:Ef.
    + destruct (Hplay c) as (Ha & He & Hs & Hp).
      pose proof (findAnimation_in (model_clips m) IDLE_NAMES c Ef) as Hin.
      split; [ intros _; split | split; assumption ].
      * rewrite Ha. split; [ discriminate | ].
        intros E. rewrite E in Hin. destruct Hin.
      * intros a Ha'. rewrite Ha in Ha'. inversion Ha'; subst.
        split; [ exact He | ].
        exists c. split; [ reflexivity | ]. split; [ exact Hin | ].
        split; [ intros c' E; congruence | discriminate ].
    + destruct (model_clips m) as [ | [k c] l] eqn:Ec.
      * cbn. repeat split; auto; discriminate.
      * destruct (Hplay c) as (Ha & He & Hs & Hp).
        split; [ intros _; split | split; assumption ].
        -- rewrite Ha. split; discriminate.
        -- intros a Ha'. rewrite Ha in Ha'. inversion Ha'; subst.
           split; [ exact He | ].
           exists c. split; [ reflexivity | ]. split; [ now left | ].
           split; [ discriminate | ].
           intros _. exists k, l. reflexivity.
  - cbn. repeat split; auto; discriminate.
Qed.

End ClipLookup.

(** ** The calls of a frame *)

Section FrameCalls.

Import AnimationController.

Lemma mixerAdvances_app l l' :
  mixerAdvances (l ++ l') = mixerAdvances l ++ mixerAdvances l'.
Proof. unfold mixerAdvances. apply flat_map_app. Qed.

(** The selection asks nothing of the mixer itself: its calls go to
    actions and to the console. *)
Lemma selectAnimation_calls speed ac sc :
  exists l,
    calls (snd (selectAnimation speed ac sc)) = calls sc ++ l
    /\ mixerAdvances l = [].
Proof.
  unfold selectAnimation.
  destruct (locomotionTarget speed) as [st rate].
  destruct (negb (AnimationState_eqb (currentState ac) st)).
  - unfold transitionToState.
    destruct (targetClip (animationClips ac) st) as [c | ].
    + unfold playAnimation. destruct (mixer ac) eqn:Hm.
      * destruct (playAnimation_spec c st rate ac sc Hm) as (_ & _ & _ & Hc).
        unfold playAnimation in Hc. rewrite Hm in Hc.
        eexists. split; [ exact Hc | ].
        destruct (currentAction ac) as [cur | ];
          [ destruct (Action_eqb cur (clipAction c)) | ]; reflexivity.
      * exists []. cbn. now rewrite app_nil_r.
    + exists [Warn st]. split; reflexivity.
  - destruct (currentAction ac) as [a | ].
    + exists [SetEffectiveTimeScale a rate]. split; reflexivity.
    + exists []. cbn. now rewrite app_nil_r.
Qed.

Lemma updateFromSpeed_advances mixerPose speed dt ac sc :
  exists l,
    calls (snd (updateFromSpeed mixerPose speed dt ac sc)) = calls sc ++ l
    /\ mixerAdvances l = if mixer ac then [dt] else [].
Proof.
  destruct (mixer ac) eqn:Hm.
  - destruct (selectAnimation speed ac sc) as [ac1 sc1] eqn:Hsel.
    destruct (updateFromSpeed_after_selection mixerPose speed dt ac sc ac1
                sc1 Hm Hsel) as (_ & _ & Hc).
    destruct (selectAnimation_calls speed ac sc) as (l & Hl & Hadv).
    rewrite Hsel in Hl. cbn [snd] in Hl.
    exists (l ++ [MixerUpdate dt]). split.
    + rewrite Hc, Hl, app_assoc. reflexivity.
    + rewrite mixerAdvances_app, Hadv. reflexivity.
  - destruct (updateFromSpeed_without_mixer mixerPose speed dt ac sc Hm)
      as (_ & _ & Hc).
    exists []. split; [ now rewrite app_nil_r | reflexivity ].
Qed.

(** X14.  The animation clock advances exactly once per frame: over any
    run of frames of a controller with a mixer, the mixer advances the
    frames ask for are, in order, the delta times of the frames, each
    passed on as it came; a controller without a mixer asks for none. *)
Theorem X14_one_mixer_advance_per_frame :
  forall (mixerPose : list Effect -> Pose -> Pose) (fs : list (R * R))
         (ac : AnimationController.t) (sc : Scene),
    mixerAdvances
      (emitted sc (snd (AnimationController.frames mixerPose fs ac sc)))
    = if AnimationController.mixer ac then map snd fs else [].
Proof.
  intros mixerPose fs.
  assert (H : forall ac sc,
             exists l,
               calls (snd (frames mixerPose fs ac sc)) = calls sc ++ l
               /\ mixerAdvances l = if mixer ac then map snd fs else []).
  { induction fs as [ | [speed dt] fs IH]; intros ac sc; cbn [frames].
    - exists []. split; [ now rewrite app_nil_r | ].
      destruct (mixer ac); reflexivity.
    - destruct (updateFromSpeed_advances mixerPose speed dt ac sc)
        as (l1 & Hl1 & Ha1).
      pose proof (updateFromSpeed_keeps_setup mixerPose speed dt ac sc)
        as Hk.
      destruct (updateFromSpeed mixerPose speed dt ac sc) as [ac1 sc1].
      cbn [fst snd] in *. destruct Hk as [Hkm _].
      destruct (IH ac1 sc1) as (l2 & Hl2 & Ha2).
      exists (l1 ++ l2). split.
      + rewrite Hl2, Hl1, app_assoc. reflexivity.
      + rewrite mixerAdvances_app, Ha1, Ha2, Hkm.
        destruct (mixer ac); reflexivity. }
  intros ac sc. destruct (H ac sc) as (l & Hl & Ha).
  rewrite (emitted_app _ _ _ Hl). exact Ha.
Qed.

(** X15.  The crossfade of a state change, as the engine sees it.  In a
    frame whose speed asks for a state other than the current one, and for
    which a clip resolves, the calls are: the configuration of the new
    action (loop, clamp, the rate of the speed); when that action is not
    the one playing, the fade-out of the old action over 0.25 s, then
    reset, fade-in over 0.25 s and play of the new one; and the mixer
    advance.  The old action is faded, never stopped; and when the
    fallback chain resolves to the clip already playing the state changes
    without any fade. *)
Theorem X15_crossfade_on_state_change :
  forall (mixerPose : list Effect -> Pose -> Pose) (speed dt : R)
         (ac : AnimationController.t) (sc : Scene) (cur : Action) (c : Clip),
    AnimationController.mixer ac = true ->
    AnimationController.currentAction ac = Some cur ->
    AnimationController.currentState ac
    <> AnimationController.targetState speed ->
    AnimationController.targetClip (AnimationController.animationClips ac)
      (AnimationController.targetState speed) = Some c ->
    let r := AnimationController.updateFromSpeed mixerPose speed dt ac sc in
    let n := clipAction c in
    emitted sc (snd r)
    = [ SetLoopRepeat n; SetClampWhenFinished n false;
        SetEffectiveTimeScale n (AnimationController.animationSpeed speed) ]
      ++ (if Action_eqb cur n then []
          else [ FadeOut cur CROSSFADE_DURATION; ResetAction n;
                 FadeIn n CROSSFADE_DURATION; Play n ])
      ++ [MixerUpdate dt]
    /\ AnimationController.currentAction (fst r) = Some n
    /\ AnimationController.currentState (fst r)
       = AnimationController.targetState speed.
Proof.
  intros mixerPose speed dt ac sc cur c Hm Hcur Hne Hclip r n.
  destruct (playAnimation_spec c (targetState speed) (animationSpeed speed)
              ac sc Hm) as (Hs & Ha & _ & Hc).
  assert (Hsel : selectAnimation speed ac sc
                 = playAnimation (Some c) (targetState speed)
                     (animationSpeed speed) ac sc).
  { unfold selectAnimation, targetState, animationSpeed in *.
    destruct (locomotionTarget speed) as [st rate]. cbn [fst snd] in *.
    destruct (AnimationState_eqb (currentState ac) st) eqn:E.
    - apply AnimationState_eqb_eq in E. contradiction.
    - cbn [negb]. unfold transitionToState. rewrite Hclip. reflexivity. }
  destruct (playAnimation (Some c) (targetState speed)
              (animationSpeed speed) ac sc) as [ac1 sc1].
  cbn [fst snd] in *.
  destruct (updateFromSpeed_after_selection mixerPose speed dt ac sc ac1 sc1
              Hm Hsel) as (Hs' & Ha' & Hc').
  fold r in Hs', Ha', Hc'. subst n.
  split; [ | split; congruence ].
  apply emitted_app. rewrite Hc', Hc, Hcur, <- !app_assoc. reflexivity.
Qed.

Lemma X15_crossfade_on_state_change_witness :
  emitted sampleScene
    (snd (AnimationController.updateFromSpeed stillMixer 2 (1 / 60)
            riggedController sampleScene))
  = [ SetLoopRepeat (clipAction 1%nat);
      SetClampWhenFinished (clipAction 1%nat) false;
      SetEffectiveTimeScale (clipAction 1%nat)
        (AnimationController.animationSpeed 2) ]
    ++ (if Action_eqb (clipAction 0%nat) (clipAction 1%nat) then []
        else [ FadeOut (clipAction 0%nat) CROSSFADE_DURATION;
               ResetAction (clipAction 1%nat);
               FadeIn (clipAction 1%nat) CROSSFADE_DURATION;
               Play (clipAction 1%nat) ])
    ++ [MixerUpdate (1 / 60)]
  /\ AnimationController.currentAction
       (fst (AnimationController.updateFromSpeed stillMixer 2 (1 / 60)
               riggedController sampleScene)) = Some (clipAction 1%nat)
  /\ AnimationController.currentState
       (fst (AnimationController.updateFromSpeed stillMixer 2 (1 / 60)
               riggedController sampleScene))
     = AnimationController.targetState 2.
Proof.
  assert (Hwalk : AnimationController.targetState 2 = WALK)
    by (unfold AnimationController.targetState;
        rewrite targetState_walk by lra; reflexivity).
  apply (X15_crossfade_on_state_change stillMixer 2 (1 / 60)
           riggedController sampleScene (clipAction 0%nat) 1%nat).
  - reflexivity.
  - reflexivity.
  - rewrite Hwalk. discriminate.
  - rewrite Hwalk. reflexivity.
Defined.

Lemma targetClip_with_idle clips st :
  idle clips <> None -> targetClip clips st <> None.
Proof.
  intros H. destruct clips as [[i | ] [w | ] [r | ]], st; cbn in *;
    congruence.
Qed.

Lemma frames_app mixerPose fs fs' : forall ac sc,
  frames mixerPose (fs ++ fs') ac sc
  = frames mixerPose fs' (fst (frames mixerPose fs ac sc))
      (snd (frames mixerPose fs ac sc)).
Proof.
  induction fs as [ | [speed dt] fs IH]; intros ac sc; cbn [app frames].
  - reflexivity.
  - destruct (updateFromSpeed mixerPose speed dt ac sc) as [ac1 sc1].
    apply IH.
Qed.

Lemma frames_keeps_setup mixerPose fs : forall ac sc,
  mixer (fst (frames mixerPose fs ac sc)) = mixer ac
  /\ animationClips (fst (frames mixerPose fs ac sc)) = animationClips ac.
Proof.
  induction fs as [ | [speed dt] fs IH]; intros ac sc; cbn [frames].
  - auto.
  - pose proof (updateFromSpeed_keeps_setup mixerPose speed dt ac sc) as Hk.
    destruct (updateFromSpeed mixerPose speed dt ac sc) as [ac1 sc1].
    cbn [fst] in Hk. destruct Hk as [<- <-]. apply IH.
Qed.

(** X16.  With a mixer and an idle clip every state resolves (through the
    fallback chain if need be), so the state machine has no memory: after
    any run of frames the current state is the state of the last frame's
    speed, whatever the earlier speeds were. *)
Theorem X16_state_follows_last_speed :
  forall (mixerPose : list Effect -> Pose -> Pose) (fs : list (R * R))
         (speed dt : R) (ac : AnimationController.t) (sc : Scene),
    AnimationController.mixer ac = true ->
    AnimationController.idle (AnimationController.animationClips ac)
    <> None ->
    AnimationController.currentState
      (fst (AnimationController.frames mixerPose (fs ++ [(speed, dt)]) ac
              sc))
    = AnimationController.targetState speed.
Proof.
  intros mixerPose fs speed dt ac sc Hm Hidle.
  rewrite frames_app.
  destruct (frames_keeps_setup mixerPose fs ac sc) as [Hkm Hkc].
  set (ac1 := fst (frames mixerPose fs ac sc)) in *.
  set (sc1 := snd (frames mixerPose fs ac sc)).
  cbn [frames].
  assert (Hm1 : mixer ac1 = true) by congruence.
  assert (Hclip : targetClip (animationClips ac1) (targetState speed)
                  <> None)
    by (rewrite Hkc; now apply targetClip_with_idle).
  destruct (selectAnimation speed ac1 sc1) as [ac2 sc2] eqn:Hsel.
  destruct (updateFromSpeed_after_selection mixerPose speed dt ac1 sc1 ac2
              sc2 Hm1 Hsel) as (Hs & _ & _).
  pose proof (selectAnimation_state speed ac1 sc1 Hm1 Hclip) as Hst.
  rewrite Hsel in Hst. cbn [fst] in Hst.
  destruct (updateFromSpeed mixerPose speed dt ac1 sc1) as [ac3 sc3].
  cbn [fst] in *. congruence.
Qed.

Lemma X16_state_follows_last_speed_witness :
  AnimationController.currentState
    (fst (AnimationController.frames stillMixer
            ([(5, 0.016); (0, 0.016)] ++ [(2, 0.016)]) riggedController
            sampleScene))
  = AnimationController.targetState 2.
Proof.
  apply (X16_state_follows_last_speed stillMixer [(5, 0.016); (0, 0.016)]
           2 0.016 riggedController sampleScene).
  - reflexivity.
  - discriminate.
Defined.

End FrameCalls.

(** ** The character controller's frame *)

Section CharacterFrames.

Import CharacterController.

Variable mixerPose : list Effect -> Pose -> Pose.

Lemma applyProceduralOffsets_place speed dt ac sc :
  position (snd (AnimationController.applyProceduralOffsets speed dt ac sc))
  = position sc
  /\ rotationY
       (snd (AnimationController.applyProceduralOffsets speed dt ac sc))
     = rotationY sc.
Proof.
  unfold AnimationController.applyProceduralOffsets.
  destruct (negb (AnimationController.skeleton ac) || leb_R dt 0
            || gtb_R dt 0.1); split; reflexivity.
Qed.

(** The animation controller never moves or turns the model itself. *)
Lemma updateFromSpeed_keeps_place speed dt ac sc :
  position (snd (AnimationController.updateFromSpeed mixerPose speed dt ac sc))
  = position sc
  /\ rotationY
       (snd (AnimationController.updateFromSpeed mixerPose speed dt ac sc))
     = rotationY sc.
Proof.
  unfold AnimationController.updateFromSpeed.
  destruct (AnimationController.mixer ac); cbn [negb].
  - destruct (selectAnimation_keeps_pose speed ac sc)
      as (_ & Hp1 & Hr1 & _).
    destruct (AnimationController.selectAnimation speed ac sc) as [ac1 sc1].
    cbn [snd] in Hp1, Hr1.
    set (sc2 := AnimationController.mixerUpdate mixerPose dt sc1).
    set (ac3 := if SecondaryMotionController.hasSecondaryMotion _
                then _ else ac1).
    destruct (applyProceduralOffsets_place speed dt ac3 sc2) as [Hp2 Hr2].
    destruct (AnimationController.applyProceduralOffsets speed dt ac3 sc2)
      as [ac4 sc4].
    cbn [snd] in Hp2, Hr2.
    destruct (updateSecondaryMotion_pose dt ac4 sc4)
      as (_ & _ & Hp3 & Hr3 & _).
    rewrite Hp3, Hr3, Hp2, Hr2. subst sc2. cbn. auto.
  - destruct (updateSecondaryMotion_pose dt ac sc)
      as (_ & _ & Hp3 & Hr3 & _). auto.
Qed.

Lemma normalize_y (v : Vector3.t) :
  Vector3.y v = 0 -> Vector3.y (Vector3.normalize v) = 0.
Proof.
  intros H. unfold Vector3.normalize, Vector3.divideScalar,
    Vector3.multiplyScalar. cbn. rewrite H. ring.
Qed.

Lemma normalize_le_1 (v : Vector3.t) :
  Vector3.x (Vector3.normalize v) * Vector3.x (Vector3.normalize v)
  + Vector3.y (Vector3.normalize v) * Vector3.y (Vector3.normalize v)
  + Vector3.z (Vector3.normalize v) * Vector3.z (Vector3.normalize v) <= 1.
Proof.
  destruct v as [a b c].
  unfold Vector3.normalize, Vector3.divideScalar, Vector3.multiplyScalar,
    Vector3.length. cbn [Vector3.x Vector3.y Vector3.z].
  set (S := a * a + b * b + c * c).
  assert (HS : 0 <= S) by (unfold S; nra).
  destruct (Req_dec_T (sqrt S) 0) as [H0 | Hn].
  - apply sqrt_eq_0 in H0; [ | exact HS ]. unfold S in H0. nra.
  - pose proof (sqrt_sqrt S HS) as Hsq.
    set (L := sqrt S) in *.
    replace (a * (1 / L) * (a * (1 / L)) + b * (1 / L) * (b * (1 / L))
             + c * (1 / L) * (c * (1 / L)))
      with (S / (L * L)) by (unfold S; field; exact Hn).
    rewrite Hsq. unfold Rdiv. rewrite Rinv_r; [ lra | ].
    intros HS0. rewrite HS0 in Hsq. nra.
Qed.

(** A frame without movement input: the speed eases toward zero and snaps
    to it below 0.01; the model is neither moved nor turned. *)
Lemma update_still dt input cc sc :
  gtb_R (Rabs (input_x input)) 0.01 || gtb_R (Rabs (input_z input)) 0.01
  = false ->
  let r := update mixerPose dt input cc sc in
  let s1 := MathUtils.lerp (currentSpeed cc) 0 (MOVEMENT_DECELERATION * dt) in
  currentSpeed (fst r) = (if ltb_R s1 0.01 then 0 else s1)
  /\ currentRotation (fst r) = currentRotation cc
  /\ position (snd r) = position sc
  /\ rotationY (snd r) = rotationY sc
  /\ animationController (fst r)
     = fst (AnimationController.updateFromSpeed mixerPose
              (currentSpeed (fst r)) dt (animationController cc) sc).
Proof.
  intros Hstill. unfold update. rewrite Hstill. cbv zeta.
  cbn [currentSpeed animationController velocity targetSpeed currentRotation
       targetRotation].
  set (s := if ltb_R _ 0.01 then 0 else _).
  destruct (updateFromSpeed_keeps_place s dt (animationController cc) sc)
    as [Hp Hr].
  destruct (AnimationController.updateFromSpeed mixerPose s dt
              (animationController cc) sc) as [ac2 sc2] eqn:Eu.
  cbn [fst snd currentSpeed currentRotation animationController] in *.
  rewrite Eu. cbn [fst]. auto.
Qed.

(** A frame with movement input: the speed eases toward the walk or run
    speed, the model moves along a horizontal direction [d] of length at
    most one by speed times delta time, and turns by the rate-capped step
    toward the heading of [d]. *)
Lemma update_moving dt input cc sc :
  gtb_R (Rabs (input_x input)) 0.01 || gtb_R (Rabs (input_z input)) 0.01
  = true ->
  let r := update mixerPose dt input cc sc in
  currentSpeed (fst r)
  = MathUtils.lerp (currentSpeed cc)
      (if isSprinting input then RUN_SPEED else WALK_SPEED)
      (MOVEMENT_ACCELERATION * dt)
  /\ (exists d : Vector3.t,
         Vector3.y d = 0
         /\ Vector3.x d * Vector3.x d + Vector3.z d * Vector3.z d <= 1
         /\ position (snd r)
            = Vector3.add (position sc)
                (Vector3.multiplyScalar d (currentSpeed (fst r) * dt))
         /\ currentRotation (fst r)
            = currentRotation cc
              + clampedRotation dt (currentRotation cc)
                  (MathUtils.atan2 (Vector3.x d) (Vector3.z d)))
  /\ rotationY (snd r) = currentRotation (fst r)
  /\ animationController (fst r)
     = fst (AnimationController.updateFromSpeed mixerPose
              (currentSpeed (fst r)) dt (animationController cc)
              (mkScene (pose sc) (position (snd r)) (rotationY (snd r))
                 (calls sc))).
Proof.
  intros Hmov. unfold update. rewrite Hmov. cbv zeta.
  cbn [currentSpeed animationController velocity targetSpeed currentRotation
       targetRotation].
  set (cd := Vector3.normalize
               (Vector3.mk (Vector3.x (cameraWorldDirection input)) 0
                  (Vector3.z (cameraWorldDirection input)))).
  set (d := Vector3.normalize _).
  set (s := MathUtils.lerp _ _ _).
  set (sc1 := mkScene _ _ _ _).
  destruct (updateFromSpeed_keeps_place s dt (animationController cc) sc1)
    as [Hp Hr].
  destruct (AnimationController.updateFromSpeed mixerPose s dt
              (animationController cc) sc1) as [ac2 sc2] eqn:Eu.
  cbn [fst snd currentSpeed currentRotation animationController] in *.
  assert (Hcd : Vector3.y cd = 0) by (apply normalize_y; reflexivity).
  assert (Hd : Vector3.y d = 0).
  { apply normalize_y.
    cbn [Vector3.x Vector3.y Vector3.z Vector3.addScaledVector
         Vector3.crossVectors Vector3.zero].
    rewrite Hcd. ring. }
  split; [ reflexivity | ]. split; [ | split ].
  - exists d. split; [ exact Hd | ]. split.
    + pose proof (normalize_le_1
                    (Vector3.addScaledVector
                       (Vector3.addScaledVector Vector3.zero
                          (Vector3.crossVectors cd (Vector3.mk 0 1 0))
                          (input_x input)) cd (- input_z input))) as Hle.
      fold d in Hle. rewrite Hd in Hle. lra.
    + split; [ rewrite Hp; reflexivity | reflexivity ].
  - rewrite Hr. reflexivity.
  - rewrite Hp, Hr.
    change (mkScene (pose sc) (position sc1) (rotationY sc1) (calls sc))
      with sc1.
    rewrite Eu. reflexivity.
Qed.

Lemma update_keeps_setup dt input cc sc :
  AnimationController.mixer
    (animationController (fst (update mixerPose dt input cc sc)))
  = AnimationController.mixer (animationController cc)
  /\ AnimationController.animationClips
       (animationController (fst (update mixerPose dt input cc sc)))
     = AnimationController.animationClips (animationController cc).
Proof.
  destruct (gtb_R (Rabs (input_x input)) 0.01
            || gtb_R (Rabs (input_z input)) 0.01) eqn:E.
  - destruct (update_moving dt input cc sc E) as (_ & _ & _ & ->).
    apply updateFromSpeed_keeps_setup.
  - destruct (update_still dt input cc sc E) as (_ & _ & _ & _ & ->).
    apply updateFromSpeed_keeps_setup.
Qed.

Lemma character_frames_app fs fs' : forall cc sc,
  frames mixerPose (fs ++ fs') cc sc
  = frames mixerPose fs' (fst (frames mixerPose fs cc sc))
      (snd (frames mixerPose fs cc sc)).
Proof.
  induction fs as [ | [dt input] fs IH]; intros cc sc; cbn [app frames].
  - reflexivity.
  - destruct (update mixerPose dt input cc sc) as [cc1 sc1]. apply IH.
Qed.

Lemma character_frames_keep_setup fs : forall cc sc,
  AnimationController.mixer
    (animationController (fst (frames mixerPose fs cc sc)))
  = AnimationController.mixer (animationController cc)
  /\ AnimationController.animationClips
       (animationController (fst (frames mixerPose fs cc sc)))
     = AnimationController.animationClips (animationController cc).
Proof.
  induction fs as [ | [dt input] fs IH]; intros cc sc; cbn [frames].
  - auto.
  - pose proof (update_keeps_setup dt input cc sc) as Hk.
    destruct (update mixerPose dt input cc sc) as [cc1 sc1].
    cbn [fst] in Hk. destruct Hk as [<- <-]. apply IH.
Qed.


(** X18.  The character stays on its ground plane and the model's heading
    is the controller's: over any run of frames the height of the model's
    position never changes, and if the model's Y rotation equals the
    controller's current rotation at the start (as it does after
    construction) it does so after every frame. *)
Theorem X18_stays_on_ground_plane :
  forall (fs : list (R * CharacterController.Input))
         (cc : CharacterController.t) (sc : Scene),
    let r := CharacterController.frames mixerPose fs cc sc in
    Vector3.y (position (snd r)) = Vector3.y (position sc)
    /\ (rotationY sc = CharacterController.currentRotation cc ->
        rotationY (snd r) = CharacterController.currentRotation (fst r)).
Proof.
  induction fs as [ | [dt input] fs IH]; intros cc sc; cbn [frames].
  - cbn. auto.
  - assert (H1 : Vector3.y (position (snd (update mixerPose dt input cc sc)))
                 = Vector3.y (position sc)
                 /\ (rotationY sc = currentRotation cc ->
                     rotationY (snd (update mixerPose dt input cc sc))
                     = currentRotation
                         (fst (update mixerPose dt input cc sc)))).
    { destruct (gtb_R (Rabs (input_x input)) 0.01
                || gtb_R (Rabs (input_z input)) 0.01) eqn:E.
      - destruct (update_moving dt input cc sc E)
          as (_ & (d & Hd & _ & Hp & _) & Hr & _).
        split; [ | intros _; exact Hr ].
        rewrite Hp. cbn. rewrite Hd. ring.
      - destruct (update_still dt input cc sc E)
          as (_ & Hc & Hp & Hr & _).
        split; [ now rewrite Hp | intros H0; congruence ]. }
    destruct (update mixerPose dt input cc sc) as [cc1 sc1].
    cbn [fst snd] in H1. destruct H1 as [Hy Hrot].
    specialize (IH cc1 sc1). cbv zeta in IH. destruct IH as [IHy IHrot].
    cbv zeta. split; [ congruence | auto ].
Qed.


End CharacterFrames.


(** ** The heading error *)

(** The remainder of a non-negative dividend is the dividend less a whole
    number of divisors and lies below the divisor. *)
Lemma rem_nonneg (a b : R) :
  0 <= a -> 0 < b ->
  0 <= MathUtils.rem a b < b
  /\ exists k : Z, (0 <= k)%Z /\ MathUtils.rem a b = a - b * IZR k.
Proof.
  intros Ha Hb. unfold MathUtils.rem, MathUtils.trunc.
  assert (Hq : 0 <= a / b).
  { unfold Rdiv. apply Rmult_le_pos; [ exact Ha | ].
    left. now apply Rinv_0_lt_compat. }
  destruct (Rle_dec 0 (a / b)) as [_ | Hn]; [ | contradiction ].
  destruct (base_Int_part (a / b)) as [Hlo Hhi].
  set (k := Int_part (a / b)) in *.
  assert (Hab : a = a / b * b) by (field; lra).
  split.
  - split.
    + assert (b * IZR k <= a / b * b) by nra. lra.
    + assert (a / b * b < b * IZR k + b) by nra. lra.
  - exists k. split; [ | reflexivity ].
    assert (Hk : -1 < IZR k) by lra.
    apply lt_IZR in Hk. lia.
Qed.

(** X20.  Where the heading error is reduced.  When the target heading is
    not more than half a turn below the current one (target - current >=
    -PI), shortestAngle returns the difference less a whole number of full
    turns, in [-PI, PI): the way round that is at most half a turn. *)
Theorem X20_shortestAngle_reduces_from_minus_PI :
  forall current target : R,
    - PI <= target - current ->
    - PI <= CharacterController.shortestAngle current target < PI
    /\ exists k : Z,
         (0 <= k)%Z
         /\ CharacterController.shortestAngle current target
            = target - current - IZR k * (2 * PI).
Proof.
  intros current target H. pose proof PI_bounds as HPI.
  unfold CharacterController.shortestAngle. cbv zeta.
  destruct (rem_nonneg (target - current + PI) (PI * 2))
    as [Hrange (k & Hk & Heq)]; [ lra | lra | ].
  split; [ lra | ].
  exists k. split; [ exact Hk | ]. rewrite Heq. ring.
Qed.

Lemma minus_PI_below_4 : - PI <= 4 - 0.
Proof. pose proof PI_bounds. lra. Qed.

Lemma X20_shortestAngle_reduces_from_minus_PI_witness :
  - PI <= CharacterController.shortestAngle 0 4 < PI
  /\ exists k : Z,
       (0 <= k)%Z
       /\ CharacterController.shortestAngle 0 4 = 4 - 0 - IZR k * (2 * PI).
Proof.
  exact (X20_shortestAngle_reduces_from_minus_PI 0 4 minus_PI_below_4).
Defined.

(** ** Coming to rest, and the animation of the current speed *)

Section ComingToRest.

Import CharacterController.

Variable mixerPose : list Effect -> Pose -> Pose.

(** X21.  Releasing the keys stops the character completely.  Over frames
    without movement input, all of one delta time dt between 0 and
    1/12 s, the speed falls by the factor 1 - 12 dt per frame and is set
    to exactly 0 as soon as it is below 0.01: once a non-negative start
    speed times that factor to the power of the number of frames is below
    0.01, the speed is 0. *)
Theorem X21_comes_to_rest :
  forall (fs : list (R * CharacterController.Input)) (dt : R)
         (cc : CharacterController.t) (sc : Scene),
    0 <= dt <= 1 / 12 ->
    0 <= CharacterController.currentSpeed cc ->
    fs <> [] ->
    Forall (fun f =>
              fst f = dt
              /\ gtb_R (Rabs (CharacterController.input_x (snd f))) 0.01
                 || gtb_R (Rabs (CharacterController.input_z (snd f))) 0.01
                 = false) fs ->
    CharacterController.currentSpeed cc
    * (1 - MOVEMENT_DECELERATION * dt) ^ List.length fs < 0.01 ->
    CharacterController.currentSpeed
      (fst (CharacterController.frames mixerPose fs cc sc)) = 0.
Proof.
  intros fs dt. induction fs as [ | [dt' input] fs IH];
    intros cc sc Hdt Hs Hne Hfs Hlt; [ contradiction | ].
  apply Forall_cons_iff in Hfs. destruct Hfs as [[Hd Hstill] Hfs].
  cbn [fst snd] in Hd, Hstill. subst dt'.
  cbn [frames].
  destruct (update_still mixerPose dt input cc sc Hstill) as (Hs1 & _).
  destruct (update mixerPose dt input cc sc) as [cc1 sc1].
  cbn [fst] in Hs1.
  unfold MathUtils.lerp, MOVEMENT_DECELERATION in *.
  replace ((1 - 12.0 * dt) * currentSpeed cc + 12.0 * dt * 0)
    with (currentSpeed cc * (1 - 12.0 * dt)) in Hs1 by ring.
  set (q := 1 - 12.0 * dt) in *.
  assert (Hq : 0 <= q <= 1) by (unfold q; lra).
  assert (Hpow : 0 <= q ^ List.length fs) by (apply pow_le; lra).
  cbn [List.length pow] in Hlt.
  destruct fs as [ | f fs].
  - cbn [frames fst]. cbn [List.length pow] in Hlt.
    revert Hs1. unfold ltb_R.
    destruct (Rlt_dec (currentSpeed cc * q) 0.01) as [ | Hn];
      [ now intros -> | ].
    exfalso. apply Hn. lra.
  - assert (H1 : 0 <= currentSpeed cc1 <= currentSpeed cc * q).
    { rewrite Hs1. destruct (ltb_R (currentSpeed cc * q) 0.01); nra. }
    apply IH; [ exact Hdt | lra | discriminate | exact Hfs | ].
    apply Rle_lt_trans with (currentSpeed cc * (q * q ^ List.length (f :: fs)));
      [ | exact Hlt ].
    set (p := q ^ List.length (f :: fs)) in *.
    nra.
Qed.

Lemma updateFromSpeed_state speed dt ac sc :
  AnimationController.mixer ac = true ->
  AnimationController.idle (AnimationController.animationClips ac)
  <> None ->
  AnimationController.currentState
    (fst (AnimationController.updateFromSpeed mixerPose speed dt ac sc))
  = AnimationController.targetState speed.
Proof.
  intros Hm Hidle.
  assert (Hclip : AnimationController.targetClip
                    (AnimationController.animationClips ac)
                    (AnimationController.targetState speed) <> None)
    by now apply targetClip_with_idle.
  destruct (AnimationController.selectAnimation speed ac sc)
    as [ac2 sc2] eqn:Hsel.
  destruct (updateFromSpeed_after_selection mixerPose speed dt ac sc ac2
              sc2 Hm Hsel) as (Hs & _ & _).
  pose proof (selectAnimation_state speed ac sc Hm Hclip) as Hst.
  rewrite Hsel in Hst. cbn [fst] in Hst. congruence.
Qed.

(** X22.  The animation shown is that of the speed just computed.  For a
    character whose animation controller has a mixer and an idle clip,
    after every frame the animation state is the state that the thresholds
    assign to the controller's current speed of that frame, whatever the
    earlier frames were. *)
Theorem X22_animation_follows_character_speed :
  forall (fs : list (R * CharacterController.Input)) (dt : R)
         (input : CharacterController.Input)
         (cc : CharacterController.t) (sc : Scene),
    AnimationController.mixer (CharacterController.animationController cc)
    = true ->
    AnimationController.idle
      (AnimationController.animationClips
         (CharacterController.animationController cc)) <> None ->
    AnimationController.currentState
      (CharacterController.animationController
         (fst (CharacterController.frames mixerPose (fs ++ [(dt, input)])
                 cc sc)))
    = AnimationController.targetState
        (CharacterController.currentSpeed
           (fst (CharacterController.frames mixerPose (fs ++ [(dt, input)])
                   cc sc))).
Proof.
  intros fs dt input cc sc Hm Hidle.
  rewrite character_frames_app.
  destruct (character_frames_keep_setup mixerPose fs cc sc) as [Hkm Hkc].
  set (cc1 := fst (frames mixerPose fs cc sc)) in *.
  set (sc1 := snd (frames mixerPose fs cc sc)).
  cbn [frames].
  assert (Hm1 : AnimationController.mixer (animationController cc1) = true)
    by congruence.
  assert (Hi1 : AnimationController.idle
                  (AnimationController.animationClips
                     (animationController cc1)) <> None)
    by (rewrite Hkc; exact Hidle).
  assert (H : AnimationController.currentState
                (animationController (fst (update mixerPose dt input cc1 sc1)))
              = AnimationController.targetState
                  (currentSpeed (fst (update mixerPose dt input cc1 sc1)))).
  { destruct (gtb_R (Rabs (input_x input)) 0.01
              || gtb_R (Rabs (input_z input)) 0.01) eqn:E.
    - destruct (update_moving mixerPose dt input cc1 sc1 E)
        as (_ & _ & _ & ->).
      now apply updateFromSpeed_state.
    - destruct (update_still mixerPose dt input cc1 sc1 E)
        as (_ & _ & _ & _ & ->).
      now apply updateFromSpeed_state. }
  destruct (update mixerPose dt input cc1 sc1) as [cc2 sc2]. exact H.
Qed.

End ComingToRest.

Lemma slow_walk_stops :
  CharacterController.currentSpeed
    (CharacterController.mk Vector3.zero 0.012 0 0 0 riggedController)
  * (1 - MOVEMENT_DECELERATION * (1 / 60))
    ^ List.length
        [(1 / 60,
          CharacterController.mkInput 0 0 false (Vector3.mk 0 0 (-1)))]
  < 0.01.
Proof. cbn. unfold MOVEMENT_DECELERATION. lra. Qed.

Lemma sixtieth_in_range : 0 <= 1 / 60 <= 1 / 12.
Proof. lra. Qed.

Lemma no_keys_no_movement :
  gtb_R (Rabs 0) 0.01 || gtb_R (Rabs 0) 0.01 = false.
Proof.
  unfold gtb_R, ltb_R. rewrite Rabs_R0.
  destruct (Rlt_dec 0.01 0) as [H | _]; [ lra | reflexivity ].
Qed.

Lemma X21_comes_to_rest_witness :
  CharacterController.currentSpeed
    (fst (CharacterController.frames stillMixer
            [(1 / 60,
              CharacterController.mkInput 0 0 false (Vector3.mk 0 0 (-1)))]
            (CharacterController.mk Vector3.zero 0.012 0 0 0
               riggedController)
            sampleScene)) = 0.
Proof.
  apply (X21_comes_to_rest stillMixer _ (1 / 60)).
  - exact sixtieth_in_range.
  - cbn. lra.
  - discriminate.
  - constructor; [ | constructor ]. split; [ reflexivity | ].
    cbn [snd CharacterController.input_x CharacterController.input_z].
    exact no_keys_no_movement.
  - exact slow_walk_stops.
Defined.

Lemma X22_animation_follows_character_speed_witness :
  AnimationController.currentState
    (CharacterController.animationController
       (fst (CharacterController.frames stillMixer
               ([(1 / 60,
                  CharacterController.mkInput 1 0 true
                    (Vector3.mk 0 0 (-1)))]
                ++ [(1 / 60,
                     CharacterController.mkInput 0 0 false
                       (Vector3.mk 0 0 (-1)))])
               (CharacterController.new riggedController sampleScene)
               sampleScene)))
  = AnimationController.targetState
      (CharacterController.currentSpeed
         (fst (CharacterController.frames stillMixer
                 ([(1 / 60,
                    CharacterController.mkInput 1 0 true
                      (Vector3.mk 0 0 (-1)))]
                  ++ [(1 / 60,
                       CharacterController.mkInput 0 0 false
                         (Vector3.mk 0 0 (-1)))])
                 (CharacterController.new riggedController sampleScene)
                 sampleScene))).
Proof.
  apply (X22_animation_follows_character_speed stillMixer).
  - reflexivity.
  - discriminate.
Defined.

(** ** The input manager *)

Lemma sqrt_pos_of_pos (S : R) : 0 < S -> 0 < sqrt S.
Proof. apply sqrt_lt_R0. Qed.

(** The normalisation of [getMovementInput] on the components the keys
    can produce. *)
Lemma normalised_components (x z : R) :
  (x = 0 \/ x = 1 \/ x = -1) -> (z = 0 \/ z = 1 \/ z = -1) ->
  let len := sqrt (x * x + z * z) in
  let v := if gtb_R len 0 then (x / len, z / len) else (x, z) in
  (x = 0 /\ z = 0 -> v = (0, 0))
  /\ (x <> 0 \/ z <> 0 ->
      fst v * fst v + snd v * snd v = 1
      /\ gtb_R (Rabs (fst v)) 0.01 || gtb_R (Rabs (snd v)) 0.01 = true)
  /\ (x = 0 /\ z = 0 ->
      gtb_R (Rabs (fst v)) 0.01 || gtb_R (Rabs (snd v)) 0.01 = false).
Proof.
  intros Hx Hz. cbv zeta.
  set (S := x * x + z * z).
  assert (HS : 0 <= S) by (unfold S; nra).
  pose proof (sqrt_sqrt S HS) as Hsq.
  pose proof (sqrt_pos S) as Hpos.
  unfold gtb_R, ltb_R.
  destruct (Rlt_dec 0 (sqrt S)) as [Hl | Hl].
  - assert (HSpos : 0 < S) by nra.
    split; [ | split ].
    + intros [-> ->]. unfold S in HSpos. lra.
    + intros _. cbn [fst snd]. set (L := sqrt S) in *.
      assert (HL2 : L < 2) by (unfold S in Hsq; nra).
      split.
      * replace (x / L * (x / L) + z / L * (z / L)) with (S / (L * L))
          by (unfold S; field; lra).
        rewrite Hsq. field. lra.
      * assert (Hinv : / 2 < / L)
          by (apply Rinv_lt_contravar; nra).
        assert (Hone : 1 <= Rabs x \/ 1 <= Rabs z).
        { destruct Hx as [-> | [-> | ->]];
            [ | left; unfold Rabs; destruct (Rcase_abs _); lra
              | left; unfold Rabs; destruct (Rcase_abs _); lra ].
          destruct Hz as [-> | [-> | ->]];
            [ unfold S in HSpos; lra
            | right; unfold Rabs; destruct (Rcase_abs _); lra
            | right; unfold Rabs; destruct (Rcase_abs _); lra ]. }
        assert (HLinv : 0 < / L) by (apply Rinv_0_lt_compat; lra).
        unfold Rdiv. rewrite !Rabs_mult, (Rabs_pos_eq (/ L)) by lra.
        destruct Hone as [H1 | H1].
        -- destruct (Rlt_dec 0.01 (Rabs x * / L)) as [ | Hn];
             [ reflexivity | ].
           exfalso. apply Hn. nra.
        -- destruct (Rlt_dec 0.01 (Rabs z * / L)) as [ | Hn];
             [ apply orb_true_r | ].
           exfalso. apply Hn. nra.
    + intros [-> ->]. unfold S in HSpos. lra.
  - split; [ | split ].
    + intros [-> ->]. reflexivity.
    + intros Hnz. exfalso. apply Hl.
      apply sqrt_pos_of_pos. unfold S.
      destruct Hnz as [Hnz | Hnz]; nra.
    + intros [-> ->]. cbn [fst snd]. rewrite Rabs_R0.
      destruct (Rlt_dec 0.01 0) as [H | _]; [ lra | reflexivity ].
Qed.

(** X23.  The movement input is a unit vector or nothing.  When opposite
    keys cancel on both axes (neither or both held) the input is (0, 0)
    and the character controller's moving test (a component above 0.01 in
    magnitude) fails; in every other case the input has length one, also
    on a diagonal, and the moving test passes. *)
Theorem X23_movement_input_unit_or_zero :
  forall m : InputManager.t,
    let v := InputManager.getMovementInput m in
    let cancelled :=
      Bool.eqb (InputManager.forward (InputManager.keys m))
        (InputManager.backward (InputManager.keys m))
      && Bool.eqb (InputManager.left (InputManager.keys m))
           (InputManager.right (InputManager.keys m)) in
    (if cancelled then v = (0, 0)
     else fst v * fst v + snd v * snd v = 1)
    /\ gtb_R (Rabs (fst v)) 0.01 || gtb_R (Rabs (snd v)) 0.01
       = negb cancelled.
Proof.
  intros [[f b l r s] ms]. unfold InputManager.getMovementInput.
  cbn [InputManager.keys InputManager.forward InputManager.backward
       InputManager.left InputManager.right].
  cbv zeta.
  set (z := if b then _ else _).
  set (x := if r then _ else _).
  assert (Hx : (x = 0 \/ x = 1 \/ x = -1)
               /\ (x = 0 <-> Bool.eqb l r = true)).
  { unfold x. destruct l, r; cbn; (split; [ | split; intros; lra || auto ]);
      try (left; lra); try (right; left; lra); try (right; right; lra);
      try discriminate. }
  assert (Hz : (z = 0 \/ z = 1 \/ z = -1)
               /\ (z = 0 <-> Bool.eqb f b = true)).
  { unfold z. destruct f, b; cbn; (split; [ | split; intros; lra || auto ]);
      try (left; lra); try (right; left; lra); try (right; right; lra);
      try discriminate. }
  destruct Hx as [Hx Hx0]. destruct Hz as [Hz Hz0].
  destruct (normalised_components x z Hx Hz) as (H0 & H1 & H2).
  cbv zeta in H0, H1, H2.
  destruct (Bool.eqb f b) eqn:Ef; destruct (Bool.eqb l r) eqn:El;
    cbn [andb negb].
  - assert (Hxz : x = 0 /\ z = 0)
      by (split; [ now apply Hx0 | now apply Hz0 ]).
    split; [ now apply H0 | now apply H2 ].
  - assert (Hxz : x <> 0 \/ z <> 0).
    { left. intros E. apply Hx0 in E. discriminate. }
    destruct (H1 Hxz). split; assumption.
  - assert (Hxz : x <> 0 \/ z <> 0).
    { right. intros E. apply Hz0 in E. discriminate. }
    destruct (H1 Hxz). split; assumption.
  - assert (Hxz : x <> 0 \/ z <> 0).
    { right. intros E. apply Hz0 in E. discriminate. }
    destruct (H1 Hxz). split; assumption.
Qed.

(** ** The camera *)

Section CameraOrbit.

Import GameCamera.

Lemma polar_limits : MIN_POLAR_ANGLE <= PI / 4 <= MAX_POLAR_ANGLE.
Proof.
  pose proof PI_bounds. unfold MIN_POLAR_ANGLE, MAX_POLAR_ANGLE. lra.
Qed.

Lemma clamp_polar (p : R) :
  MIN_POLAR_ANGLE <= Rmax MIN_POLAR_ANGLE (Rmin MAX_POLAR_ANGLE p)
  <= MAX_POLAR_ANGLE.
Proof.
  pose proof polar_limits.
  unfold Rmax, Rmin.
  destruct (Rle_dec MAX_POLAR_ANGLE p);
    destruct (Rle_dec MIN_POLAR_ANGLE _); lra.
Qed.

Lemma clamp_polar_fixed (p : R) :
  MIN_POLAR_ANGLE <= p <= MAX_POLAR_ANGLE ->
  Rmax MIN_POLAR_ANGLE (Rmin MAX_POLAR_ANGLE p) = p.
Proof.
  intros H. unfold Rmax, Rmin.
  destruct (Rle_dec MAX_POLAR_ANGLE p);
    destruct (Rle_dec MIN_POLAR_ANGLE _); lra.
Qed.

(** The height of the desired position whenever the polar angle is within
    its limits: above the target by more than CAMERA_HEIGHT. *)
Lemma desired_height (tp : Vector3.t) (gc : t) :
  MIN_POLAR_ANGLE <= polarAngle gc <= MAX_POLAR_ANGLE ->
  Vector3.y tp + CAMERA_HEIGHT
  < Vector3.y (desiredPosition (updateCameraPosition tp gc))
  /\ MIN_CAMERA_HEIGHT
     <= Vector3.y (desiredPosition (updateCameraPosition tp gc)).
Proof.
  intros Hp. pose proof PI_bounds as HPI.
  unfold updateCameraPosition. cbv zeta.
  cbn [desiredPosition Vector3.y].
  assert (Hcos : 0 < cos (polarAngle gc)).
  { unfold MIN_POLAR_ANGLE, MAX_POLAR_ANGLE in Hp.
    apply cos_gt_0; lra. }
  unfold CAMERA_OFFSET_DISTANCE, CAMERA_HEIGHT, MIN_CAMERA_HEIGHT.
  split.
  - apply Rlt_le_trans
      with (Vector3.y tp + (5.0 * cos (polarAngle gc) + 2.5));
      [ lra | apply Rmax_l ].
  - apply Rmax_r.
Qed.

Lemma update_polar dt im tp gc :
  MIN_POLAR_ANGLE <= polarAngle (fst (update dt im tp gc))
  <= MAX_POLAR_ANGLE.
Proof.
  unfold update, InputManager.getMouseDelta. cbv zeta.
  cbn [fst snd polarAngle updateCameraPosition].
  apply clamp_polar.
Qed.

Lemma updates_app fs fs' : forall im gc,
  updates (fs ++ fs') im gc
  = updates fs' (snd (updates fs im gc)) (fst (updates fs im gc)).
Proof.
  induction fs as [ | [[dt mv] tp] fs IH]; intros im gc; cbn [app updates].
  - reflexivity.
  - destruct (update dt (InputManager.onMouseMove (fst mv) (snd mv) im) tp
                gc) as [gc1 im1].
    apply IH.
Qed.

Lemma updates_polar fs : forall im gc,
  MIN_POLAR_ANGLE <= polarAngle gc <= MAX_POLAR_ANGLE ->
  MIN_POLAR_ANGLE <= polarAngle (fst (updates fs im gc))
  <= MAX_POLAR_ANGLE.
Proof.
  induction fs as [ | [[dt mv] tp] fs IH]; intros im gc Hp; cbn [updates].
  - exact Hp.
  - pose proof (update_polar dt
                  (InputManager.onMouseMove (fst mv) (snd mv) im) tp gc)
      as H1.
    destruct (update dt (InputManager.onMouseMove (fst mv) (snd mv) im) tp
                gc) as [gc1 im1].
    now apply IH.
Qed.

(** X24.  The camera never flips and looks down at the character.  From
    construction on, after every update, whatever the mouse does, the
    polar angle is within [MIN_POLAR_ANGLE, MAX_POLAR_ANGLE], the desired
    camera position is more than CAMERA_HEIGHT above the target's position
    of that update and not below MIN_CAMERA_HEIGHT, and the point looked
    at is CAMERA_LOOK_AT_HEIGHT above the target's position. *)
Theorem X24_camera_stays_above_target :
  forall (fs : list (R * (R * R) * Vector3.t)) (dt : R) (mv : R * R)
         (tp tp0 : Vector3.t) (im : InputManager.t),
    let gc :=
      fst (GameCamera.updates (fs ++ [(dt, mv, tp)]) im
             (GameCamera.new tp0)) in
    (GameCamera.MIN_POLAR_ANGLE <= GameCamera.polarAngle gc
     <= GameCamera.MAX_POLAR_ANGLE)
    /\ Vector3.y tp + GameCamera.CAMERA_HEIGHT
       < Vector3.y (GameCamera.desiredPosition gc)
    /\ GameCamera.MIN_CAMERA_HEIGHT
       <= Vector3.y (GameCamera.desiredPosition gc)
    /\ GameCamera.lookAtPoint gc
       = Vector3.mk (Vector3.x tp)
           (Vector3.y tp + GameCamera.CAMERA_LOOK_AT_HEIGHT) (Vector3.z tp).
Proof.
  intros fs dt mv tp tp0 im. cbv zeta.
  rewrite updates_app.
  set (gc0 := fst (updates fs im (new tp0))).
  set (im0 := snd (updates fs im (new tp0))).
  cbn [updates].
  set (im1 := InputManager.onMouseMove (fst mv) (snd mv) im0).
  pose proof (update_polar dt im1 tp gc0) as Hp.
  split; [ | split; [ | split ] ].
  - destruct (update dt im1 tp gc0) as [gc1 im2]. exact Hp.
  - unfold update, InputManager.getMouseDelta in *. cbv zeta in *.
    cbn [fst snd polarAngle desiredPosition] in *.
    apply desired_height. exact Hp.
  - unfold update, InputManager.getMouseDelta in *. cbv zeta in *.
    cbn [fst snd polarAngle desiredPosition] in *.
    apply desired_height. exact Hp.
  - unfold update, InputManager.getMouseDelta. cbv zeta. reflexivity.
Qed.

Lemma lerp_floor (c d f m : R) :
  0 <= f <= 1 -> m <= c -> m <= d -> m <= c + (d - c) * f.
Proof. intros. nra. Qed.

Lemma lerp_factor_range (dt : R) :
  0 <= dt -> 0 <= Rmin 1.0 (CAMERA_LERP_FACTOR * dt) <= 1.
Proof.
  intros H. unfold CAMERA_LERP_FACTOR, Rmin.
  destruct (Rle_dec 1.0 (5.0 * dt)); lra.
Qed.

(** X25.  The camera itself keeps above the floor.  If no delta time is
    negative, the camera's own (smoothed) position is never below
    MIN_CAMERA_HEIGHT, from construction through any run of updates. *)
Theorem X25_camera_keeps_above_floor :
  forall (fs : list (R * (R * R) * Vector3.t)) (tp0 : Vector3.t)
         (im : InputManager.t),
    Forall (fun f => 0 <= fst (fst f)) fs ->
    GameCamera.MIN_CAMERA_HEIGHT
    <= Vector3.y
         (GameCamera.currentPosition
            (fst (GameCamera.updates fs im (GameCamera.new tp0)))).
Proof.
  intros fs tp0 im Hfs.
  assert (H : forall im gc,
             MIN_POLAR_ANGLE <= polarAngle gc <= MAX_POLAR_ANGLE ->
             MIN_CAMERA_HEIGHT <= Vector3.y (currentPosition gc) ->
             MIN_CAMERA_HEIGHT
             <= Vector3.y (currentPosition (fst (updates fs im gc)))).
  { clear im. induction fs as [ | [[dt mv] tp] fs IH]; intros im gc Hp Hc;
      cbn [updates].
    - exact Hc.
    - apply Forall_cons_iff in Hfs. destruct Hfs as [Hdt Hfs].
      cbn [fst] in Hdt.
      set (im1 := InputManager.onMouseMove (fst mv) (snd mv) im).
      pose proof (update_polar dt im1 tp gc) as Hp1.
      assert (Hc1 : MIN_CAMERA_HEIGHT
                    <= Vector3.y (currentPosition (fst (update dt im1 tp gc)))).
      { unfold update, InputManager.getMouseDelta in *. cbv zeta in *.
        cbn [fst snd polarAngle currentPosition desiredPosition] in *.
        unfold lerpVector. cbn [Vector3.y].
        apply lerp_floor.
        - now apply lerp_factor_range.
        - exact Hc.
        - apply desired_height. exact Hp1. }
      destruct (update dt im1 tp gc) as [gc1 im2].
      cbn [fst] in *. now apply IH. }
  apply H.
  - unfold new. cbn [polarAngle updateCameraPosition]. apply polar_limits.
  - unfold new. cbv zeta. cbn [currentPosition].
    apply desired_height. cbn [polarAngle]. apply polar_limits.
Qed.

(** X26.  A mouse movement turns the camera once.  The update that reads
    the mouse delta clears it: a second update with no mouse event in
    between leaves both orbit angles as the first one set them, and the
    delta the input manager then holds is (0, 0). *)
Theorem X26_mouse_delta_is_consumed_once :
  forall (dt dt' : R) (im : InputManager.t) (tp tp' : Vector3.t)
         (gc : GameCamera.t),
    let r1 := GameCamera.update dt im tp gc in
    let r2 := GameCamera.update dt' (snd r1) tp' (fst r1) in
    GameCamera.azimuthAngle (fst r2) = GameCamera.azimuthAngle (fst r1)
    /\ GameCamera.polarAngle (fst r2) = GameCamera.polarAngle (fst r1)
    /\ fst (InputManager.getMouseDelta (snd r1)) = (0, 0).
Proof.
  intros dt dt' im tp tp' gc.
  pose proof (update_polar dt im tp gc) as Hp.
  cbv zeta. unfold update, InputManager.getMouseDelta in *. cbv zeta in *.
  cbn [fst snd azimuthAngle polarAngle updateCameraPosition
       InputManager.mouse InputManager.deltaX InputManager.deltaY] in *.
  split; [ ring | split; [ | reflexivity ] ].
  rewrite Rmult_0_l, Rplus_0_r.
  apply clamp_polar_fixed. exact Hp.
Qed.

End CameraOrbit.

Lemma X25_camera_keeps_above_floor_witness :
  GameCamera.MIN_CAMERA_HEIGHT
  <= Vector3.y
       (GameCamera.currentPosition
          (fst (GameCamera.updates
                  [(1 / 60, (120, -40), Vector3.mk 1 0 2);
                   (1 / 2, (0, 900), Vector3.mk 1 0 3)]
                  (InputManager.onPointerLockChange true InputManager.new)
                  (GameCamera.new Vector3.zero)))).
Proof.
  apply X25_camera_keeps_above_floor.
  repeat constructor; cbn; lra.
Defined.
